(** * RenderFlow render service: queue, bundle cache and job processor

    A shallow embedding of the render service of the renderer package (its
    [RenderQueue] and [RenderService] classes), of the composition
    registry [COMPOSITIONS] and of the [DIMENSIONS] table, followed by the
    properties of the render pipeline.

    Conventions of the embedding:
    - JavaScript numbers that the service defaults and multiplies
      (duration, fps, progress percentage) are integers [Z]; the
      concurrency, which is only compared with a size, and the fraction
      reported by the rendering engine are rationals [Q] (finite numbers;
      [NaN], which is falsy like 0, has no counterpart);
    - optional fields ([x?: T]) are [option T]; [undefined] is [None];
    - [Map<string, _>] is a [gmap string _], [Set<string>] a [gset string],
      arrays are lists;
    - progress callbacks are opaque observers, identified by a number; calling
      one appends to a delivery log, returns normally and does not call
      back into the service;
    - an [async] method is split at its [await]s: the synchronous prefix is a
      function on the service state, each resumption is an event handled by
      [RenderService.step]. *)

From Stdlib Require Import ZArith QArith Qround Lqa.
From stdpp Require Import base option strings list gmap fin_maps fin_sets.

Set Warnings "-clear-no-such-hyp".

Local Open Scope string_scope.
Local Open Scope list_scope.
Local Open Scope Z_scope.

(** ** JavaScript value helpers *)

Module Js.

(** Truthiness of a string: only the empty string is falsy. *)
Definition truthy_string (s : string) : bool :=
  match s with
  | EmptyString => false
  | String _ _ => true
  end.

(** [a || b] where [a : number | undefined] and [b : number]. *)
Definition or_number (a : option Z) (b : Z) : Z :=
  match a with
  | Some v => if v =? 0 then b else v
  | None => b
  end.

(** [a || b] for a number that may be a fraction. *)
Definition or_fraction (a : option Q) (b : Q) : Q :=
  match a with
  | Some v => if Qeq_bool v 0 then b else v
  | None => b
  end.

(** [a < b] on numbers. *)
Definition lt (a b : Q) : bool :=
  match (a ?= b)%Q with
  | Lt => true
  | _ => false
  end.

(** [a || b] where both [a] and [b] are [number | undefined]. *)
Definition or_undefined (a b : option Z) : option Z :=
  match a with
  | Some v => if v =? 0 then b else Some v
  | None => b
  end.

(** The value of [a : string | null] when it passes [if (a)]. *)
Definition truthy (a : option string) : option string :=
  match a with
  | Some v => if truthy_string v then Some v else None
  | None => None
  end.

(** [a || b] where [a : string | undefined]. *)
Definition or_string (a : option string) (b : string) : string :=
  match a with
  | Some v => if truthy_string v then v else b
  | None => b
  end.

(** [a || b] for an optional value of an enumeration of non-empty string
    literals (every present value is truthy). *)
Definition or_enum {A : Type} (a : option A) (b : A) : A :=
  match a with
  | Some v => v
  | None => b
  end.

(** [Math.round]: the nearest integer, halves rounded up. *)
Definition Math_round (x : Q) : Z := Qfloor (x + (1 # 2))%Q.

(** [s.slice(0, n)] on a string. *)
Definition slice0 (n : nat) (s : string) : string := String.substring 0 n s.

(** [s.replace(/\.mp4$/, r)]: replaces a final [.mp4] by [r]. *)
Fixpoint replace_mp4_suffix (s r : string) : string :=
  match s with
  | EmptyString => EmptyString
  | String c rest =>
      if String.eqb s ".mp4" then r else String c (replace_mp4_suffix rest r)
  end.

(** [path.join(dir, file)], without the normalisation of the result. *)
Definition path_join (dir file : string) : string :=
  (dir ++ "/" ++ file)%string.

(** [arr.indexOf(x)] followed by [arr.splice(index, 1)] when found:
    removes the first occurrence of [x]. *)
Fixpoint remove_first (x : nat) (l : list nat) : list nat :=
  match l with
  | [] => []
  | y :: l' => if decide (x = y) then l' else y :: remove_first x l'
  end.

End Js.

(** ** Theme: output formats and their pixel dimensions *)

Module Theme.

Inductive AspectRatio := landscape | portrait | square.

Record DimensionConfig := {
  width : Z;
  height : Z;
  aspectRatio : AspectRatio;
}.

Definition DIMENSIONS (format : AspectRatio) : DimensionConfig :=
  match format with
  | landscape => {| width := 1920; height := 1080; aspectRatio := landscape |}
  | portrait => {| width := 1080; height := 1920; aspectRatio := portrait |}
  | square => {| width := 1080; height := 1080; aspectRatio := square |}
  end.

End Theme.

(** ** Composition registry *)

Module Compositions.

Record Meta := {
  id : string;
  name : string;
  category : string;
  defaultDuration : Z;
  contentTypes : list string;
  formats : list Theme.AspectRatio;
}.

Definition all_formats : list Theme.AspectRatio :=
  [Theme.landscape; Theme.portrait; Theme.square].

Definition entry (i n c : string) (d : Z) (ct : string) : string * Meta :=
  (i, {| id := i; name := n; category := c; defaultDuration := d;
         contentTypes := [ct]; formats := all_formats |}).

(** The own properties of the [COMPOSITIONS] object literal. *)
Definition COMPOSITIONS : gmap string Meta :=
  list_to_map
    [ entry "EventPromo" "Event Promo" "promo" 10 "event";
      entry "EventReel" "Event Reel" "promo" 30 "event";
      entry "ProductBoard" "Product Board" "menu" 15 "product";
      entry "StatsDashboard" "Stats Dashboard" "stats" 8 "stat";
      entry "Branding" "Branding" "branding" 5 "media";
      entry "Alert" "Alert" "alert" 6 "message" ].

(** The property names that every plain object inherits from
    [Object.prototype] (ECMAScript and its Annex B; [__proto__] is an
    accessor there). *)
Definition Object_prototype : list string :=
  [ "constructor"; "hasOwnProperty"; "isPrototypeOf"; "propertyIsEnumerable";
    "toLocaleString"; "toString"; "valueOf"; "__proto__";
    "__defineGetter__"; "__defineSetter__"; "__lookupGetter__"; "__lookupSetter__" ].

(** What [COMPOSITIONS[key]] evaluates to when it is not [undefined]: the
    metadata of a registered composition, or, through the prototype chain,
    a member of [Object.prototype] (a function, or the prototype itself
    for [__proto__]): a truthy value without a [defaultDuration]. *)
Inductive Found :=
  | Registered (meta : Meta)
  | Inherited.

(** [COMPOSITIONS[key]] for any string [key]; [None] is [undefined]. *)
Definition get (key : string) : option Found :=
  match COMPOSITIONS !! key with
  | Some meta => Some (Registered meta)
  | None => if bool_decide (key ∈ Object_prototype) then Some Inherited else None
  end.

(** [composition.defaultDuration]. *)
Definition defaultDuration_of (composition : Found) : option Z :=
  match composition with
  | Registered meta => Some (defaultDuration meta)
  | Inherited => None
  end.

End Compositions.

(** ** Job records *)

Inductive RenderStatus :=
  queued | bundling | rendering | encoding | completed | failed | cancelled.

#[global] Instance RenderStatus_eq_dec : EqDecision RenderStatus.
Proof. solve_decision. Defined.

Inductive Quality := draft | standard | high.

(** [QUALITY_PRESETS[q].crf]; the codec is h264 for every preset. *)
Definition QUALITY_PRESETS_crf (q : Quality) : Z :=
  match q with
  | draft => 28
  | standard => 20
  | high => 15
  end.

(** The input-props bag is passed through to the engine untouched. *)
Definition Props := list (string * string).

Module RenderJobInput.
Record t := {
  compositionId : string;
  inputProps : Props;
  format : option Theme.AspectRatio;
  duration : option Z;
  fps : option Z;
  quality : option Quality;
  outputPath : option string;
  outputFilename : option string;
}.
End RenderJobInput.

Module RenderJob.
Record t := {
  compositionId : string;
  inputProps : Props;
  format : option Theme.AspectRatio;
  duration : option Z;
  fps : option Z;
  quality : option Quality;
  outputFilename : option string;
  id : string;
  status : RenderStatus;
  progress : Z;
  error : option string;
  outputPath : string;
  thumbnailPath : option string;
  createdAt : Z;
  startedAt : option Z;
  completedAt : option Z;
}.

(** [Partial<RenderJob>] restricted to the fields the service ever
    updates.  A field that is present overwrites the job's; for
    [thumbnailPath] the present value may itself be [undefined]. *)
Record partial := {
  u_status : option RenderStatus;
  u_progress : option Z;
  u_error : option string;
  u_thumbnailPath : option (option string);
  u_startedAt : option Z;
  u_completedAt : option Z;
}.

Definition or_field {A : Type} (u : option A) (old : A) : A :=
  match u with
  | Some v => v
  | None => old
  end.

(** [Object.assign(job, updates)]. *)
Definition assign (job : t) (u : partial) : t :=
  {| compositionId := compositionId job;
     inputProps := inputProps job;
     format := format job;
     duration := duration job;
     fps := fps job;
     quality := quality job;
     outputFilename := outputFilename job;
     id := id job;
     status := or_field (u_status u) (status job);
     progress := or_field (u_progress u) (progress job);
     error := match u_error u with Some e => Some e | None => error job end;
     outputPath := outputPath job;
     thumbnailPath := or_field (u_thumbnailPath u) (thumbnailPath job);
     createdAt := createdAt job;
     startedAt :=
       match u_startedAt u with Some d => Some d | None => startedAt job end;
     completedAt :=
       match u_completedAt u with Some d => Some d | None => completedAt job end;
  |}.
End RenderJob.

Record RenderProgress := {
  jobId : string;
  p_status : RenderStatus;
  p_progress : Z;
}.

(** A progress callback is identified by its function identity. *)
Abbreviation ProgressCallback := nat (only parsing).

(** ** The render queue *)

Module RenderQueue.

Record t := {
  jobs : gmap string RenderJob.t;
  queue : list string;
  processing : gset string;
  maxConcurrent : Q;
  listeners : gmap string (list ProgressCallback);
  (** every call [cb(progress)] made so far, oldest first *)
  delivered : list (ProgressCallback * RenderProgress);
}.

(** [new RenderQueue(maxConcurrent)] *)
Definition new (maxConcurrent : Q) : t :=
  {| jobs := ∅; queue := []; processing := ∅;
     maxConcurrent := maxConcurrent; listeners := ∅; delivered := [] |}.

Definition add (job : RenderJob.t) (q : t) : t :=
  {| jobs := <[RenderJob.id job := job]> (jobs q);
     queue := queue q ++ [RenderJob.id job];
     processing := processing q;
     maxConcurrent := maxConcurrent q;
     listeners := listeners q;
     delivered := delivered q |}.

Definition get (jobId : string) (q : t) : option RenderJob.t :=
  jobs q !! jobId.

Definition canProcess (q : t) : bool :=
  Js.lt (inject_Z (Z.of_nat (size (processing q)))) (maxConcurrent q)
  && (0 <? Z.of_nat (length (queue q))).

(** [queue.shift()], then the early return on a falsy id. *)
Definition dequeue (q : t) : t * option RenderJob.t :=
  match queue q with
  | [] => (q, None)
  | jobId :: rest =>
      if Js.truthy_string jobId then
        ({| jobs := jobs q; queue := rest;
            processing := {[jobId]} ∪ processing q;
            maxConcurrent := maxConcurrent q;
            listeners := listeners q;
            delivered := delivered q |},
         jobs q !! jobId)
      else
        ({| jobs := jobs q; queue := rest;
            processing := processing q;
            maxConcurrent := maxConcurrent q;
            listeners := listeners q;
            delivered := delivered q |},
         None)
  end.

Definition complete (jobId : string) (q : t) : t :=
  {| jobs := jobs q; queue := queue q;
     processing := processing q ∖ {[jobId]};
     maxConcurrent := maxConcurrent q;
     listeners := listeners q;
     delivered := delivered q |}.

(** [this.listeners.get(job.id) || []], each callback called in order
    with the same snapshot. *)
Definition notifyProgress (job : RenderJob.t) (q : t) : t :=
  let ls := default [] (listeners q !! RenderJob.id job) in
  let progress :=
    {| jobId := RenderJob.id job;
       p_status := RenderJob.status job;
       p_progress := RenderJob.progress job |} in
  {| jobs := jobs q; queue := queue q;
     processing := processing q;
     maxConcurrent := maxConcurrent q;
     listeners := listeners q;
     delivered := delivered q ++ map (fun cb => (cb, progress)) ls |}.

Definition update (jobId : string) (updates : RenderJob.partial) (q : t) : t :=
  match jobs q !! jobId with
  | Some job =>
      let job' := RenderJob.assign job updates in
      notifyProgress job'
        {| jobs := <[jobId := job']> (jobs q); queue := queue q;
           processing := processing q;
           maxConcurrent := maxConcurrent q;
           listeners := listeners q;
           delivered := delivered q |}
  | None => q
  end.

(** The registration part of [subscribe]. *)
Definition subscribe (jobId : string) (callback : ProgressCallback) (q : t) : t :=
  {| jobs := jobs q; queue := queue q;
     processing := processing q;
     maxConcurrent := maxConcurrent q;
     listeners :=
       <[jobId := default [] (listeners q !! jobId) ++ [callback]]> (listeners q);
     delivered := delivered q |}.

(** The closure returned by [subscribe(jobId, callback)], applied. *)
Definition unsubscribe (jobId : string) (callback : ProgressCallback) (q : t) : t :=
  match listeners q !! jobId with
  | Some ls =>
      {| jobs := jobs q; queue := queue q;
         processing := processing q;
         maxConcurrent := maxConcurrent q;
         listeners := <[jobId := Js.remove_first callback ls]> (listeners q);
         delivered := delivered q |}
  | None => q
  end.

(** The listener list that a notification for [jobId] would walk. *)
Definition listeners_of (jobId : string) (q : t) : list ProgressCallback :=
  default [] (listeners q !! jobId).

End RenderQueue.

(** ** The render service *)

(** State of a promise returned by the bundler. *)
Inductive Settled :=
  | Pending
  | Fulfilled (location : string)
  | Rejected (message : string).

(** What one call of [getBundle()] hands back, by the line that returns. *)
Inductive GetBundle :=
  | Cached (location : string)  (* return this.bundleLocation *)
  | Shared (p : nat)            (* return this.bundlePromise *)
  | Started (p : nat).          (* bundle() was called; its promise is awaited *)

(** Outcome of an awaited engine call. *)
Inductive Result :=
  | Ok
  | Threw (message : string).

(** The values [processJob] computes for the engine calls of one job. *)
Record RenderParams := {
  r_width : Z;
  r_height : Z;
  r_fps : Z;
  r_durationInFrames : Z;
  r_crf : Z;
  r_outputLocation : string;
  r_thumbnailPath : string;
  r_frame : Z;
}.

Definition renderParams (job : RenderJob.t) : RenderParams :=
  let format := Js.or_enum (RenderJob.format job) Theme.landscape in
  let dims := Theme.DIMENSIONS format in
  let fps := Js.or_number (RenderJob.fps job) 30 in
  let durationInFrames := Js.or_number (RenderJob.duration job) 10 * fps in
  {| r_width := Theme.width dims;
     r_height := Theme.height dims;
     r_fps := fps;
     r_durationInFrames := durationInFrames;
     r_crf := QUALITY_PRESETS_crf (Js.or_enum (RenderJob.quality job) standard);
     r_outputLocation := RenderJob.outputPath job;
     r_thumbnailPath :=
       Js.replace_mp4_suffix (RenderJob.outputPath job) "_thumb.jpg";
     r_frame := durationInFrames / 4 |}.

(** Where a running [processJob] is suspended. *)
Inductive Stage :=
  | AwaitBundle (g : GetBundle)
  | AwaitSelect (bundleLocation : string)
  | AwaitRender (bundleLocation : string) (call : RenderParams)
  | AwaitStill (bundleLocation : string) (call : RenderParams)
  | Done (outcome : Result).

Record Task := {
  t_job : RenderJob.t;
  t_stage : Stage;
}.

Module RenderService.

Record t := {
  outputDir : string;
  queue : RenderQueue.t;
  bundlePromise : option nat;
  bundleLocation : option string;
  isProcessing : bool;
  (** the promises returned by [bundle()], one per call, in call order *)
  builds : list Settled;
  (** the invocations of [processJob], in call order *)
  tasks : list Task;
}.

Definition set_queue (q : RenderQueue.t) (s : t) : t :=
  {| outputDir := outputDir s; queue := q;
     bundlePromise := bundlePromise s; bundleLocation := bundleLocation s;
     isProcessing := isProcessing s; builds := builds s; tasks := tasks s |}.

Definition set_isProcessing (b : bool) (s : t) : t :=
  {| outputDir := outputDir s; queue := queue s;
     bundlePromise := bundlePromise s; bundleLocation := bundleLocation s;
     isProcessing := b; builds := builds s; tasks := tasks s |}.

Definition set_bundleLocation (l : option string) (s : t) : t :=
  {| outputDir := outputDir s; queue := queue s;
     bundlePromise := bundlePromise s; bundleLocation := l;
     isProcessing := isProcessing s; builds := builds s; tasks := tasks s |}.

Definition set_builds (bs : list Settled) (s : t) : t :=
  {| outputDir := outputDir s; queue := queue s;
     bundlePromise := bundlePromise s; bundleLocation := bundleLocation s;
     isProcessing := isProcessing s; builds := bs; tasks := tasks s |}.

Definition set_tasks (ts : list Task) (s : t) : t :=
  {| outputDir := outputDir s; queue := queue s;
     bundlePromise := bundlePromise s; bundleLocation := bundleLocation s;
     isProcessing := isProcessing s; builds := builds s; tasks := ts |}.

Definition set_stage (i : nat) (job : RenderJob.t) (st : Stage) (s : t) : t :=
  set_tasks (<[i := {| t_job := job; t_stage := st |}]> (tasks s)) s.

(** [new RenderService(config)]: the defaults of [DEFAULT_CONFIG] under
    the given fields ([None]: the key is absent from [config]), then
    [new RenderQueue(this.config.concurrency || 2)]. *)
Definition new (outputDir : option string) (concurrency : option Q) : t :=
  {| outputDir := default "./output" outputDir;
     queue := RenderQueue.new (Js.or_fraction (Some (default 4%Q concurrency)) 2);
     bundlePromise := None; bundleLocation := None;
     isProcessing := false; builds := []; tasks := [] |}.

(** *** Bundle management *)

(** The synchronous part of [getBundle()]. *)
Definition getBundle (s : t) : t * GetBundle :=
  match Js.truthy (bundleLocation s) with
  | Some loc => (s, Cached loc)
  | None =>
      match bundlePromise s with
      | Some p => (s, Shared p)
      | None =>
          ({| outputDir := outputDir s; queue := queue s;
              bundlePromise := Some (length (builds s));
              bundleLocation := bundleLocation s;
              isProcessing := isProcessing s;
              builds := builds s ++ [Pending]; tasks := tasks s |},
           Started (length (builds s)))
      end
  end.

(** The state of the promise a caller of [getBundle()] awaits. *)
Definition awaited (s : t) (g : GetBundle) : Settled :=
  match g with
  | Cached loc => Fulfilled loc
  | Shared p | Started p => default Pending (builds s !! p)
  end.

(** The rest of [getBundle()] in the call that started the build, once
    the build has produced [loc]: [this.bundleLocation = await ...]. *)
Definition getBundle_resume (g : GetBundle) (loc : string) (s : t) : t :=
  match g with
  | Started _ => set_bundleLocation (Some loc) s
  | _ => s
  end.

Definition invalidateBundle (s : t) : t :=
  {| outputDir := outputDir s; queue := queue s;
     bundlePromise := None; bundleLocation := None;
     isProcessing := isProcessing s; builds := builds s; tasks := tasks s |}.

(** The bundler settles the promise of build [p]. *)
Definition settle_build (p : nat) (r : Settled) (s : t) : option t :=
  match r, builds s !! p with
  | Pending, _ => None
  | _, Some Pending => Some (set_builds (<[p := r]> (builds s)) s)
  | _, _ => None
  end.

(** *** Queue processing *)

Definition bundling_update (now : Z) : RenderJob.partial :=
  {| RenderJob.u_status := Some bundling; RenderJob.u_progress := None;
     RenderJob.u_error := None; RenderJob.u_thumbnailPath := None;
     RenderJob.u_startedAt := Some now; RenderJob.u_completedAt := None |}.

Definition rendering_update : RenderJob.partial :=
  {| RenderJob.u_status := Some rendering; RenderJob.u_progress := None;
     RenderJob.u_error := None; RenderJob.u_thumbnailPath := None;
     RenderJob.u_startedAt := None; RenderJob.u_completedAt := None |}.

(** The object built by the [onProgress] callback. *)
Definition progress_update (progress : Q) (encodedFrames : Z) : RenderJob.partial :=
  {| RenderJob.u_status := Some (if 0 <? encodedFrames then encoding else rendering);
     RenderJob.u_progress := Some (Js.Math_round (progress * 100)%Q);
     RenderJob.u_error := None; RenderJob.u_thumbnailPath := None;
     RenderJob.u_startedAt := None; RenderJob.u_completedAt := None |}.

Definition completed_update (thumbnail : option string) (now : Z) : RenderJob.partial :=
  {| RenderJob.u_status := Some completed; RenderJob.u_progress := Some 100;
     RenderJob.u_error := None; RenderJob.u_thumbnailPath := Some thumbnail;
     RenderJob.u_startedAt := None; RenderJob.u_completedAt := Some now |}.

Definition failed_update (errorMessage : string) (now : Z) : RenderJob.partial :=
  {| RenderJob.u_status := Some failed; RenderJob.u_progress := None;
     RenderJob.u_error := Some errorMessage; RenderJob.u_thumbnailPath := None;
     RenderJob.u_startedAt := None; RenderJob.u_completedAt := Some now |}.

Definition update (jobId : string) (u : RenderJob.partial) (s : t) : t :=
  set_queue (RenderQueue.update jobId u (queue s)) s.

(** [processJob(job)] up to its first [await]. *)
Definition processJob (job : RenderJob.t) (now : Z) (s : t) : t :=
  let s1 := update (RenderJob.id job) (bundling_update now) s in
  let '(s2, g) := getBundle s1 in
  set_tasks (tasks s2 ++ [{| t_job := job; t_stage := AwaitBundle g |}]) s2.

(** The [while] loop of [processQueue]; every turn that continues takes
    one id off the pending list, so its length bounds the turns. *)
Fixpoint processQueue_loop (fuel : nat) (now : Z) (s : t) : t :=
  match fuel with
  | O => s
  | S fuel' =>
      if RenderQueue.canProcess (queue s) then
        match RenderQueue.dequeue (queue s) with
        | (q', Some job) =>
            processQueue_loop fuel' now (processJob job now (set_queue q' s))
        | (q', None) => set_queue q' s
        end
      else s
  end.

Definition processQueue (now : Z) (s : t) : t :=
  if isProcessing s then s
  else
    set_isProcessing false
      (processQueue_loop (length (RenderQueue.queue (queue s))) now
         (set_isProcessing true s)).

(** *** Job management *)

(** The object literal built by [createJob].  ([createJob] also reads
    [DIMENSIONS[format]] into a local that it never uses; the dimensions
    are resolved again from [job.format] in [processJob].) *)
Definition newJob (outputDir : string) (input : RenderJobInput.t)
    (composition : Compositions.Found) (uuidFile uuidId : string) (now : Z)
    : RenderJob.t :=
  let format := Js.or_enum (RenderJobInput.format input) Theme.landscape in
  let filename :=
    Js.or_string (RenderJobInput.outputFilename input)
      (RenderJobInput.compositionId input ++ "_" ++ Js.slice0 8 uuidFile ++ ".mp4")%string in
  let outputPath :=
    match RenderJobInput.outputPath input with
    | Some dir =>
        if Js.truthy_string dir then Js.path_join dir filename
        else Js.path_join outputDir filename
    | None => Js.path_join outputDir filename
    end in
  {| RenderJob.compositionId := RenderJobInput.compositionId input;
     RenderJob.inputProps := RenderJobInput.inputProps input;
     RenderJob.format := Some format;
     RenderJob.duration :=
       Js.or_undefined (RenderJobInput.duration input)
         (Compositions.defaultDuration_of composition);
     RenderJob.fps := Some (Js.or_number (RenderJobInput.fps input) 30);
     RenderJob.quality := Some (Js.or_enum (RenderJobInput.quality input) standard);
     RenderJob.outputFilename := RenderJobInput.outputFilename input;
     RenderJob.id := uuidId;
     RenderJob.status := queued;
     RenderJob.progress := 0;
     RenderJob.error := None;
     RenderJob.outputPath := outputPath;
     RenderJob.thumbnailPath := None;
     RenderJob.createdAt := now;
     RenderJob.startedAt := None;
     RenderJob.completedAt := None |}.

(** [createJob(input)].  [uuidFile] and [uuidId] are the results of the
    two [uuidv4()] calls and [now] the clock.  The result is the error
    thrown, or the id under which the returned job object lives in the
    queue's job map (the caller holds that very object). *)
Definition createJob (input : RenderJobInput.t) (uuidFile uuidId : string)
    (now : Z) (s : t) : t * (string + string) :=
  match Compositions.get (RenderJobInput.compositionId input) with
  | None =>
      (s, inl ("Unknown composition: " ++ RenderJobInput.compositionId input)%string)
  | Some composition =>
      let job := newJob (outputDir s) input composition uuidFile uuidId now in
      let s1 := set_queue (RenderQueue.add job (queue s)) s in
      (processQueue now s1, inr (RenderJob.id job))
  end.

Definition getJob (jobId : string) (s : t) : option RenderJob.t :=
  RenderQueue.get jobId (queue s).

(** *** The rest of [processJob], one resumption at a time *)

(** The [finally] block, with the task's promise settled as [outcome]. *)
Definition finish (i : nat) (job : RenderJob.t) (outcome : Result) (now : Z)
    (s : t) : t :=
  let s1 := set_stage i job (Done outcome) s in
  let s2 := set_queue (RenderQueue.complete (RenderJob.id job) (queue s1)) s1 in
  processQueue now s2.

(** The [catch] block followed by the [finally] block. *)
Definition fail (i : nat) (job : RenderJob.t) (errorMessage : string) (now : Z)
    (s : t) : t :=
  finish i job (Threw errorMessage) now
    (update (RenderJob.id job) (failed_update errorMessage now) s).

(** What can happen next: a request arrives ([uuidFile], [uuidId]: the two
    results of [uuidv4()]; [now]: the clock), the bundle is invalidated, the
    bundler settles build [p], the call of [processJob] numbered [i] resumes
    from the [await] it is suspended at with the engine's outcome, the
    engine reports progress to call [i], or a listener is added or
    removed. *)
Inductive Event :=
  | CreateJob (input : RenderJobInput.t) (uuidFile uuidId : string) (now : Z)
  | InvalidateBundle
  | BuildSettled (p : nat) (r : Settled)
  | BundleAwaited (i : nat) (now : Z)
  | Selected (i : nat) (r : Result) (now : Z)
  | Progress (i : nat) (progress : Q) (encodedFrames : Z)
  | Rendered (i : nat) (r : Result) (now : Z)
  | StillRendered (i : nat) (r : Result) (thumbnailExists : bool) (now : Z)
  | Subscribe (jobId : string) (callback : ProgressCallback)
  | Unsubscribe (jobId : string) (callback : ProgressCallback).

(** One event of the event loop; [None] when the event cannot happen in
    state [s] (no such suspended call, or the awaited promise is pending). *)
Definition step (s : t) (e : Event) : option t :=
  match e with
  | CreateJob input uuidFile uuidId now =>
      Some (fst (createJob input uuidFile uuidId now s))
  | InvalidateBundle => Some (invalidateBundle s)
  | BuildSettled p r => settle_build p r s
  | BundleAwaited i now =>
      match tasks s !! i with
      | Some {| t_job := job; t_stage := AwaitBundle g |} =>
          match awaited s g with
          | Pending => None
          | Fulfilled loc =>
              let s1 := getBundle_resume g loc s in
              let s2 := update (RenderJob.id job) rendering_update s1 in
              Some (set_stage i job (AwaitSelect loc) s2)
          | Rejected message => Some (fail i job message now s)
          end
      | _ => None
      end
  | Selected i r now =>
      match tasks s !! i with
      | Some {| t_job := job; t_stage := AwaitSelect loc |} =>
          match r with
          | Ok => Some (set_stage i job (AwaitRender loc (renderParams job)) s)
          | Threw message => Some (fail i job message now s)
          end
      | _ => None
      end
  | Progress i progress encodedFrames =>
      match tasks s !! i with
      | Some {| t_job := job; t_stage := AwaitRender _ _ |} =>
          Some (update (RenderJob.id job) (progress_update progress encodedFrames) s)
      | _ => None
      end
  | Rendered i r now =>
      match tasks s !! i with
      | Some {| t_job := job; t_stage := AwaitRender loc call |} =>
          match r with
          | Ok => Some (set_stage i job (AwaitStill loc call) s)
          | Threw message => Some (fail i job message now s)
          end
      | _ => None
      end
  | StillRendered i r thumbnailExists now =>
      match tasks s !! i with
      | Some {| t_job := job; t_stage := AwaitStill loc call |} =>
          (* a throw of renderStill is caught and only logged *)
          let thumbnail :=
            if thumbnailExists then Some (r_thumbnailPath call) else None in
          Some (finish i job Ok now
                  (update (RenderJob.id job) (completed_update thumbnail now) s))
      | _ => None
      end
  | Subscribe jobId callback =>
      Some (set_queue (RenderQueue.subscribe jobId callback (queue s)) s)
  | Unsubscribe jobId callback =>
      Some (set_queue (RenderQueue.unsubscribe jobId callback (queue s)) s)
  end.

Fixpoint run (s : t) (events : list Event) : option t :=
  match events with
  | [] => Some s
  | e :: events' =>
      match step s e with
      | Some s' => run s' events'
      | None => None
      end
  end.

(** *** Operations on the service and its queue

    The events above, and the queue-level calls [processQueue()],
    [queue.dequeue()] and [queue.complete(id)] made on their own. *)
Inductive Op :=
  | OpEvent (e : Event)
  | OpProcessQueue (now : Z)
  | OpDequeue
  | OpComplete (jobId : string).

Definition apply (s : t) (op : Op) : option t :=
  match op with
  | OpEvent e => step s e
  | OpProcessQueue now => Some (processQueue now s)
  | OpDequeue => Some (set_queue (RenderQueue.dequeue (queue s)).1 s)
  | OpComplete jobId => Some (set_queue (RenderQueue.complete jobId (queue s)) s)
  end.

(** Any operation at any time. *)
Definition unrestricted (s : t) (op : Op) : Prop := True.

(** [dequeue] only where [processQueue] calls it: under [canProcess()]. *)
Definition guarded (s : t) (op : Op) : Prop :=
  match op with
  | OpDequeue => RenderQueue.canProcess (queue s) = true
  | _ => True
  end.

(** States reached from [s0] by operations that [allowed] admits. *)
Inductive reaches (allowed : t → Op → Prop) (s0 : t) : t → Prop :=
  | reaches_refl : reaches allowed s0 s0
  | reaches_step (s s' : t) (op : Op) :
      reaches allowed s0 s →
      allowed s op →
      apply s op = Some s' →
      reaches allowed s0 s'.

(** The partial updates [processJob] passes to [queue.update]. *)
Inductive ServiceUpdate : RenderJob.partial → Prop :=
  | su_bundling (now : Z) : ServiceUpdate (bundling_update now)
  | su_rendering : ServiceUpdate rendering_update
  | su_progress (progress : Q) (encodedFrames : Z) :
      ServiceUpdate (progress_update progress encodedFrames)
  | su_completed (thumbnail : option string) (now : Z) :
      ServiceUpdate (completed_update thumbnail now)
  | su_failed (errorMessage : string) (now : Z) :
      ServiceUpdate (failed_update errorMessage now).

End RenderService.


(** ** Sample requests and jobs *)

Module Sample.

Definition request (compositionId : string) : RenderJobInput.t :=
  {| RenderJobInput.compositionId := compositionId;
     RenderJobInput.inputProps := [("title", "Summer Festival 2024")];
     RenderJobInput.format := Some Theme.landscape;
     RenderJobInput.duration := None;
     RenderJobInput.fps := None;
     RenderJobInput.quality := None;
     RenderJobInput.outputPath := None;
     RenderJobInput.outputFilename := None |}.

(** A request that spells out [duration: 0] and [fps: 0]. *)
Definition zero_request : RenderJobInput.t :=
  {| RenderJobInput.compositionId := "EventPromo";
     RenderJobInput.inputProps := [];
     RenderJobInput.format := None;
     RenderJobInput.duration := Some 0;
     RenderJobInput.fps := Some 0;
     RenderJobInput.quality := None;
     RenderJobInput.outputPath := None;
     RenderJobInput.outputFilename := None |}.

Definition EventPromo_meta : Compositions.Meta :=
  (Compositions.entry "EventPromo" "Event Promo" "promo" 10 "event").2.

(** The job [createJob] builds for an EventPromo request when [uuidv4]
    returns [uuid]. *)
Definition job (uuid : string) (now : Z) : RenderJob.t :=
  RenderService.newJob "./output" (request "EventPromo")
    (Compositions.Registered EventPromo_meta) uuid uuid now.

Definition A : RenderJob.t := job "a3f1c2d4-0001" 1.
Definition B : RenderJob.t := job "b7e2d9a0-0002" 2.
Definition C : RenderJob.t := job "c5d8e1f6-0003" 3.

End Sample.

(** ** Repeated calls *)

(** Enqueue a batch, oldest first. *)
Definition add_all (batch : list RenderJob.t) (q : RenderQueue.t) : RenderQueue.t :=
  foldl (fun q job => RenderQueue.add job q) q batch.

(** Call [dequeue] [n] times, collecting what each call returns. *)
Fixpoint dequeue_n (n : nat) (q : RenderQueue.t)
    : RenderQueue.t * list (option RenderJob.t) :=
  match n with
  | O => (q, [])
  | S n' =>
      let '(q1, job) := RenderQueue.dequeue q in
      let '(q2, started) := dequeue_n n' q1 in
      (q2, job :: started)
  end.

(** [n] calls of [getBundle()] in a row, with what each one hands back. *)
Fixpoint getBundle_many (n : nat) (s : RenderService.t)
    : RenderService.t * list GetBundle :=
  match n with
  | O => (s, [])
  | S n' =>
      let '(s1, g) := RenderService.getBundle s in
      let '(s2, gs) := getBundle_many n' s1 in
      (s2, g :: gs)
  end.

(** ** Invariants of the queue *)

(** The processing set respects the cap. *)
Definition cap_ok (q : RenderQueue.t) : Prop :=
  (inject_Z (Z.of_nat (size (RenderQueue.processing q)))
   < RenderQueue.maxConcurrent q + 1)%Q.

(** [maxConcurrent] is fixed at construction. *)
Definition same_cap (cap : Q) (q : RenderQueue.t) : Prop :=
  RenderQueue.maxConcurrent q = cap.

Definition full_when_completed (status : RenderStatus) (progress : Z) : Prop :=
  status = completed → progress = 100.

(** Every stored job and every snapshot handed to a listener. *)
Definition completed_ok (q : RenderQueue.t) : Prop :=
  (∀ jobId job, RenderQueue.jobs q !! jobId = Some job →
     full_when_completed (RenderJob.status job) (RenderJob.progress job))
  ∧ (∀ cb snapshot, (cb, snapshot) ∈ RenderQueue.delivered q →
     full_when_completed (p_status snapshot) (p_progress snapshot)).

(** The job map is keyed by the jobs' own ids. *)
Definition keys_ok (q : RenderQueue.t) : Prop :=
  ∀ jobId job, RenderQueue.jobs q !! jobId = Some job → RenderJob.id job = jobId.

(** ** Well-formed service states *)

(** The ids of the jobs handed to [processJob], in call order. *)
Definition task_ids (s : RenderService.t) : list string :=
  (fun task => RenderJob.id (t_job task)) <$> RenderService.tasks s.

(** A call of [processJob] that has not settled yet. *)
Definition live (task : Task) : Prop :=
  match t_stage task with
  | Done _ => False
  | _ => True
  end.

(** The job stored under [jobId] carries no error. *)
Definition clean (q : RenderQueue.t) (jobId : string) : Prop :=
  ∃ stored, RenderQueue.jobs q !! jobId = Some stored ∧ RenderJob.error stored = None.

(** The ids given by [uuidv4] to the requests that [createJob] accepted. *)
Definition created_id (e : RenderService.Event) : option string :=
  match e with
  | RenderService.CreateJob input _ uuidId _ =>
      match Compositions.get (RenderJobInput.compositionId input) with
      | Some _ => Some uuidId
      | None => None
      end
  | _ => None
  end.

Definition created (events : list RenderService.Event) : list string :=
  omap created_id events.

(** [uuidv4] returns non-empty, pairwise distinct strings. *)
Definition uuids_ok (ids : list string) : Prop :=
  NoDup ids ∧ Forall (fun jobId => Js.truthy_string jobId = true) ids.

(** The jobs created so far are [ids], in this order: those already started
    followed by those still pending; pending jobs and running calls have a
    stored job without an error. *)
Record wf (ids : list string) (s : RenderService.t) : Prop := {
  wf_keys : keys_ok (RenderService.queue s);
  wf_order : task_ids s ++ RenderQueue.queue (RenderService.queue s) = ids;
  wf_pending : ∀ jobId,
    jobId ∈ RenderQueue.queue (RenderService.queue s) →
    clean (RenderService.queue s) jobId;
  wf_live : ∀ i task,
    RenderService.tasks s !! i = Some task →
    live task →
    clean (RenderService.queue s) (RenderJob.id (t_job task));
}.

(** The values a suspended engine call was given are the ones computed
    from its job. *)
Definition call_ok (task : Task) : Prop :=
  match t_stage task with
  | AwaitRender _ call | AwaitStill _ call => call = renderParams (t_job task)
  | _ => True
  end.

Definition calls_ok (s : RenderService.t) : Prop :=
  Forall call_ok (RenderService.tasks s).

(** ** Scenarios *)

(** The engine's progress callback reports the fraction 1 with frames
    already encoded. *)
Definition after_full_progress : option RenderService.t :=
  RenderService.run (RenderService.new None None)
    [ RenderService.CreateJob (Sample.request "EventPromo")
        "a3f1c2d4-0001" "a3f1c2d4-0001" 1;
      RenderService.BuildSettled 0 (Fulfilled "/tmp/bundle");
      RenderService.BundleAwaited 0 2;
      RenderService.Selected 0 Ok 3;
      RenderService.Progress 0 1%Q 300 ].

(** A whole job: bundle built, composition selected, full progress
    reported, video rendered, and a thumbnail call that throws. *)
Definition thumbnail_failure_events : list RenderService.Event :=
  [ RenderService.CreateJob (Sample.request "EventPromo")
      "a3f1c2d4-0001" "a3f1c2d4-0001" 1;
    RenderService.BuildSettled 0 (Fulfilled "/tmp/bundle");
    RenderService.BundleAwaited 0 2;
    RenderService.Selected 0 Ok 3;
    RenderService.Progress 0 1%Q 300;
    RenderService.Rendered 0 Ok 4;
    RenderService.StillRendered 0 (Threw "Could not take screenshot") false 5 ].

Definition after_thumbnail_failure : option RenderService.t :=
  RenderService.run (RenderService.new None None) thumbnail_failure_events.




(** ** Queue views *)

(** [getAll()], as the set of stored jobs (the insertion order of the
    JavaScript [Map] is not part of the model). *)
Definition getAll (q : RenderQueue.t) : list RenderJob.t :=
  (map_to_list (RenderQueue.jobs q)).*2.

(** [getPending()]: the stored job of each pending id, oldest first;
    [None] where [this.jobs.get(id)] is [undefined]. *)
Definition getPending (q : RenderQueue.t) : list (option RenderJob.t) :=
  (fun jobId => RenderQueue.jobs q !! jobId) <$> RenderQueue.queue q.

(** ** The life of a job record *)

(** The record as [createJob] built it: the fields [processJob] never
    writes, with the mutable ones at their initial values. *)
Definition as_created (job : RenderJob.t) : RenderJob.t :=
  {| RenderJob.compositionId := RenderJob.compositionId job;
     RenderJob.inputProps := RenderJob.inputProps job;
     RenderJob.format := RenderJob.format job;
     RenderJob.duration := RenderJob.duration job;
     RenderJob.fps := RenderJob.fps job;
     RenderJob.quality := RenderJob.quality job;
     RenderJob.outputFilename := RenderJob.outputFilename job;
     RenderJob.id := RenderJob.id job;
     RenderJob.status := queued;
     RenderJob.progress := 0;
     RenderJob.error := None;
     RenderJob.outputPath := RenderJob.outputPath job;
     RenderJob.thumbnailPath := None;
     RenderJob.createdAt := RenderJob.createdAt job;
     RenderJob.startedAt := None;
     RenderJob.completedAt := None |}.

(** The mutable fields of the stored record while its call of
    [processJob] is at [stage]. *)
Definition stage_ok (stage : Stage) (stored : RenderJob.t) : Prop :=
  match stage with
  | AwaitBundle _ =>
      RenderJob.status stored = bundling ∧ RenderJob.progress stored = 0
      ∧ RenderJob.error stored = None ∧ RenderJob.thumbnailPath stored = None
      ∧ is_Some (RenderJob.startedAt stored) ∧ RenderJob.completedAt stored = None
  | AwaitSelect _ =>
      RenderJob.status stored = rendering ∧ RenderJob.progress stored = 0
      ∧ RenderJob.error stored = None ∧ RenderJob.thumbnailPath stored = None
      ∧ is_Some (RenderJob.startedAt stored) ∧ RenderJob.completedAt stored = None
  | AwaitRender _ _ | AwaitStill _ _ =>
      (RenderJob.status stored = rendering ∨ RenderJob.status stored = encoding)
      ∧ RenderJob.error stored = None ∧ RenderJob.thumbnailPath stored = None
      ∧ is_Some (RenderJob.startedAt stored) ∧ RenderJob.completedAt stored = None
  | Done Ok =>
      RenderJob.status stored = completed ∧ RenderJob.progress stored = 100
      ∧ RenderJob.error stored = None
      ∧ is_Some (RenderJob.startedAt stored) ∧ is_Some (RenderJob.completedAt stored)
  | Done (Threw message) =>
      RenderJob.status stored = failed ∧ RenderJob.error stored = Some message
      ∧ RenderJob.thumbnailPath stored = None
      ∧ is_Some (RenderJob.startedAt stored) ∧ is_Some (RenderJob.completedAt stored)
  end.

(** The job literal [createJob] builds for an accepted request. *)
Definition created_job (outputDir : string) (e : RenderService.Event)
    : option RenderJob.t :=
  match e with
  | RenderService.CreateJob input uuidFile uuidId now =>
      match Compositions.get (RenderJobInput.compositionId input) with
      | Some composition =>
          Some (RenderService.newJob outputDir input composition uuidFile uuidId now)
      | None => None
      end
  | _ => None
  end.

Definition created_jobs (outputDir : string) (events : list RenderService.Event)
    : list RenderJob.t :=
  omap (created_job outputDir) events.

(** The bookkeeping of the service when the created jobs are [jobs], in
    this order: the started ones are the calls of [processJob], the others
    are pending and untouched; every call's stored record has the fields
    of its stage; the processing set holds the ids of the unsettled
    calls. *)
Record acct (jobs : list RenderJob.t) (s : RenderService.t) : Prop := {
  acct_keys : keys_ok (RenderService.queue s);
  acct_order : ∃ waiting,
    jobs = (t_job <$> RenderService.tasks s) ++ waiting
    ∧ RenderQueue.queue (RenderService.queue s) = RenderJob.id <$> waiting
    ∧ ∀ job, job ∈ waiting →
        RenderQueue.jobs (RenderService.queue s) !! RenderJob.id job = Some job;
  acct_tasks : ∀ i task,
    RenderService.tasks s !! i = Some task →
    ∃ stored,
      RenderQueue.jobs (RenderService.queue s) !! RenderJob.id (t_job task) = Some stored
      ∧ as_created stored = t_job task
      ∧ stage_ok (t_stage task) stored;
  acct_dom :
    dom (RenderQueue.jobs (RenderService.queue s)) = list_to_set (RenderJob.id <$> jobs);
  acct_slots : ∀ jobId,
    jobId ∈ RenderQueue.processing (RenderService.queue s)
    ↔ ∃ i task, RenderService.tasks s !! i = Some task ∧ live task
                ∧ RenderJob.id (t_job task) = jobId;
}.

(** Job literals with ids as [uuidv4] gives them. *)
Definition jobs_ok (jobs : list RenderJob.t) : Prop :=
  uuids_ok (RenderJob.id <$> jobs) ∧ Forall (fun job => as_created job = job) jobs.


(** Between two events no call of [processQueue] is on the stack and
    nothing more can be started. *)
Definition steady (jobs : list RenderJob.t) (s : RenderService.t) : Prop :=
  acct jobs s
  ∧ RenderService.isProcessing s = false
  ∧ RenderQueue.canProcess (RenderService.queue s) = false.

(** [RenderService.getJobs()]. *)
Definition getJobs (s : RenderService.t) : list RenderJob.t :=
  getAll (RenderService.queue s).

(** Three requests to a service with one slot: the first job completes,
    the second fails at [selectComposition], the third is started. *)
Definition one_slot_events : list RenderService.Event :=
  [ RenderService.CreateJob (Sample.request "EventPromo")
      "a3f1c2d4-0001" "a3f1c2d4-0001" 1;
    RenderService.CreateJob (Sample.request "Alert")
      "b7e2d9a0-0002" "b7e2d9a0-0002" 2;
    RenderService.CreateJob (Sample.request "Branding")
      "c5d8e1f6-0003" "c5d8e1f6-0003" 3;
    RenderService.BuildSettled 0 (Fulfilled "/tmp/bundle");
    RenderService.BundleAwaited 0 4;
    RenderService.Selected 0 Ok 5;
    RenderService.Progress 0 (1 # 2)%Q 0;
    RenderService.Rendered 0 Ok 6;
    RenderService.StillRendered 0 Ok true 7;
    RenderService.BundleAwaited 1 8;
    RenderService.Selected 1 (Threw "No composition with the ID Alert") 9 ].

(** ** Utilities *)

(** [validateInputProps(compositionId, inputProps)]: only the registry
    lookup; the props are not looked at. *)
Definition validateInputProps (compositionId : string) (inputProps : Props) : bool :=
  match Compositions.get compositionId with
  | Some _ => true
  | None => false
  end.

(** ** Counting builds *)

(** The number of [invalidateBundle()] calls among the events. *)
Fixpoint invalidations (events : list RenderService.Event) : nat :=
  match events with
  | [] => O
  | RenderService.InvalidateBundle :: rest => S (invalidations rest)
  | _ :: rest => invalidations rest
  end.

(** [bundle()] has been called at most [n + 1] times, and at most [n]
    times if the next [getBundle()] may call it again. *)
Definition builds_bound (n : nat) (s : RenderService.t) : Prop :=
  (length (RenderService.builds s)
   + match RenderService.bundlePromise s with Some _ => 0 | None => 1 end ≤ S n)%nat.

(** ** Notifications *)

(** The log [after] extends [before] by snapshots of jobs other than
    [target]. *)
Definition quiet (target : string)
    (before after : list (ProgressCallback * RenderProgress)) : Prop :=
  ∃ extra,
    after = before ++ extra
    ∧ ∀ cb snapshot, (cb, snapshot) ∈ extra → jobId snapshot ≠ target.

(** No listener has been handed a snapshot with status [queued] or
    [cancelled]. *)
Definition told_ok (q : RenderQueue.t) : Prop :=
  ∀ cb snapshot, (cb, snapshot) ∈ RenderQueue.delivered q →
    p_status snapshot ∈ [bundling; rendering; encoding; completed; failed].

(** ** The thumbnail path *)

(** [s] ends in [.mp4], that is [/\.mp4$/] matches. *)
Fixpoint ends_mp4 (s : string) : bool :=
  match s with
  | EmptyString => false
  | String _ rest => String.eqb s ".mp4" || ends_mp4 rest
  end.

(** The job built for a request that names its output file [clip.mov]. *)
Definition mov_job : RenderJob.t :=
  RenderService.newJob "./output"
    {| RenderJobInput.compositionId := "Alert";
       RenderJobInput.inputProps := [("message", "Doors open at 7")];
       RenderJobInput.format := None;
       RenderJobInput.duration := None;
       RenderJobInput.fps := None;
       RenderJobInput.quality := None;
       RenderJobInput.outputPath := None;
       RenderJobInput.outputFilename := Some "clip.mov" |}
    (Compositions.Registered (Compositions.entry "Alert" "Alert" "alert" 6 "message").2)
    "d1a4b7c9-0004" "d1a4b7c9-0004" 1.

(** The run [one_slot_events] with a listener on each of the first two
    jobs, registered before the requests arrive. *)
Definition listened_events : list RenderService.Event :=
  RenderService.Subscribe "a3f1c2d4-0001" 7%nat
  :: RenderService.Subscribe "b7e2d9a0-0002" 8%nat
  :: one_slot_events.

(** ** A queue that never starts anything *)

(** Nothing has been started: the cap is negative, no call of
    [processJob] exists, the processing set is empty and every stored job
    is as [queued]. *)
Definition starved (s : RenderService.t) : Prop :=
  (RenderQueue.maxConcurrent (RenderService.queue s) < 0)%Q
  ∧ RenderService.tasks s = []
  ∧ RenderQueue.processing (RenderService.queue s) = ∅
  ∧ ∀ jobId stored,
      RenderService.getJob jobId s = Some stored → RenderJob.status stored = queued.

(** ** The bundler and the engine answering *)

(** The build a suspended [getBundle()] waits for is one of the [n]
    recorded ones. *)
Definition ref_ok (n : nat) (task : Task) : Prop :=
  match t_stage task with
  | AwaitBundle (Shared p) | AwaitBundle (Started p) => (p < n)%nat
  | _ => True
  end.

Definition refs_ok (s : RenderService.t) : Prop :=
  (∀ p, RenderService.bundlePromise s = Some p →
        (p < length (RenderService.builds s))%nat)
  ∧ Forall (ref_ok (length (RenderService.builds s))) (RenderService.tasks s).

(** The events in which the bundler or the engine answers with success:
    a build is fulfilled, a call resumes after its bundle, and
    [selectComposition], [renderMedia] and [renderStill] resolve (the
    thumbnail being written). *)
Definition succeeds (e : RenderService.Event) : Prop :=
  match e with
  | RenderService.BuildSettled _ (Fulfilled _)
  | RenderService.BundleAwaited _ _
  | RenderService.Selected _ Ok _
  | RenderService.Rendered _ Ok _
  | RenderService.StillRendered _ Ok true _ => True
  | _ => False
  end.

(** The service between two events, with at least one slot. *)
Definition running (jobs : list RenderJob.t) (s : RenderService.t) : Prop :=
  steady jobs s
  ∧ refs_ok s
  ∧ (0 < RenderQueue.maxConcurrent (RenderService.queue s))%Q.

(** The number of resumptions a call of [processJob] has before it. *)
Definition rank (stage : Stage) : nat :=
  match stage with
  | AwaitBundle _ => 4
  | AwaitSelect _ => 3
  | AwaitRender _ _ => 2
  | AwaitStill _ _ => 1
  | Done _ => 0
  end.

(** ** Where bundle locations come from *)

(** The location a call works with is the result of a recorded build. *)
Definition loc_ok (bs : list Settled) (task : Task) : Prop :=
  match t_stage task with
  | AwaitBundle (Cached loc) | AwaitSelect loc
  | AwaitRender loc _ | AwaitStill loc _ =>
      ∃ p, bs !! p = Some (Fulfilled loc)
  | _ => True
  end.

Definition locs_ok (s : RenderService.t) : Prop :=
  (∀ loc, RenderService.bundleLocation s = Some loc →
          ∃ p, RenderService.builds s !! p = Some (Fulfilled loc))
  ∧ Forall (loc_ok (RenderService.builds s)) (RenderService.tasks s).

(** * Properties *)

(** ** JavaScript helpers *)

Section Js_facts.

Lemma or_number_nonzero (a : option Z) (b : Z) : b ≠ 0 → Js.or_number a b ≠ 0.
Proof.
  intros Hb. unfold Js.or_number.
  destruct a as [v|]; [|done].
  destruct (Z.eqb_spec v 0); done.
Qed.

Lemma remove_first_notin (x : nat) (l : list nat) :
  x ∉ l → Js.remove_first x l = l.
Proof.
  induction l as [|y l IH]; simpl; [done|].
  intros Hx. apply not_elem_of_cons in Hx as [Hxy Hxl].
  destruct (decide (x = y)); [done|]. by rewrite IH.
Qed.

Lemma remove_first_perm (x : nat) (l : list nat) :
  x ∈ l → x :: Js.remove_first x l ≡ₚ l.
Proof.
  induction l as [|y l IH]; simpl.
  - intros Hx. by apply elem_of_nil in Hx.
  - intros Hx. destruct (decide (x = y)) as [->|Hne]; [done|].
    apply elem_of_cons in Hx as [Hx|Hx]; [done|].
    rewrite Permutation_swap. by rewrite IH.
Qed.

Lemma remove_first_snoc_notin (x : nat) (l : list nat) :
  x ∉ l → Js.remove_first x (l ++ [x]) = l.
Proof.
  induction l as [|y l IH]; simpl.
  - intros _. by rewrite decide_True.
  - intros Hx. apply not_elem_of_cons in Hx as [Hxy Hxl].
    rewrite decide_False by done. by rewrite IH.
Qed.

Lemma lt_true (a b : Q) : Js.lt a b = true ↔ (a < b)%Q.
Proof.
  unfold Js.lt. rewrite Qlt_alt. destruct (a ?= b)%Q; split; intros H; done.
Qed.

Lemma lt_false (a b : Q) : Js.lt a b = false ↔ (b <= a)%Q.
Proof.
  rewrite <- not_true_iff_false, lt_true. split; [apply Qnot_lt_le|apply Qle_not_lt].
Qed.

(** [concurrency || 2] keeps a non-zero number and replaces zero. *)
Lemma or_fraction_positive (a : Q) :
  (0 <= a)%Q → (0 < Js.or_fraction (Some a) 2)%Q.
Proof.
  intros Ha. unfold Js.or_fraction. destruct (Qeq_bool a 0) eqn:Hz; [done|].
  apply Qeq_bool_neq in Hz. apply Qle_lteq in Ha as [Hlt|Heq]; [done|].
  destruct Hz. by symmetry.
Qed.

Lemma or_fraction_negative (a : Q) :
  (a < 0)%Q → Js.or_fraction (Some a) 2 = a.
Proof.
  intros Ha. unfold Js.or_fraction. destruct (Qeq_bool a 0) eqn:Hz; [|done].
  apply Qeq_bool_eq in Hz. rewrite Hz in Ha. by apply Qlt_irrefl in Ha.
Qed.

Lemma inject_size_le (n m : nat) :
  (n ≤ m)%nat → (inject_Z (Z.of_nat n) <= inject_Z (Z.of_nat m))%Q.
Proof. intros Hle. rewrite <- Zle_Qle. lia. Qed.

End Js_facts.

(** ** The queue: arrival order and listeners *)

Section RenderQueue_facts.

Import RenderQueue.

Lemma add_queue (job : RenderJob.t) (q : t) :
  queue (add job q) = queue q ++ [RenderJob.id job].
Proof. reflexivity. Qed.

Lemma add_get (job : RenderJob.t) (q : t) :
  get (RenderJob.id job) (add job q) = Some job.
Proof. unfold get, add; simpl. apply lookup_insert_eq. Qed.

Lemma add_get_ne (job : RenderJob.t) (q : t) (jobId : string) :
  jobId ≠ RenderJob.id job → get jobId (add job q) = get jobId q.
Proof. intros Hne. unfold get, add; simpl. by rewrite lookup_insert_ne. Qed.

(** [dequeue] on a non-empty pending list whose head is a real id. *)
Lemma dequeue_oldest (q : t) (jobId : string) (rest : list string) :
  queue q = jobId :: rest →
  Js.truthy_string jobId = true →
  queue (dequeue q).1 = rest
  ∧ processing (dequeue q).1 = {[jobId]} ∪ processing q
  ∧ jobs (dequeue q).1 = jobs q
  ∧ (dequeue q).2 = get jobId q.
Proof.
  intros Hq Hid. unfold dequeue. rewrite Hq, Hid. done.
Qed.

Lemma dequeue_empty (q : t) : queue q = [] → dequeue q = (q, None).
Proof. intros Hq. unfold dequeue. by rewrite Hq. Qed.

Lemma add_all_queue (batch : list RenderJob.t) (q : t) :
  queue (add_all batch q) = queue q ++ map RenderJob.id batch.
Proof.
  revert q. induction batch as [|job batch IH]; intros q; simpl.
  - by rewrite app_nil_r.
  - rewrite IH, add_queue. by rewrite <- app_assoc.
Qed.

Lemma add_all_processing (batch : list RenderJob.t) (q : t) :
  processing (add_all batch q) = processing q.
Proof.
  revert q. induction batch as [|job batch IH]; intros q; simpl; [done|].
  by rewrite IH.
Qed.

Lemma add_all_get_other (batch : list RenderJob.t) (q : t) (jobId : string) :
  jobId ∉ map RenderJob.id batch → get jobId (add_all batch q) = get jobId q.
Proof.
  revert q. induction batch as [|job batch IH]; intros q Hnotin; simpl; [done|].
  simpl in Hnotin. apply not_elem_of_cons in Hnotin as [Hne Hnotin].
  rewrite IH by done. by apply add_get_ne.
Qed.

Lemma add_all_get (batch : list RenderJob.t) (q : t) (job : RenderJob.t) :
  NoDup (map RenderJob.id batch) →
  job ∈ batch →
  get (RenderJob.id job) (add_all batch q) = Some job.
Proof.
  revert q. induction batch as [|job' batch IH]; intros q Hnd Hin; simpl.
  - by apply elem_of_nil in Hin.
  - simpl in Hnd. apply NoDup_cons in Hnd as [Hfresh Hnd].
    apply elem_of_cons in Hin as [->|Hin].
    + rewrite add_all_get_other by done. apply add_get.
    + by apply IH.
Qed.

Lemma dequeue_n_prefix (k : nat) (batch : list RenderJob.t) (q : t) :
  queue q = map RenderJob.id batch →
  Forall (fun job => Js.truthy_string (RenderJob.id job) = true) batch →
  (∀ job, job ∈ batch → get (RenderJob.id job) q = Some job) →
  (k ≤ length batch)%nat →
  (dequeue_n k q).2 = map Some (take k batch)
  ∧ queue (dequeue_n k q).1 = map RenderJob.id (drop k batch)
  ∧ processing (dequeue_n k q).1
    = list_to_set (map RenderJob.id (take k batch)) ∪ processing q.
Proof.
  revert batch q. induction k as [|k IH]; intros batch q Hq Hids Hjobs Hk.
  - simpl. rewrite drop_0. split; [done|]. split; [done|]. set_solver.
  - destruct batch as [|job batch]; simpl in Hk; [lia|].
    simpl in Hq. apply Forall_cons in Hids as [Hid Hids].
    destruct (dequeue_oldest q _ _ Hq Hid) as (Hq1 & Hp1 & Hj1 & Hr1).
    simpl. destruct (dequeue q) as [q1 r1]; simpl in *.
    destruct (IH batch q1) as (Hr & Hq2 & Hp2); [done|done| |lia|].
    { intros job' Hin. unfold get. rewrite Hj1. apply Hjobs. by right. }
    destruct (dequeue_n k q1) as [q2 started]; simpl in *.
    split; [|split; [done|]].
    + rewrite Hr1, Hr. f_equal. apply Hjobs. by left.
    + rewrite Hp2, Hp1. set_solver.
Qed.

(** Listener lists. *)

Lemma listeners_of_subscribe (jobId : string) (cb : ProgressCallback) (q : t) :
  listeners_of jobId (subscribe jobId cb q) = listeners_of jobId q ++ [cb].
Proof. unfold listeners_of, subscribe; simpl. by rewrite lookup_insert_eq. Qed.

Lemma listeners_of_unsubscribe (jobId : string) (cb : ProgressCallback) (q : t) :
  listeners_of jobId (unsubscribe jobId cb q)
  = Js.remove_first cb (listeners_of jobId q).
Proof.
  unfold listeners_of, unsubscribe.
  destruct (listeners q !! jobId) as [ls|] eqn:Hls.
  - simpl. by rewrite lookup_insert_eq.
  - by rewrite Hls.
Qed.

Lemma listeners_of_subscribe_ne (jobId other : string) (cb : ProgressCallback) (q : t) :
  other ≠ jobId → listeners_of other (subscribe jobId cb q) = listeners_of other q.
Proof.
  intros Hne. unfold listeners_of, subscribe; simpl. by rewrite lookup_insert_ne.
Qed.

Lemma listeners_of_unsubscribe_ne (jobId other : string) (cb : ProgressCallback) (q : t) :
  other ≠ jobId → listeners_of other (unsubscribe jobId cb q) = listeners_of other q.
Proof.
  intros Hne. unfold listeners_of, unsubscribe.
  destruct (listeners q !! jobId) as [ls|]; [|done].
  simpl. by rewrite lookup_insert_ne.
Qed.

(** Without a registration of [cb], the returned closure changes nothing. *)
Lemma unsubscribe_absent (jobId : string) (cb : ProgressCallback) (q : t) :
  cb ∉ listeners_of jobId q → unsubscribe jobId cb q = q.
Proof.
  unfold listeners_of, unsubscribe. intros Hnotin.
  destruct (listeners q !! jobId) as [ls|] eqn:Hls; [|done].
  simpl in Hnotin. rewrite remove_first_notin by done.
  rewrite insert_id by done. by destruct q.
Qed.

(** The calls [update] makes are those of the listener list, in order. *)
Lemma update_delivered (jobId : string) (u : RenderJob.partial) (q : t)
    (job : RenderJob.t) :
  jobs q !! jobId = Some job →
  delivered (update jobId u q)
  = delivered q
    ++ map (fun cb =>
              (cb, {| jobId := RenderJob.id job;
                      p_status := RenderJob.status (RenderJob.assign job u);
                      p_progress := RenderJob.progress (RenderJob.assign job u) |}))
           (listeners_of (RenderJob.id job) q).
Proof. intros Hjob. unfold update. rewrite Hjob. reflexivity. Qed.

End RenderQueue_facts.

(** C8, as stated, fails in the configuration it names.  The closure
    does not remember that it has run: with the same callback subscribed
    twice, the first call removes one registration and a second call of
    the same closure is not a no-op, it removes the second subscription as
    well, so that the callback misses the next [update]. *)
Lemma unsubscribe_twice_removes_both :
  let q :=
    RenderQueue.subscribe "a3f1c2d4-0001" 7%nat
      (RenderQueue.subscribe "a3f1c2d4-0001" 7%nat
         (RenderQueue.add Sample.A (RenderQueue.new 2))) in
  let once := RenderQueue.unsubscribe "a3f1c2d4-0001" 7%nat q in
  let again := RenderQueue.unsubscribe "a3f1c2d4-0001" 7%nat once in
  RenderJob.id Sample.A = "a3f1c2d4-0001"
  ∧ RenderQueue.listeners_of "a3f1c2d4-0001" q = [7%nat; 7%nat]
  ∧ RenderQueue.listeners_of "a3f1c2d4-0001" once = [7%nat]
  ∧ RenderQueue.listeners_of "a3f1c2d4-0001" again = []
  ∧ again ≠ once
  ∧ RenderQueue.delivered
      (RenderQueue.update "a3f1c2d4-0001" (RenderService.bundling_update 1) again) = [].
Proof.
  vm_compute. repeat split; try reflexivity. intros Heq. discriminate Heq.
Qed.

(** C8 (amended). Each call of the closure returned by
    [subscribe(jobId, cb)] removes the first registration of [cb] that the
    job's listener list still holds, exactly one when there is one, and
    touches no other list.  A call is a no-op exactly when no registration
    of [cb] is left.  Subscribing and unsubscribing before the next
    [update] yields the notifications of the queue as it was.  After
    subscribing the same callback twice and unsubscribing once, one
    registration remains and receives the next [update]; calling the same
    closure once more removes that one too. *)
Theorem subscribe_unsubscribe (q : RenderQueue.t) (jobId : string)
    (cb : ProgressCallback) :
  let once := RenderQueue.unsubscribe jobId cb (RenderQueue.subscribe jobId cb q) in
  let twice :=
    RenderQueue.unsubscribe jobId cb
      (RenderQueue.subscribe jobId cb (RenderQueue.subscribe jobId cb q)) in
  (∀ q', RenderQueue.listeners_of jobId (RenderQueue.unsubscribe jobId cb q')
         = Js.remove_first cb (RenderQueue.listeners_of jobId q'))
  ∧ (∀ q', cb ∈ RenderQueue.listeners_of jobId q' →
       cb :: RenderQueue.listeners_of jobId (RenderQueue.unsubscribe jobId cb q')
       ≡ₚ RenderQueue.listeners_of jobId q')
  ∧ (∀ q', RenderQueue.unsubscribe jobId cb q' = q'
           ↔ cb ∉ RenderQueue.listeners_of jobId q')
  ∧ (∀ q' other, other ≠ jobId →
       RenderQueue.listeners_of other (RenderQueue.unsubscribe jobId cb q')
       = RenderQueue.listeners_of other q')
  ∧ RenderQueue.listeners_of jobId once ≡ₚ RenderQueue.listeners_of jobId q
  ∧ (∀ other, other ≠ jobId →
       RenderQueue.listeners_of other once = RenderQueue.listeners_of other q)
  ∧ (∀ u, RenderQueue.delivered (RenderQueue.update jobId u once)
          ≡ₚ RenderQueue.delivered (RenderQueue.update jobId u q))
  ∧ RenderQueue.listeners_of jobId twice ≡ₚ cb :: RenderQueue.listeners_of jobId q
  ∧ cb ∈ RenderQueue.listeners_of jobId twice
  ∧ (∀ job u, RenderQueue.jobs twice !! jobId = Some job →
       RenderJob.id job = jobId →
       ∃ snapshot,
         (cb, snapshot) ∈ RenderQueue.delivered (RenderQueue.update jobId u twice)
         ∧ p_status snapshot = RenderJob.status (RenderJob.assign job u))
  ∧ RenderQueue.listeners_of jobId (RenderQueue.unsubscribe jobId cb twice)
    ≡ₚ RenderQueue.listeners_of jobId q.
Proof.
  intros once twice.
  assert (Hone : ∀ q', cb ∈ RenderQueue.listeners_of jobId q' →
            cb :: RenderQueue.listeners_of jobId (RenderQueue.unsubscribe jobId cb q')
            ≡ₚ RenderQueue.listeners_of jobId q').
  { intros q' Hin. rewrite listeners_of_unsubscribe. by apply remove_first_perm. }
  assert (Honce : RenderQueue.listeners_of jobId once
                  ≡ₚ RenderQueue.listeners_of jobId q).
  { apply (Permutation_cons_inv (a := cb)). unfold once. rewrite Hone.
    - by rewrite listeners_of_subscribe, <- Permutation_cons_append.
    - rewrite listeners_of_subscribe. set_solver. }
  assert (Hother : ∀ other, other ≠ jobId →
            RenderQueue.listeners_of other once = RenderQueue.listeners_of other q).
  { intros other Hne. unfold once.
    by rewrite listeners_of_unsubscribe_ne, listeners_of_subscribe_ne. }
  assert (Hperm2 : RenderQueue.listeners_of jobId twice
                   ≡ₚ cb :: RenderQueue.listeners_of jobId q).
  { apply (Permutation_cons_inv (a := cb)). unfold twice. rewrite Hone.
    - by rewrite !listeners_of_subscribe, <- !Permutation_cons_append.
    - rewrite !listeners_of_subscribe. set_solver. }
  assert (Hin2 : cb ∈ RenderQueue.listeners_of jobId twice).
  { rewrite Hperm2. by left. }
  split; [intros q'; apply listeners_of_unsubscribe|].
  split; [exact Hone|].
  split.
  { intros q'. split; [|apply unsubscribe_absent].
    intros Hsame Hin. apply Hone, Permutation_length in Hin.
    rewrite Hsame in Hin. simpl in Hin. lia. }
  split; [intros q' other Hne; by apply listeners_of_unsubscribe_ne|].
  split; [exact Honce|]. split; [exact Hother|].
  split.
  { intros u.
    assert (Hjobs : RenderQueue.jobs once = RenderQueue.jobs q).
    { unfold once, RenderQueue.unsubscribe.
      by destruct (RenderQueue.listeners _ !! jobId). }
    assert (Hdel : RenderQueue.delivered once = RenderQueue.delivered q).
    { unfold once, RenderQueue.unsubscribe.
      by destruct (RenderQueue.listeners _ !! jobId). }
    destruct (RenderQueue.jobs q !! jobId) as [job|] eqn:Hjob.
    - rewrite (update_delivered jobId u q job Hjob).
      rewrite <- Hjobs in Hjob. rewrite (update_delivered jobId u once job Hjob).
      rewrite Hdel. apply Permutation_app_head, Permutation_map.
      destruct (decide (RenderJob.id job = jobId)) as [->|Hne];
        [exact Honce|by rewrite Hother].
    - unfold RenderQueue.update. by rewrite Hjobs, Hjob, Hdel. }
  split; [exact Hperm2|]. split; [exact Hin2|].
  split.
  { intros job u Hjob Hid. eexists. split.
    - rewrite (update_delivered _ _ _ _ Hjob). apply elem_of_app. right.
      rewrite Hid. apply list_elem_of_fmap. exists cb. split; [reflexivity|done].
    - reflexivity. }
  apply (Permutation_cons_inv (a := cb)). by rewrite (Hone twice Hin2).
Qed.

Lemma subscribe_unsubscribe_witness :
  let q := RenderQueue.add Sample.A (RenderQueue.new 2) in
  let jobId := RenderJob.id Sample.A in
  let once := RenderQueue.unsubscribe jobId 7%nat (RenderQueue.subscribe jobId 7%nat q) in
  RenderQueue.unsubscribe jobId 7%nat once = once.
Proof.
  intros q jobId once.
  destruct (subscribe_unsubscribe q jobId 7%nat) as (_ & _ & Hnoop & _).
  apply Hnoop. vm_compute. intros Hin. by apply elem_of_nil in Hin.
Defined.

(** ** Creating a job *)

Section createJob_facts.

Import RenderService.

Lemma COMPOSITIONS_EventPromo :
  Compositions.COMPOSITIONS !! "EventPromo" = Some Sample.EventPromo_meta.
Proof. vm_compute. reflexivity. Qed.

(** Every registered composition has a non-zero default duration. *)
Lemma COMPOSITIONS_defaultDuration (compositionId : string)
    (composition : Compositions.Meta) :
  Compositions.COMPOSITIONS !! compositionId = Some composition →
  Compositions.defaultDuration composition ≠ 0.
Proof.
  unfold Compositions.COMPOSITIONS. intros Hlookup.
  apply elem_of_list_to_map_2 in Hlookup.
  repeat (apply elem_of_cons in Hlookup as [Heq|Hlookup];
          [injection Heq as _ ->; done|]).
  by apply elem_of_nil in Hlookup.
Qed.

(** A registered composition is what the lookup finds under its key. *)
Lemma get_registered (key : string) (meta : Compositions.Meta) :
  Compositions.COMPOSITIONS !! key = Some meta →
  Compositions.get key = Some (Compositions.Registered meta).
Proof. intros Hkey. unfold Compositions.get. by rewrite Hkey. Qed.

Lemma or_undefined_Some (a : option Z) (b : Z) :
  Js.or_undefined a (Some b) = Some (Js.or_number a b).
Proof. unfold Js.or_undefined, Js.or_number. destruct a as [v|]; [|done]. by destruct (v =? 0). Qed.

Lemma createJob_known (input : RenderJobInput.t) (composition : Compositions.Found)
    (uuidFile uuidId : string) (now : Z) (s : t) :
  Compositions.get (RenderJobInput.compositionId input) = Some composition →
  createJob input uuidFile uuidId now s
  = (processQueue now
       (set_queue
          (RenderQueue.add (newJob (outputDir s) input composition uuidFile uuidId now)
             (queue s)) s),
     inr uuidId).
Proof. intros Hc. unfold createJob. by rewrite Hc. Qed.

(** Whatever the job, the values handed to the engine have a non-zero
    frame rate and a non-zero frame count. *)
Lemma renderParams_nonzero (job : RenderJob.t) :
  r_fps (renderParams job) ≠ 0 ∧ r_durationInFrames (renderParams job) ≠ 0.
Proof.
  unfold renderParams; simpl.
  pose proof (or_number_nonzero (RenderJob.fps job) 30) as Hfps.
  pose proof (or_number_nonzero (RenderJob.duration job) 10) as Hduration.
  split; [apply Hfps; done|]. apply Z.neq_mul_0. split; [apply Hduration|apply Hfps]; done.
Qed.

End createJob_facts.




(** ** Invariants of the queue carried by every operation *)

Section queue_invariant.

Import RenderService.

(** A property of the queue that each queue method keeps, [dequeue] being
    called under [canProcess()]. *)
Variable Q : RenderQueue.t → Prop.

Hypothesis Q_add : ∀ outputDir input composition uuidFile uuidId now q,
  Q q → Q (RenderQueue.add (newJob outputDir input composition uuidFile uuidId now) q).
Hypothesis Q_update : ∀ jobId u q,
  ServiceUpdate u → Q q → Q (RenderQueue.update jobId u q).
Hypothesis Q_dequeue : ∀ q,
  RenderQueue.canProcess q = true → Q q → Q (RenderQueue.dequeue q).1.
Hypothesis Q_complete : ∀ jobId q, Q q → Q (RenderQueue.complete jobId q).
Hypothesis Q_subscribe : ∀ jobId cb q, Q q → Q (RenderQueue.subscribe jobId cb q).
Hypothesis Q_unsubscribe : ∀ jobId cb q, Q q → Q (RenderQueue.unsubscribe jobId cb q).

Lemma getBundle_queue (s : t) : queue (getBundle s).1 = queue s.
Proof.
  unfold getBundle.
  destruct (Js.truthy (bundleLocation s)); [done|].
  by destruct (bundlePromise s).
Qed.

Lemma inv_processJob (job : RenderJob.t) (now : Z) (s : t) :
  Q (queue s) → Q (queue (processJob job now s)).
Proof.
  intros HQ. unfold processJob.
  pose proof (getBundle_queue (update (RenderJob.id job) (bundling_update now) s)) as Hg.
  destruct (getBundle _) as [s2 g]; simpl in *. rewrite Hg.
  apply Q_update; [constructor|done].
Qed.

Lemma inv_processQueue_loop (fuel : nat) (now : Z) (s : t) :
  Q (queue s) → Q (queue (processQueue_loop fuel now s)).
Proof.
  revert s. induction fuel as [|fuel IH]; intros s HQ; simpl; [done|].
  destruct (RenderQueue.canProcess (queue s)) eqn:Hcan; [|done].
  pose proof (Q_dequeue _ Hcan HQ) as HQ'.
  destruct (RenderQueue.dequeue (queue s)) as [q' [job|]]; simpl in *; [|done].
  apply IH. by apply inv_processJob.
Qed.

Lemma inv_processQueue (now : Z) (s : t) :
  Q (queue s) → Q (queue (processQueue now s)).
Proof.
  intros HQ. unfold processQueue. destruct (isProcessing s); [done|].
  simpl. by apply inv_processQueue_loop.
Qed.

Lemma inv_finish (i : nat) (job : RenderJob.t) (outcome : Result) (now : Z) (s : t) :
  Q (queue s) → Q (queue (finish i job outcome now s)).
Proof.
  intros HQ. unfold finish. apply inv_processQueue. simpl. by apply Q_complete.
Qed.

Lemma inv_fail (i : nat) (job : RenderJob.t) (message : string) (now : Z) (s : t) :
  Q (queue s) → Q (queue (fail i job message now s)).
Proof.
  intros HQ. unfold fail. apply inv_finish. simpl. apply Q_update; [constructor|done].
Qed.

Lemma inv_createJob (input : RenderJobInput.t) (uuidFile uuidId : string) (now : Z)
    (s : t) :
  Q (queue s) → Q (queue (createJob input uuidFile uuidId now s).1).
Proof.
  intros HQ. unfold createJob.
  destruct (Compositions.get _) as [composition|]; simpl; [|done].
  apply inv_processQueue. simpl. by apply Q_add.
Qed.

Lemma inv_step (s s' : t) (e : Event) :
  Q (queue s) → step s e = Some s' → Q (queue s').
Proof.
  intros HQ Hstep. destruct e; simpl in Hstep.
  - injection Hstep as <-. by apply inv_createJob.
  - by injection Hstep as <-.
  - unfold settle_build in Hstep.
    destruct r; [done| |];
      (destruct (builds s !! p) as [[]|]; [|done..]; by injection Hstep as <-).
  - destruct (tasks s !! i) as [[job []]|]; try done.
    destruct (awaited s g) as [|loc|message]; [done| |].
    + injection Hstep as <-. simpl. apply Q_update; [constructor|].
      by destruct g.
    + injection Hstep as <-. by apply inv_fail.
  - destruct (tasks s !! i) as [[job []]|]; try done.
    destruct r; injection Hstep as <-; [done|by apply inv_fail].
  - destruct (tasks s !! i) as [[job []]|]; try done.
    injection Hstep as <-. simpl. apply Q_update; [constructor|done].
  - destruct (tasks s !! i) as [[job []]|]; try done.
    destruct r; injection Hstep as <-; [done|by apply inv_fail].
  - destruct (tasks s !! i) as [[job []]|]; try done.
    injection Hstep as <-. apply inv_finish. simpl.
    apply Q_update; [constructor|done].
  - injection Hstep as <-. simpl. by apply Q_subscribe.
  - injection Hstep as <-. simpl. by apply Q_unsubscribe.
Qed.

Lemma inv_reaches (s0 s : t) :
  Q (queue s0) → reaches guarded s0 s → Q (queue s).
Proof.
  intros HQ Hreach. induction Hreach as [|s s' op Hreach IH Hallowed Happly]; [done|].
  destruct op; simpl in Happly, Hallowed.
  - by eapply inv_step.
  - injection Happly as <-. by apply inv_processQueue.
  - injection Happly as <-. simpl. by apply Q_dequeue.
  - injection Happly as <-. simpl. by apply Q_complete.
Qed.

End queue_invariant.

(** ** The concurrency cap *)

Section concurrency_cap.

Import RenderService.

Lemma cap_update (jobId : string) (u : RenderJob.partial) (q : RenderQueue.t) :
  cap_ok q → cap_ok (RenderQueue.update jobId u q).
Proof.
  unfold cap_ok, RenderQueue.update. by destruct (RenderQueue.jobs q !! jobId).
Qed.

Lemma cap_unsubscribe (jobId : string) (cb : ProgressCallback) (q : RenderQueue.t) :
  cap_ok q → cap_ok (RenderQueue.unsubscribe jobId cb q).
Proof.
  unfold cap_ok, RenderQueue.unsubscribe.
  by destruct (RenderQueue.listeners q !! jobId).
Qed.

Lemma cap_complete (jobId : string) (q : RenderQueue.t) :
  cap_ok q → cap_ok (RenderQueue.complete jobId q).
Proof.
  unfold cap_ok; simpl. intros Hcap.
  eapply Qle_lt_trans; [|exact Hcap].
  apply inject_size_le, subseteq_size. set_solver.
Qed.

(** The admission gate: a free slot is required, one id is added. *)
Lemma cap_dequeue (q : RenderQueue.t) :
  RenderQueue.canProcess q = true → cap_ok q → cap_ok (RenderQueue.dequeue q).1.
Proof.
  unfold cap_ok, RenderQueue.canProcess, RenderQueue.dequeue.
  intros Hcan Hcap. apply andb_true_iff in Hcan as [Hfree _].
  apply lt_true in Hfree.
  destruct (RenderQueue.queue q) as [|jobId rest]; [done|].
  destruct (Js.truthy_string jobId); simpl; [|done].
  assert (Hsize : (size ({[jobId]} ∪ RenderQueue.processing q)
                   ≤ S (size (RenderQueue.processing q)))%nat).
  { rewrite size_union_alt, size_singleton.
    assert (size (RenderQueue.processing q ∖ {[jobId]})
            ≤ size (RenderQueue.processing q))%nat
      by (apply subseteq_size; set_solver).
    lia. }
  eapply Qle_lt_trans; [apply inject_size_le, Hsize|].
  rewrite Nat2Z.inj_succ, <- Z.add_1_r, inject_Z_plus.
  change (inject_Z 1) with 1%Q. lra.
Qed.

(** The cap is kept by every operation, [dequeue] being guarded. *)
Lemma cap_reaches (s0 s : t) :
  cap_ok (queue s0) → reaches guarded s0 s → cap_ok (queue s).
Proof.
  apply (inv_reaches cap_ok); auto using cap_update, cap_dequeue, cap_complete,
    cap_unsubscribe.
Qed.

Lemma cap_new (outputDir : option string) (concurrency : option Q) :
  (0 <= default 4 concurrency)%Q → cap_ok (queue (new outputDir concurrency)).
Proof.
  intros Hc. unfold cap_ok.
  change (RenderQueue.processing (queue (new outputDir concurrency)))
    with (∅ : gset string).
  rewrite size_empty.
  change (RenderQueue.maxConcurrent (queue (new outputDir concurrency)))
    with (Js.or_fraction (Some (default 4%Q concurrency)) 2).
  pose proof (or_fraction_positive _ Hc) as Hpos.
  change (inject_Z (Z.of_nat 0)) with 0%Q. lra.
Qed.

Lemma maxConcurrent_reaches (s0 s : t) :
  reaches guarded s0 s →
  RenderQueue.maxConcurrent (queue s) = RenderQueue.maxConcurrent (queue s0).
Proof.
  apply (inv_reaches (same_cap (RenderQueue.maxConcurrent (queue s0))));
    unfold same_cap; try done.
  - intros jobId u q _. unfold RenderQueue.update.
    by destruct (RenderQueue.jobs q !! jobId).
  - intros q _. unfold RenderQueue.dequeue.
    destruct (RenderQueue.queue q) as [|jobId rest]; [done|].
    by destruct (Js.truthy_string jobId).
  - intros jobId cb q. unfold RenderQueue.unsubscribe.
    by destruct (RenderQueue.listeners q !! jobId).
Qed.

End concurrency_cap.

(** C2, as stated, fails.  [dequeue] itself does not look at the cap: with
    [maxConcurrent = 1], two accepted requests followed by a direct call of
    [dequeue] leave two ids in the processing set.  The constructor
    accepts a negative concurrency, which the empty processing set already
    exceeds.  And it accepts a fraction: with a concurrency of 1.5 the test
    [size < maxConcurrent] of [canProcess()] still holds at size 1, so two
    requests alone put two ids in the processing set. *)
Lemma cap_exceeded :
  (∃ s,
     RenderService.reaches RenderService.unrestricted
       (RenderService.new None (Some 1%Q)) s
     ∧ RenderQueue.maxConcurrent (RenderService.queue s) = 1%Q
     ∧ size (RenderQueue.processing (RenderService.queue s)) = 2%nat
     ∧ ¬ (inject_Z (Z.of_nat (size (RenderQueue.processing (RenderService.queue s))))
          <= RenderQueue.maxConcurrent (RenderService.queue s))%Q)
  ∧ (let s := RenderService.new None (Some (-1 # 1)%Q) in
     RenderQueue.maxConcurrent (RenderService.queue s) = (-1 # 1)%Q
     ∧ ¬ (inject_Z (Z.of_nat (size (RenderQueue.processing (RenderService.queue s))))
          <= RenderQueue.maxConcurrent (RenderService.queue s))%Q)
  ∧ (∃ s,
       RenderService.reaches RenderService.guarded
         (RenderService.new None (Some (3 # 2)%Q)) s
       ∧ RenderQueue.maxConcurrent (RenderService.queue s) = (3 # 2)%Q
       ∧ size (RenderQueue.processing (RenderService.queue s)) = 2%nat
       ∧ ¬ (inject_Z (Z.of_nat (size (RenderQueue.processing (RenderService.queue s))))
            <= RenderQueue.maxConcurrent (RenderService.queue s))%Q).
Proof.
  split; [|split].
  - eexists. split.
    { eapply RenderService.reaches_step with (op := RenderService.OpDequeue);
        [|exact I|reflexivity].
      eapply RenderService.reaches_step
        with (op := RenderService.OpEvent
                      (RenderService.CreateJob (Sample.request "Alert")
                         "b7e2d9a0-0002" "b7e2d9a0-0002" 2));
        [|exact I|reflexivity].
      eapply RenderService.reaches_step
        with (op := RenderService.OpEvent
                      (RenderService.CreateJob (Sample.request "EventPromo")
                         "a3f1c2d4-0001" "a3f1c2d4-0001" 1));
        [|exact I|reflexivity].
      apply RenderService.reaches_refl. }
    vm_compute. repeat split; try reflexivity. intros Hle. apply Hle. reflexivity.
  - vm_compute. split; [reflexivity|]. intros Hle. apply Hle. reflexivity.
  - eexists. split.
    { eapply RenderService.reaches_step
        with (op := RenderService.OpEvent
                      (RenderService.CreateJob (Sample.request "Alert")
                         "b7e2d9a0-0002" "b7e2d9a0-0002" 2));
        [|exact I|reflexivity].
      eapply RenderService.reaches_step
        with (op := RenderService.OpEvent
                      (RenderService.CreateJob (Sample.request "EventPromo")
                         "a3f1c2d4-0001" "a3f1c2d4-0001" 1));
        [|exact I|reflexivity].
      apply RenderService.reaches_refl. }
    vm_compute. repeat split; try reflexivity. intros Hle. apply Hle. reflexivity.
Qed.

(** C2 (amended). With a non-negative configured concurrency, in every state
    reached by any sequence of [createJob] and the other service events,
    [processQueue], [complete], and [dequeue] called under [canProcess()]
    as [processQueue] does, the size of the processing set stays below
    [maxConcurrent + 1], [maxConcurrent] being the value the queue was
    built with: the set never holds more than [maxConcurrent] ids when the
    concurrency is a whole number, and it exceeds a fractional one by less
    than one job. *)
Theorem processing_within_cap (outputDir : option string) (concurrency : option Q)
    (s : RenderService.t) :
  (0 <= default 4 concurrency)%Q →
  RenderService.reaches RenderService.guarded
    (RenderService.new outputDir concurrency) s →
  (inject_Z (Z.of_nat (size (RenderQueue.processing (RenderService.queue s))))
   < RenderQueue.maxConcurrent (RenderService.queue s) + 1)%Q
  ∧ RenderQueue.maxConcurrent (RenderService.queue s)
    = Js.or_fraction (Some (default 4%Q concurrency)) 2
  ∧ (∀ whole : Z,
       (RenderQueue.maxConcurrent (RenderService.queue s) == inject_Z whole)%Q →
       Z.of_nat (size (RenderQueue.processing (RenderService.queue s))) ≤ whole).
Proof.
  intros Hc Hreach.
  assert (Hcap : cap_ok (RenderService.queue s))
    by (eapply cap_reaches; [|done]; by apply cap_new).
  split; [exact Hcap|]. split.
  - by rewrite (maxConcurrent_reaches _ _ Hreach).
  - intros whole Hwhole. unfold cap_ok in Hcap. rewrite Hwhole in Hcap.
    change 1%Q with (inject_Z 1) in Hcap.
    rewrite <- inject_Z_plus, <- Zlt_Qlt in Hcap. lia.
Qed.

Lemma processing_within_cap_witness :
  let s :=
    (RenderService.createJob (Sample.request "EventPromo")
       "a3f1c2d4-0001" "a3f1c2d4-0001" 1 (RenderService.new None (Some 1%Q))).1 in
  Z.of_nat (size (RenderQueue.processing (RenderService.queue s))) ≤ 1.
Proof.
  intros s.
  refine (proj2 (proj2 (processing_within_cap None (Some 1%Q) s _ _)) 1 _).
  - vm_compute. discriminate.
  - eapply RenderService.reaches_step
      with (op := RenderService.OpEvent
                    (RenderService.CreateJob (Sample.request "EventPromo")
                       "a3f1c2d4-0001" "a3f1c2d4-0001" 1));
      [apply RenderService.reaches_refl|exact I|reflexivity].
  - vm_compute. reflexivity.
Defined.

(** ** Progress and status *)

Section progress_status.

Import RenderService.

Lemma assign_completed (job : RenderJob.t) (u : RenderJob.partial) :
  ServiceUpdate u →
  full_when_completed (RenderJob.status job) (RenderJob.progress job) →
  full_when_completed (RenderJob.status (RenderJob.assign job u))
    (RenderJob.progress (RenderJob.assign job u)).
Proof.
  unfold full_when_completed.
  intros [now| |progress encodedFrames|thumbnail now|message now] Hjob; simpl; try done.
  by destruct (0 <? encodedFrames).
Qed.

Lemma completed_ok_update (jobId : string) (u : RenderJob.partial) (q : RenderQueue.t) :
  ServiceUpdate u → completed_ok q → completed_ok (RenderQueue.update jobId u q).
Proof.
  intros Hu [Hjobs Hdelivered]. unfold RenderQueue.update.
  destruct (RenderQueue.jobs q !! jobId) as [job|] eqn:Hjob; [|done].
  pose proof (assign_completed job u Hu (Hjobs _ _ Hjob)) as Hnew.
  split; simpl.
  - intros jobId' job' Hlookup.
    destruct (decide (jobId = jobId')) as [<-|Hne].
    + rewrite lookup_insert_eq in Hlookup. by injection Hlookup as <-.
    + rewrite lookup_insert_ne in Hlookup by done. by eapply Hjobs.
  - intros cb snapshot Hin. apply elem_of_app in Hin as [Hin|Hin].
    + by eapply Hdelivered.
    + apply list_elem_of_fmap in Hin as (cb' & Hpair & _).
      by injection Hpair as _ ->.
Qed.

Lemma completed_ok_add outputDir input composition uuidFile uuidId now (q : RenderQueue.t) :
  completed_ok q →
  completed_ok
    (RenderQueue.add (newJob outputDir input composition uuidFile uuidId now) q).
Proof.
  intros [Hjobs Hdelivered]. split; simpl; [|done].
  intros jobId job Hlookup.
  destruct (decide (uuidId = jobId)) as [<-|Hne].
  - rewrite lookup_insert_eq in Hlookup. by injection Hlookup as <-.
  - rewrite lookup_insert_ne in Hlookup by done. by eapply Hjobs.
Qed.

Lemma completed_ok_reaches (s0 s : t) :
  completed_ok (queue s0) → reaches guarded s0 s → completed_ok (queue s).
Proof.
  apply (inv_reaches completed_ok);
    auto using completed_ok_update, completed_ok_add.
  - intros q _. unfold RenderQueue.dequeue.
    destruct (RenderQueue.queue q) as [|jobId rest]; [done|].
    by destruct (Js.truthy_string jobId).
  - intros jobId cb q. unfold RenderQueue.unsubscribe.
    by destruct (RenderQueue.listeners q !! jobId).
Qed.

Lemma completed_ok_new (outputDir : option string) (concurrency : option Q) :
  completed_ok (queue (new outputDir concurrency)).
Proof.
  split; simpl.
  - intros jobId job Hlookup. by rewrite lookup_empty in Hlookup.
  - intros cb snapshot Hin. by apply elem_of_nil in Hin.
Qed.

(** A run of the event loop is a sequence of guarded operations. *)
Lemma run_reaches (events : list Event) (s0 s : t) :
  run s0 events = Some s → reaches guarded s0 s.
Proof.
  revert s. induction events as [|e events IH] using rev_ind; intros s Hrun.
  - injection Hrun as <-. constructor.
  - assert (Hsplit : ∃ s1, run s0 events = Some s1 ∧ step s1 e = Some s).
    { clear IH. revert s0 Hrun. induction events as [|e' events IH]; intros s0 Hrun.
      - simpl in Hrun. exists s0. split; [done|]. by destruct (step s0 e).
      - simpl in *. destruct (step s0 e'); [by apply IH|done]. }
    destruct Hsplit as (s1 & Hrun1 & Hstep).
    eapply reaches_step with (op := OpEvent e); [by apply IH|exact I|done].
Qed.

End progress_status.

(** C5, as stated, fails in the direction from progress 100 to status
    completed: when the engine's progress callback reports the fraction 1,
    the job has progress 100 while its status is still [encoding]. *)
Lemma progress_full_before_completed :
  ∃ s job,
    after_full_progress = Some s
    ∧ RenderService.getJob "a3f1c2d4-0001" s = Some job
    ∧ RenderJob.progress job = 100
    ∧ RenderJob.status job = encoding
    ∧ ¬ (RenderJob.progress job = 100 ↔ RenderJob.status job = completed).
Proof.
  eexists. eexists. split; [vm_compute; reflexivity|].
  split; [vm_compute; reflexivity|].
  split; [reflexivity|]. split; [reflexivity|].
  simpl. intros [Hiff _]. by specialize (Hiff eq_refl).
Qed.

(** C5 (amended). In every reachable state, a job whose status is
    [completed] has progress 100, and so has every snapshot that was handed
    to a listener.  (The converse is not claimed: progress is 100 as soon
    as the engine reports a fraction that rounds to 100.) *)
Theorem completed_implies_full_progress (outputDir : option string)
    (concurrency : option Q) (s : RenderService.t) :
  RenderService.reaches RenderService.guarded
    (RenderService.new outputDir concurrency) s →
  (∀ jobId job, RenderService.getJob jobId s = Some job →
     RenderJob.status job = completed → RenderJob.progress job = 100)
  ∧ (∀ cb snapshot,
       (cb, snapshot) ∈ RenderQueue.delivered (RenderService.queue s) →
       p_status snapshot = completed → p_progress snapshot = 100).
Proof.
  intros Hreach.
  apply (completed_ok_reaches _ _ (completed_ok_new outputDir concurrency) Hreach).
Qed.

Lemma completed_implies_full_progress_witness :
  ∃ s job,
    after_thumbnail_failure = Some s
    ∧ RenderService.getJob "a3f1c2d4-0001" s = Some job
    ∧ RenderJob.status job = completed
    ∧ RenderJob.progress job = 100.
Proof.
  eexists. eexists.
  split; [vm_compute; reflexivity|].
  split; [vm_compute; reflexivity|].
  split; [reflexivity|].
  refine (proj1 (completed_implies_full_progress None None _
                   (run_reaches thumbnail_failure_events _ _ _))
            "a3f1c2d4-0001" _ _ _).
  - vm_compute. reflexivity.
  - vm_compute. reflexivity.
  - reflexivity.
Defined.

(** ** What the [finally] block leaves alone *)

Section finish_frame.

Import RenderService.

Lemma keys_ok_update (jobId : string) (u : RenderJob.partial) (q : RenderQueue.t) :
  keys_ok q → keys_ok (RenderQueue.update jobId u q).
Proof.
  intros Hkeys. unfold RenderQueue.update.
  destruct (RenderQueue.jobs q !! jobId) as [job|] eqn:Hjob; [|done].
  intros jobId' job' Hlookup. simpl in Hlookup.
  destruct (decide (jobId = jobId')) as [<-|Hne].
  - rewrite lookup_insert_eq in Hlookup. injection Hlookup as <-. simpl.
    by apply Hkeys.
  - rewrite lookup_insert_ne in Hlookup by done. by apply Hkeys.
Qed.

Lemma keys_ok_new (outputDir : option string) (concurrency : option Q) :
  keys_ok (queue (new outputDir concurrency)).
Proof. intros jobId job Hlookup. simpl in Hlookup. by rewrite lookup_empty in Hlookup. Qed.

Lemma update_get (jobId : string) (u : RenderJob.partial) (q : RenderQueue.t)
    (job : RenderJob.t) :
  RenderQueue.get jobId q = Some job →
  RenderQueue.get jobId (RenderQueue.update jobId u q) = Some (RenderJob.assign job u).
Proof.
  unfold RenderQueue.get, RenderQueue.update. intros ->. simpl.
  apply lookup_insert_eq.
Qed.

Lemma update_get_ne (jobId other : string) (u : RenderJob.partial) (q : RenderQueue.t) :
  other ≠ jobId →
  RenderQueue.get other (RenderQueue.update jobId u q) = RenderQueue.get other q.
Proof.
  intros Hne. unfold RenderQueue.get, RenderQueue.update.
  destruct (RenderQueue.jobs q !! jobId); [|done].
  simpl. by rewrite lookup_insert_ne.
Qed.

Lemma update_queue (jobId : string) (u : RenderJob.partial) (q : RenderQueue.t) :
  RenderQueue.queue (RenderQueue.update jobId u q) = RenderQueue.queue q.
Proof. unfold RenderQueue.update. by destruct (RenderQueue.jobs q !! jobId). Qed.

Lemma getBundle_tasks (s : t) : tasks (getBundle s).1 = tasks s.
Proof.
  unfold getBundle.
  destruct (Js.truthy (bundleLocation s)); [done|].
  by destruct (bundlePromise s).
Qed.

Lemma processJob_queue (job : RenderJob.t) (now : Z) (s : t) :
  queue (processJob job now s)
  = RenderQueue.update (RenderJob.id job) (bundling_update now) (queue s).
Proof.
  unfold processJob.
  pose proof (getBundle_queue (update (RenderJob.id job) (bundling_update now) s)) as Hg.
  destruct (getBundle _) as [s2 g]; simpl in *. by rewrite Hg.
Qed.

Lemma processJob_tasks (job : RenderJob.t) (now : Z) (s : t) :
  ∃ g, tasks (processJob job now s)
       = tasks s ++ [{| t_job := job; t_stage := AwaitBundle g |}].
Proof.
  unfold processJob.
  pose proof (getBundle_tasks (update (RenderJob.id job) (bundling_update now) s)) as Hg.
  destruct (getBundle _) as [s2 g]; simpl in *. exists g. by rewrite Hg.
Qed.

(** The loop only touches the jobs whose ids it takes off the pending
    list, and only appends to the list of running calls. *)
Lemma processQueue_loop_frame (fuel : nat) (now : Z) (s : t) (jobId : string) :
  keys_ok (queue s) →
  jobId ∉ RenderQueue.queue (queue s) →
  RenderQueue.get jobId (queue (processQueue_loop fuel now s))
  = RenderQueue.get jobId (queue s)
  ∧ ∃ started, tasks (processQueue_loop fuel now s) = tasks s ++ started.
Proof.
  revert s. induction fuel as [|fuel IH]; intros s Hkeys Hnotin; simpl.
  { split; [done|]. exists []. by rewrite app_nil_r. }
  destruct (RenderQueue.canProcess (queue s)).
  2:{ split; [done|]. exists []. by rewrite app_nil_r. }
  unfold RenderQueue.dequeue.
  destruct (RenderQueue.queue (queue s)) as [|next rest] eqn:Hpending.
  { split; [done|]. exists []. by rewrite app_nil_r. }
  apply not_elem_of_cons in Hnotin as [Hne Hnotin].
  destruct (Js.truthy_string next).
  2:{ split; [done|]. exists []. by rewrite app_nil_r. }
  destruct (RenderQueue.jobs (queue s) !! next) as [job|] eqn:Hjob.
  2:{ split; [done|]. exists []. by rewrite app_nil_r. }
  pose proof (Hkeys _ _ Hjob) as Hid.
  match goal with
  | |- context [processJob job now ?s0] => set (s1 := s0)
  end.
  destruct (IH (processJob job now s1)) as [Hget [started Htasks]].
  - rewrite processJob_queue. by apply keys_ok_update.
  - by rewrite processJob_queue, update_queue.
  - split.
    + rewrite Hget, processJob_queue, Hid. by rewrite update_get_ne.
    + destruct (processJob_tasks job now s1) as [g Hg].
      rewrite Htasks, Hg. eexists. by rewrite <- app_assoc.
Qed.

Lemma processQueue_frame (now : Z) (s : t) (jobId : string) :
  keys_ok (queue s) →
  jobId ∉ RenderQueue.queue (queue s) →
  RenderQueue.get jobId (queue (processQueue now s)) = RenderQueue.get jobId (queue s)
  ∧ ∃ started, tasks (processQueue now s) = tasks s ++ started.
Proof.
  intros Hkeys Hnotin. unfold processQueue.
  destruct (isProcessing s).
  { split; [done|]. exists []. by rewrite app_nil_r. }
  by apply (processQueue_loop_frame _ now (set_isProcessing true s) jobId).
Qed.

(** The [finally] block settles the call and keeps the job as the [try] or
    [catch] block left it. *)
Lemma finish_frame (i : nat) (job : RenderJob.t) (outcome : Result) (now : Z) (s : t) :
  keys_ok (queue s) →
  (i < length (tasks s))%nat →
  RenderJob.id job ∉ RenderQueue.queue (queue s) →
  getJob (RenderJob.id job) (finish i job outcome now s) = getJob (RenderJob.id job) s
  ∧ tasks (finish i job outcome now s) !! i
    = Some {| t_job := job; t_stage := Done outcome |}.
Proof.
  intros Hkeys Hi Hnotin. unfold finish, getJob.
  match goal with
  | |- context [processQueue now ?s0] => set (s1 := s0)
  end.
  destruct (processQueue_frame now s1 (RenderJob.id job)) as [Hget [started Htasks]];
    [done|done|].
  split; [by rewrite Hget|].
  rewrite Htasks. simpl. rewrite lookup_app_l by (by rewrite length_insert).
  by apply list_lookup_insert_eq.
Qed.

End finish_frame.

(** ** What reaches the engine *)

Section engine_calls.

Import RenderService.

Lemma calls_ok_processJob (job : RenderJob.t) (now : Z) (s : t) :
  calls_ok s → calls_ok (processJob job now s).
Proof.
  unfold calls_ok. intros Hok.
  destruct (processJob_tasks job now s) as [g ->].
  apply Forall_app. split; [done|]. by apply Forall_singleton.
Qed.

Lemma calls_ok_processQueue_loop (fuel : nat) (now : Z) (s : t) :
  calls_ok s → calls_ok (processQueue_loop fuel now s).
Proof.
  revert s. induction fuel as [|fuel IH]; intros s Hok; simpl; [done|].
  destruct (RenderQueue.canProcess (queue s)); [|done].
  destruct (RenderQueue.dequeue (queue s)) as [q' [job|]]; [|done].
  apply IH. by apply calls_ok_processJob.
Qed.

Lemma calls_ok_processQueue (now : Z) (s : t) :
  calls_ok s → calls_ok (processQueue now s).
Proof.
  intros Hok. unfold processQueue. destruct (isProcessing s); [done|].
  by apply (calls_ok_processQueue_loop _ now (set_isProcessing true s)).
Qed.

Lemma calls_ok_set_stage (i : nat) (job : RenderJob.t) (st : Stage) (s : t) :
  call_ok {| t_job := job; t_stage := st |} →
  calls_ok s → calls_ok (set_stage i job st s).
Proof. intros Hnew Hok. by apply Forall_insert. Qed.

Lemma calls_ok_finish (i : nat) (job : RenderJob.t) (outcome : Result) (now : Z)
    (s : t) :
  calls_ok s → calls_ok (finish i job outcome now s).
Proof.
  intros Hok. unfold finish. apply calls_ok_processQueue.
  by apply (calls_ok_set_stage i job (Done outcome) s).
Qed.

Lemma calls_ok_step (s s' : t) (e : Event) :
  calls_ok s → step s e = Some s' → calls_ok s'.
Proof.
  intros Hok Hstep.
  destruct e as [input uuidFile uuidId now| |p r|i now|i r now
                |i progress encodedFrames|i r now|i r thumbnailExists now
                |listened cb|listened cb];
    simpl in Hstep.
  - injection Hstep as <-. unfold createJob.
    destruct (Compositions.get _); [|done].
    by apply calls_ok_processQueue.
  - by injection Hstep as <-.
  - unfold settle_build in Hstep.
    destruct r; [done| |];
      (destruct (builds s !! p) as [[]|]; [|done..]; by injection Hstep as <-).
  - destruct (tasks s !! i) as [[job [g|loc|loc call|loc call|outcome]]|] eqn:Htask;
      try done.
    destruct (awaited s g) as [|loc|message]; [done| |]; injection Hstep as <-.
    + apply calls_ok_set_stage; [done|]. by destruct g.
    + by apply calls_ok_finish.
  - destruct (tasks s !! i) as [[job [g|loc|loc call|loc call|outcome]]|] eqn:Htask;
      try done.
    destruct r; injection Hstep as <-.
    + by apply calls_ok_set_stage.
    + by apply calls_ok_finish.
  - destruct (tasks s !! i) as [[job [g|loc|loc call|loc call|outcome]]|] eqn:Htask;
      try done.
    by injection Hstep as <-.
  - destruct (tasks s !! i) as [[job [g|loc|loc call|loc call|outcome]]|] eqn:Htask;
      try done.
    pose proof (Forall_lookup_1 _ _ _ _ Hok Htask) as Hcall.
    destruct r; injection Hstep as <-.
    + by apply calls_ok_set_stage.
    + by apply calls_ok_finish.
  - destruct (tasks s !! i) as [[job [g|loc|loc call|loc call|outcome]]|] eqn:Htask;
      try done.
    injection Hstep as <-. by apply calls_ok_finish.
  - by injection Hstep as <-.
  - by injection Hstep as <-.
Qed.

Lemma calls_ok_run (events : list Event) (s s' : t) :
  calls_ok s → run s events = Some s' → calls_ok s'.
Proof.
  revert s. induction events as [|e events IH]; intros s Hok Hrun; simpl in Hrun.
  - by injection Hrun as <-.
  - destruct (step s e) as [s1|] eqn:Hstep; [|done].
    eapply IH; [|done]. by eapply calls_ok_step.
Qed.

(** Every call the engine receives carries the values computed from the
    job, and these are never zero. *)
Lemma render_calls_nonzero (outputDir : option string) (concurrency : option Q)
    (events : list Event) (s : t) (i : nat) (job : RenderJob.t) (loc : string)
    (call : RenderParams) :
  run (new outputDir concurrency) events = Some s →
  tasks s !! i = Some {| t_job := job; t_stage := AwaitRender loc call |}
  ∨ tasks s !! i = Some {| t_job := job; t_stage := AwaitStill loc call |} →
  call = renderParams job ∧ r_fps call ≠ 0 ∧ r_durationInFrames call ≠ 0.
Proof.
  intros Hrun Htask.
  assert (Hok : calls_ok s).
  { eapply calls_ok_run; [|done]. unfold calls_ok. simpl. constructor. }
  assert (Hcall : call = renderParams job).
  { destruct Htask as [Htask|Htask];
      apply (Forall_lookup_1 _ _ _ _ Hok Htask). }
  split; [done|]. rewrite Hcall. apply renderParams_nonzero.
Qed.

End engine_calls.

(** C10. [createJob] replaces falsy values, not only absent ones: a
    duration of 0 becomes the composition's default duration and an fps of
    0 becomes 30.  The job it builds never has duration 0 or fps 0, the
    frame rate and frame count [processJob] computes from it are never 0,
    and in every run every call the engine receives has a non-zero frame
    rate and a non-zero frame count. *)
Theorem createJob_defaults_falsy (s : RenderService.t) (input : RenderJobInput.t)
    (composition : Compositions.Meta) (uuidFile uuidId : string) (now : Z) :
  Compositions.COMPOSITIONS !! RenderJobInput.compositionId input = Some composition →
  let job := RenderService.newJob (RenderService.outputDir s) input
               (Compositions.Registered composition) uuidFile uuidId now in
  RenderService.createJob input uuidFile uuidId now s
  = (RenderService.processQueue now
       (RenderService.set_queue (RenderQueue.add job (RenderService.queue s)) s),
     inr uuidId)
  ∧ (RenderJobInput.duration input = Some 0 →
     RenderJob.duration job = Some (Compositions.defaultDuration composition))
  ∧ (RenderJobInput.fps input = Some 0 → RenderJob.fps job = Some 30)
  ∧ RenderJob.duration job ≠ Some 0
  ∧ RenderJob.fps job ≠ Some 0
  ∧ r_fps (renderParams job) ≠ 0
  ∧ r_durationInFrames (renderParams job) ≠ 0
  ∧ (∀ outputDir concurrency events s' i started loc call,
       RenderService.run (RenderService.new outputDir concurrency) events = Some s' →
       RenderService.tasks s' !! i
         = Some {| t_job := started; t_stage := AwaitRender loc call |}
       ∨ RenderService.tasks s' !! i
         = Some {| t_job := started; t_stage := AwaitStill loc call |} →
       r_fps call ≠ 0 ∧ r_durationInFrames call ≠ 0).
Proof.
  intros Hc job.
  split; [by apply createJob_known, get_registered|].
  split; [intros Hd; unfold job, RenderService.newJob; simpl; by rewrite Hd|].
  split; [intros Hf; unfold job, RenderService.newJob; simpl; by rewrite Hf|].
  split.
  { unfold job, RenderService.newJob; simpl. rewrite or_undefined_Some.
    intros [= Hzero]. revert Hzero.
    apply or_number_nonzero. by eapply COMPOSITIONS_defaultDuration. }
  split.
  { unfold job, RenderService.newJob; simpl. intros [= Hzero]. revert Hzero.
    by apply or_number_nonzero. }
  split; [apply renderParams_nonzero|]. split; [apply renderParams_nonzero|].
  intros outputDir concurrency events s' i started loc call Hrun Htask.
  by destruct (render_calls_nonzero _ _ _ _ _ _ _ _ Hrun Htask) as (_ & ? & ?).
Qed.

Lemma createJob_defaults_falsy_witness :
  let job := RenderService.newJob "./output" Sample.zero_request
               (Compositions.Registered Sample.EventPromo_meta)
               "9e107d9d-0004" "9e107d9d-0004" 4 in
  RenderJob.duration job = Some 10 ∧ RenderJob.fps job = Some 30.
Proof.
  intros job.
  destruct (createJob_defaults_falsy (RenderService.new None None) Sample.zero_request
              Sample.EventPromo_meta "9e107d9d-0004" "9e107d9d-0004" 4
              COMPOSITIONS_EventPromo)
    as (_ & Hduration & Hfps & _).
  split; [apply Hduration|apply Hfps]; reflexivity.
Defined.

(** ** Start order and job records along a run *)

Section well_formed.

Import RenderService.

Lemma clean_update (jobId other : string) (u : RenderJob.partial) (q : RenderQueue.t) :
  RenderJob.u_error u = None ∨ other ≠ jobId →
  clean q other → clean (RenderQueue.update jobId u q) other.
Proof.
  intros Hu (stored & Hstored & Herror). unfold clean, RenderQueue.update.
  destruct (RenderQueue.jobs q !! jobId) as [job|] eqn:Hjob; [|by exists stored].
  simpl. destruct (decide (other = jobId)) as [->|Hne].
  - destruct Hu as [Hu|Hu]; [|done]. rewrite lookup_insert_eq.
    eexists. split; [done|]. simpl. rewrite Hu.
    rewrite Hjob in Hstored. by injection Hstored as ->.
  - rewrite lookup_insert_ne by done. by exists stored.
Qed.

Lemma wf_update (ids : list string) (jobId : string) (u : RenderJob.partial) (s : t) :
  RenderJob.u_error u = None →
  wf ids s → wf ids (update jobId u s).
Proof.
  intros Hu [Hkeys Horder Hpending Hlive]. split; simpl.
  - by apply keys_ok_update.
  - by rewrite update_queue.
  - intros other Hin. rewrite update_queue in Hin.
    apply clean_update; [by left|by apply Hpending].
  - intros i task Htask Hl. apply clean_update; [by left|by eapply Hlive].
Qed.

Lemma wf_set_stage (ids : list string) (i : nat) (job : RenderJob.t)
    (old new : Stage) (s : t) :
  tasks s !! i = Some {| t_job := job; t_stage := old |} →
  live {| t_job := job; t_stage := old |} →
  wf ids s → wf ids (set_stage i job new s).
Proof.
  intros Htask Hold [Hkeys Horder Hpending Hlive]. split; simpl; try done.
  - unfold task_ids, set_stage; simpl. rewrite list_fmap_insert. simpl.
    rewrite list_insert_id; [done|].
    rewrite list_lookup_fmap, Htask. done.
  - intros j task Hj Hl. rewrite list_lookup_insert in Hj.
    case_decide as Hij.
    + injection Hj as <-. simpl. by apply (Hlive i _ Htask).
    + by eapply Hlive.
Qed.

(** One turn of the loop: the oldest pending job becomes the newest call. *)
Lemma wf_start (ids : list string) (next : string) (rest : list string)
    (now : Z) (s : t) :
  uuids_ok ids →
  wf ids s →
  RenderQueue.queue (queue s) = next :: rest →
  ∃ job,
    RenderQueue.dequeue (queue s)
    = ((RenderQueue.dequeue (queue s)).1, Some job)
    ∧ RenderJob.id job = next
    ∧ RenderQueue.queue (RenderQueue.dequeue (queue s)).1 = rest
    ∧ wf ids (processJob job now (set_queue (RenderQueue.dequeue (queue s)).1 s)).
Proof.
  intros [Hnd Htruthy] [Hkeys Horder Hpending Hlive] Hq.
  assert (Hnext : Js.truthy_string next = true).
  { rewrite Forall_forall in Htruthy. apply Htruthy. rewrite <- Horder, Hq.
    apply elem_of_app. right. by left. }
  destruct (Hpending next) as (job & Hjob & Herror); [rewrite Hq; by left|].
  pose proof (Hkeys _ _ Hjob) as Hid.
  unfold RenderQueue.dequeue. rewrite Hq, Hnext, Hjob. simpl.
  exists job. split; [done|]. split; [done|]. split; [done|].
  match goal with
  | |- wf ids (processJob job now ?s0) => set (s1 := s0)
  end.
  destruct (processJob_tasks job now s1) as [g Htasks].
  pose proof (processJob_queue job now s1) as Hqueue.
  assert (Hclean : ∀ other, other = next ∨ other ∈ rest →
            clean (queue (processJob job now s1)) other).
  { intros other Hin. rewrite Hqueue. apply clean_update; [by left|].
    apply Hpending. rewrite Hq. destruct Hin as [->|Hin]; [by left|by right]. }
  split.
  - rewrite Hqueue. by apply keys_ok_update.
  - unfold task_ids. rewrite Htasks, Hqueue, update_queue, fmap_app. simpl.
    rewrite Hid, <- app_assoc. simpl. by rewrite <- Horder, Hq.
  - intros other Hin. rewrite Hqueue, update_queue in Hin. apply Hclean. by right.
  - intros i task Htask Hl. rewrite Htasks in Htask.
    apply lookup_app_Some in Htask as [Htask|[_ Htask]].
    + rewrite Hqueue. apply clean_update; [by left|]. by eapply Hlive.
    + apply list_lookup_singleton_Some in Htask as [_ <-]. simpl.
      apply Hclean. by left.
Qed.

Lemma wf_processQueue_loop (ids : list string) (fuel : nat) (now : Z) (s : t) :
  uuids_ok ids → wf ids s → wf ids (processQueue_loop fuel now s).
Proof.
  intros Hids. revert s. induction fuel as [|fuel IH]; intros s Hwf; simpl; [done|].
  destruct (RenderQueue.canProcess (queue s)); [|done].
  destruct (RenderQueue.queue (queue s)) as [|next rest] eqn:Hq.
  { rewrite dequeue_empty by done. by destruct Hwf. }
  destruct (wf_start ids next rest now s Hids Hwf Hq) as (job & -> & _ & _ & Hwf').
  by apply IH.
Qed.

Lemma wf_set_isProcessing (ids : list string) (b : bool) (s : t) :
  wf ids s → wf ids (set_isProcessing b s).
Proof. by intros []. Qed.

Lemma wf_processQueue (ids : list string) (now : Z) (s : t) :
  uuids_ok ids → wf ids s → wf ids (processQueue now s).
Proof.
  intros Hids Hwf. unfold processQueue. destruct (isProcessing s); [done|].
  apply wf_set_isProcessing, wf_processQueue_loop; [done|].
  by apply wf_set_isProcessing.
Qed.


Lemma wf_complete (ids : list string) (jobId : string) (s : t) :
  wf ids s → wf ids (set_queue (RenderQueue.complete jobId (queue s)) s).
Proof. by intros []. Qed.

(** The [finally] block, once the call is recorded as settled. *)
Lemma wf_finish (ids : list string) (i : nat) (job : RenderJob.t) (outcome : Result)
    (now : Z) (s : t) :
  uuids_ok ids →
  wf ids (set_stage i job (Done outcome) s) →
  wf ids (finish i job outcome now s).
Proof.
  intros Hids Hwf. unfold finish. by apply wf_processQueue, wf_complete.
Qed.

Lemma task_ids_lookup (s : t) (i : nat) (task : Task) :
  tasks s !! i = Some task → task_ids s !! i = Some (RenderJob.id (t_job task)).
Proof. intros Htask. unfold task_ids. by rewrite list_lookup_fmap, Htask. Qed.

Lemma task_ids_set_stage (s : t) (i : nat) (job : RenderJob.t) (old new : Stage) :
  tasks s !! i = Some {| t_job := job; t_stage := old |} →
  task_ids (set_stage i job new s) = task_ids s.
Proof.
  intros Htask. unfold task_ids, set_stage; simpl. rewrite list_fmap_insert. simpl.
  apply list_insert_id. by rewrite list_lookup_fmap, Htask.
Qed.

(** A running call's job is not pending, and no other call has its id. *)
Lemma wf_task_unique (ids : list string) (s : t) (i : nat) (task : Task) :
  uuids_ok ids →
  wf ids s →
  tasks s !! i = Some task →
  (RenderJob.id (t_job task) ∉ RenderQueue.queue (queue s))
  ∧ (∀ j other, tasks s !! j = Some other →
       RenderJob.id (t_job other) = RenderJob.id (t_job task) → j = i).
Proof.
  intros [Hnd _] [_ Horder _ _] Htask.
  rewrite <- Horder in Hnd. apply NoDup_app in Hnd as (Hnd & Hdisjoint & _).
  pose proof (task_ids_lookup _ _ _ Htask) as Hi.
  split.
  - apply Hdisjoint. by eapply list_elem_of_lookup_2.
  - intros j other Hother Hsame.
    pose proof (task_ids_lookup _ _ _ Hother) as Hj. rewrite Hsame in Hj.
    by eapply NoDup_lookup.
Qed.

Lemma wf_fail (ids : list string) (i : nat) (job : RenderJob.t) (old : Stage)
    (message : string) (now : Z) (s : t) :
  uuids_ok ids →
  wf ids s →
  tasks s !! i = Some {| t_job := job; t_stage := old |} →
  wf ids (fail i job message now s).
Proof.
  intros Hids Hwf Htask. unfold fail. apply wf_finish; [done|].
  destruct (wf_task_unique ids s i _ Hids Hwf Htask) as [Hnotin Hunique].
  destruct Hwf as [Hkeys Horder Hpending Hlive]. simpl in Hnotin, Hunique.
  split.
  - simpl. by apply keys_ok_update.
  - rewrite (task_ids_set_stage _ i job old) by done. simpl.
    by rewrite update_queue.
  - simpl. intros other Hin. rewrite update_queue in Hin.
    apply clean_update; [|by apply Hpending].
    right. by intros ->.
  - simpl. intros j task Hj Hl. rewrite list_lookup_insert in Hj.
    case_decide as Hij; [by injection Hj as <-|].
    apply clean_update; [|by eapply Hlive].
    right. intros Hsame. apply Hij. split; [|by eapply lookup_lt_Some].
    symmetry. by eapply Hunique.
Qed.

Lemma uuids_ok_app_l (ids more : list string) :
  uuids_ok (ids ++ more) → uuids_ok ids.
Proof.
  intros [Hnd Htruthy]. split.
  - by apply NoDup_app in Hnd as (? & _ & _).
  - by apply Forall_app in Htruthy as [? _].
Qed.

Lemma wf_createJob (ids : list string) (input : RenderJobInput.t)
    (composition : Compositions.Found) (uuidFile uuidId : string) (now : Z) (s : t) :
  Compositions.get (RenderJobInput.compositionId input) = Some composition →
  uuids_ok (ids ++ [uuidId]) →
  wf ids s →
  wf (ids ++ [uuidId]) (createJob input uuidFile uuidId now s).1.
Proof.
  intros Hc Hids [Hkeys Horder Hpending Hlive].
  rewrite (createJob_known _ _ _ _ _ _ Hc). simpl.
  apply wf_processQueue; [done|].
  destruct Hids as [Hnd _]. apply NoDup_app in Hnd as (_ & Hfresh & _).
  assert (Hother : ∀ other, other ∈ ids → other ≠ uuidId).
  { intros other Hin ->. apply (Hfresh _ Hin). by left. }
  set (job := newJob (outputDir s) input composition uuidFile uuidId now).
  assert (Hclean : ∀ other, other ∈ ids → clean (queue s) other →
            clean (RenderQueue.add job (queue s)) other).
  { intros other Hin (stored & Hstored & Herror). exists stored.
    split; [|done]. simpl. rewrite lookup_insert_ne; [done|].
    intros Heq. by apply (Hother other). }
  split; simpl; change (RenderJob.id job) with uuidId.
  - intros jobId stored Hlookup. simpl in Hlookup.
    change (RenderJob.id job) with uuidId in Hlookup.
    destruct (decide (uuidId = jobId)) as [<-|Hne].
    + rewrite lookup_insert_eq in Hlookup. by injection Hlookup as <-.
    + rewrite lookup_insert_ne in Hlookup by done. by apply Hkeys.
  - change (task_ids s ++ (RenderQueue.queue (queue s) ++ [uuidId]) = ids ++ [uuidId]).
    by rewrite app_assoc, Horder.
  - intros other Hin. apply elem_of_app in Hin as [Hin|Hin].
    + apply Hclean; [|by apply Hpending].
      rewrite <- Horder. apply elem_of_app. by right.
    + apply list_elem_of_singleton in Hin as ->. exists job.
      split; [apply lookup_insert_eq|done].
  - intros i task Htask Hl. apply Hclean; [|by eapply Hlive].
    rewrite <- Horder. apply elem_of_app. left.
    eapply list_elem_of_lookup_2. by apply task_ids_lookup.
Qed.

Lemma wf_step (ids : list string) (e : Event) (s s' : t) :
  uuids_ok (ids ++ option_list (created_id e)) →
  wf ids s →
  step s e = Some s' →
  wf (ids ++ option_list (created_id e)) s'.
Proof.
  intros Hids Hwf Hstep.
  destruct e as [input uuidFile uuidId now| |p r|i now|i r now
                |i progress encodedFrames|i r now|i r thumbnailExists now
                |listened cb|listened cb];
    simpl in Hstep, Hids |- *.
  - injection Hstep as <-.
    destruct (Compositions.get (RenderJobInput.compositionId input))
      as [composition|] eqn:Hc; simpl in *.
    + by eapply wf_createJob.
    + rewrite app_nil_r. unfold createJob. by rewrite Hc.
  - injection Hstep as <-. rewrite app_nil_r. by destruct Hwf.
  - rewrite app_nil_r. unfold settle_build in Hstep.
    destruct r; [done| |];
      (destruct (builds s !! p) as [[]|]; [|done..];
       injection Hstep as <-; by destruct Hwf).
  - rewrite app_nil_r in *.
    destruct (tasks s !! i) as [[job [g|loc|loc call|loc call|outcome]]|] eqn:Htask;
      try done.
    destruct (awaited s g) as [|loc|message]; [done| |].
    + injection Hstep as <-.
      assert (Hwf1 : wf ids (getBundle_resume g loc s))
        by (destruct g; by destruct Hwf).
      assert (Htask1 : tasks (getBundle_resume g loc s) !! i
                       = Some {| t_job := job; t_stage := AwaitBundle g |})
        by (by destruct g).
      apply (wf_set_stage ids i job (AwaitBundle g)); [exact Htask1|done|].
      by apply wf_update.
    + injection Hstep as <-. by eapply wf_fail.
  - rewrite app_nil_r in *.
    destruct (tasks s !! i) as [[job [g|loc|loc call|loc call|outcome]]|] eqn:Htask;
      try done.
    destruct r; injection Hstep as <-.
    + by apply (wf_set_stage ids i job (AwaitSelect loc)).
    + by eapply wf_fail.
  - rewrite app_nil_r in *.
    destruct (tasks s !! i) as [[job [g|loc|loc call|loc call|outcome]]|] eqn:Htask;
      try done.
    injection Hstep as <-. by apply wf_update.
  - rewrite app_nil_r in *.
    destruct (tasks s !! i) as [[job [g|loc|loc call|loc call|outcome]]|] eqn:Htask;
      try done.
    destruct r; injection Hstep as <-.
    + by apply (wf_set_stage ids i job (AwaitRender loc call)).
    + by eapply wf_fail.
  - rewrite app_nil_r in *.
    destruct (tasks s !! i) as [[job [g|loc|loc call|loc call|outcome]]|] eqn:Htask;
      try done.
    injection Hstep as <-. apply wf_finish; [done|].
    apply (wf_set_stage ids i job (AwaitStill loc call)); [exact Htask|done|].
    by apply wf_update.
  - injection Hstep as <-. rewrite app_nil_r. by destruct Hwf.
  - injection Hstep as <-. rewrite app_nil_r.
    destruct Hwf as [Hkeys Horder Hpending Hlive].
    unfold RenderQueue.unsubscribe.
    by destruct (RenderQueue.listeners (queue s) !! listened).
Qed.

Lemma wf_run (events : list Event) (ids : list string) (s s' : t) :
  uuids_ok (ids ++ created events) →
  wf ids s →
  run s events = Some s' →
  wf (ids ++ created events) s'.
Proof.
  revert ids s. induction events as [|e events IH]; intros ids s Hids Hwf Hrun.
  - injection Hrun as <-. unfold created. simpl. by rewrite app_nil_r.
  - simpl in Hrun. destruct (step s e) as [s1|] eqn:Hstep; [|done].
    assert (Hcreated : created (e :: events)
                       = option_list (created_id e) ++ created events).
    { unfold created. simpl. by destruct (created_id e). }
    rewrite Hcreated, app_assoc in Hids |- *.
    apply (IH _ s1); [done| |done].
    apply (wf_step ids e s); [|done|done]. by eapply uuids_ok_app_l.
Qed.

Lemma wf_new (outputDir : option string) (concurrency : option Q) :
  wf [] (new outputDir concurrency).
Proof.
  split.
  - apply keys_ok_new.
  - reflexivity.
  - intros jobId Hin. simpl in Hin. by apply elem_of_nil in Hin.
  - intros i task Htask. simpl in Htask. by rewrite lookup_nil in Htask.
Qed.

(** Along any run in which [uuidv4] behaves, the jobs handed to
    [processJob] followed by the pending ones are the created jobs, in
    the order of their creation: jobs are started in arrival order. *)
Lemma started_in_creation_order (outputDir : option string) (concurrency : option Q)
    (events : list Event) (s : t) :
  run (new outputDir concurrency) events = Some s →
  uuids_ok (created events) →
  task_ids s ++ RenderQueue.queue (queue s) = created events.
Proof.
  intros Hrun Hids.
  by destruct (wf_run events [] _ s Hids (wf_new outputDir concurrency) Hrun).
Qed.

End well_formed.

(** C4. Admission is first-in, first-out.  [add] puts the job's id at the
    back of the pending list.  When the pending jobs are [older] followed by
    a newly added [batch] (ids produced by [uuidv4]: non-empty and pairwise
    distinct), the first [k] calls of [dequeue] return exactly the first [k]
    of these jobs in arrival order, leave the remaining ids pending, and have
    moved the returned ids into the processing set.  Along any run of the
    service the jobs handed to [processJob], followed by the pending ones,
    are the created jobs in the order of their creation: jobs enqueued in
    the order A, B, C begin processing in the order A, B, C. *)
Theorem fifo_admission (q : RenderQueue.t) (older batch : list RenderJob.t) (k : nat) :
  RenderQueue.queue q = map RenderJob.id older →
  (∀ job, job ∈ older → RenderQueue.get (RenderJob.id job) q = Some job) →
  Forall (fun job => Js.truthy_string (RenderJob.id job) = true) (older ++ batch) →
  NoDup (map RenderJob.id (older ++ batch)) →
  (k ≤ length (older ++ batch))%nat →
  let q' := add_all batch q in
  RenderQueue.queue q' = RenderQueue.queue q ++ map RenderJob.id batch
  ∧ (dequeue_n k q').2 = map Some (take k (older ++ batch))
  ∧ RenderQueue.queue (dequeue_n k q').1 = map RenderJob.id (drop k (older ++ batch))
  ∧ RenderQueue.processing (dequeue_n k q').1
    = list_to_set (map RenderJob.id (take k (older ++ batch)))
      ∪ RenderQueue.processing q
  ∧ (∀ outputDir concurrency events s,
       RenderService.run (RenderService.new outputDir concurrency) events = Some s →
       uuids_ok (created events) →
       task_ids s ++ RenderQueue.queue (RenderService.queue s) = created events).
Proof.
  intros Hq Holder Hids Hnd Hk q'.
  destruct (dequeue_n_prefix k (older ++ batch) q') as (Hstarted & Hpending & Hprocessing);
    [| done | | done |].
  - unfold q'. rewrite add_all_queue, Hq. by rewrite map_app.
  - intros job Hin. rewrite map_app in Hnd.
    apply NoDup_app in Hnd as (Hnd1 & Hdisj & Hnd2).
    apply elem_of_app in Hin as [Hin|Hin].
    + unfold q'. rewrite add_all_get_other; [by apply Holder|].
      apply Hdisj. apply list_elem_of_fmap. by exists job.
    + by apply add_all_get.
  - split; [apply add_all_queue|]. split; [exact Hstarted|].
    split; [exact Hpending|].
    split; [by rewrite Hprocessing; unfold q'; rewrite add_all_processing|].
    intros outputDir concurrency events s. apply started_in_creation_order.
Qed.

Lemma fifo_admission_witness :
  (dequeue_n 3 (add_all [Sample.A; Sample.B; Sample.C] (RenderQueue.new 1))).2
  = [Some Sample.A; Some Sample.B; Some Sample.C].
Proof.
  refine (proj1 (proj2
    (fifo_admission (RenderQueue.new 1) [] [Sample.A; Sample.B; Sample.C] 3
       _ _ _ _ _))).
  - reflexivity.
  - intros job Hin. by apply elem_of_nil in Hin.
  - repeat constructor.
  - apply (bool_decide_unpack _). vm_compute. reflexivity.
  - simpl. lia.
Defined.

(** C9. In any run in which [uuidv4] behaves: when [renderStill] throws
    after a successful render, the call of [processJob] still resolves
    ([Done Ok]) and the job is [completed] with progress 100 and no error;
    [thumbnailPath] is the thumbnail file if it exists on disk and absent
    otherwise.  The step is the one taken when [renderStill] succeeds. *)
Theorem thumbnail_failure_swallowed (outputDir : option string) (concurrency : option Q)
    (events : list RenderService.Event) (s : RenderService.t) (i : nat)
    (job : RenderJob.t) (loc : string) (call : RenderParams) (message : string)
    (thumbnailExists : bool) (now : Z) :
  RenderService.run (RenderService.new outputDir concurrency) events = Some s →
  uuids_ok (created events) →
  RenderService.tasks s !! i = Some {| t_job := job; t_stage := AwaitStill loc call |} →
  ∃ s' job',
    RenderService.step s
      (RenderService.StillRendered i (Threw message) thumbnailExists now) = Some s'
    ∧ RenderService.step s (RenderService.StillRendered i Ok thumbnailExists now)
      = Some s'
    ∧ RenderService.tasks s' !! i = Some {| t_job := job; t_stage := Done Ok |}
    ∧ RenderService.getJob (RenderJob.id job) s' = Some job'
    ∧ RenderJob.status job' = completed
    ∧ RenderJob.progress job' = 100
    ∧ RenderJob.error job' = None
    ∧ RenderJob.thumbnailPath job'
      = (if thumbnailExists then Some (r_thumbnailPath call) else None).
Proof.
  intros Hrun Hids Htask.
  pose proof (wf_run events [] _ s Hids (wf_new outputDir concurrency) Hrun) as Hwf.
  destruct (wf_task_unique _ s i _ Hids Hwf Htask) as [Hnotin _].
  destruct (wf_live _ _ Hwf i _ Htask I) as (stored & Hstored & Herror).
  pose proof (wf_keys _ _ Hwf) as Hkeys. simpl in Hnotin, Hstored.
  set (u := RenderService.completed_update
              (if thumbnailExists then Some (r_thumbnailPath call) else None) now).
  destruct (finish_frame i job Ok now (RenderService.update (RenderJob.id job) u s))
    as [Hget Hdone].
  { simpl. by apply keys_ok_update. }
  { simpl. by eapply lookup_lt_Some. }
  { simpl. by rewrite update_queue. }
  exists (RenderService.finish i job Ok now
            (RenderService.update (RenderJob.id job) u s)).
  exists (RenderJob.assign stored u).
  split; [unfold RenderService.step; rewrite Htask; reflexivity|].
  split; [unfold RenderService.step; rewrite Htask; reflexivity|].
  split; [exact Hdone|].
  split; [rewrite Hget; unfold RenderService.getJob; simpl; by apply update_get|].
  repeat split; try reflexivity. exact Herror.
Qed.

Lemma thumbnail_failure_swallowed_witness :
  ∃ s job,
    after_thumbnail_failure = Some s
    ∧ RenderService.getJob "a3f1c2d4-0001" s = Some job
    ∧ RenderJob.status job = completed
    ∧ RenderJob.progress job = 100
    ∧ RenderJob.error job = None
    ∧ RenderJob.thumbnailPath job = None.
Proof.
  destruct (RenderService.run (RenderService.new None None)
              (take 6 thumbnail_failure_events)) as [s|] eqn:Hrun;
    [|vm_compute in Hrun; discriminate].
  destruct (thumbnail_failure_swallowed None None (take 6 thumbnail_failure_events)
              s 0 Sample.A "/tmp/bundle" (renderParams Sample.A)
              "Could not take screenshot" false 5 Hrun)
    as (s' & job' & Hstep & _ & _ & Hget & Hstatus & Hprogress & Herror & Hthumb).
  { split; [apply (bool_decide_unpack _); vm_compute; reflexivity|].
    repeat constructor. }
  { vm_compute in Hrun. injection Hrun as <-. vm_compute. reflexivity. }
  exists s', job'. split.
  - unfold after_thumbnail_failure.
    change thumbnail_failure_events
      with (take 6 thumbnail_failure_events ++ drop 6 thumbnail_failure_events).
    clear - Hstep Hrun. vm_compute in Hrun. injection Hrun as <-.
    rewrite <- Hstep. vm_compute. reflexivity.
  - repeat split; assumption.
Defined.

(** ** The bundle cache *)

Section bundle_facts.

Import RenderService.

Lemma getBundle_cached (s : t) (loc : string) :
  Js.truthy (bundleLocation s) = Some loc → getBundle s = (s, Cached loc).
Proof. intros Hloc. unfold getBundle. by rewrite Hloc. Qed.

Lemma getBundle_shared (s : t) (p : nat) :
  Js.truthy (bundleLocation s) = None →
  bundlePromise s = Some p →
  getBundle s = (s, Shared p).
Proof. intros Hloc Hp. unfold getBundle. by rewrite Hloc, Hp. Qed.

Lemma getBundle_many_cached (n : nat) (s : t) (loc : string) :
  Js.truthy (bundleLocation s) = Some loc →
  getBundle_many n s = (s, replicate n (Cached loc)).
Proof.
  intros Hloc. induction n as [|n IH]; simpl; [done|].
  by rewrite (getBundle_cached s loc Hloc), IH.
Qed.

Lemma getBundle_many_shared (n : nat) (s : t) (p : nat) :
  Js.truthy (bundleLocation s) = None →
  bundlePromise s = Some p →
  getBundle_many n s = (s, replicate n (Shared p)).
Proof.
  intros Hloc Hp. induction n as [|n IH]; simpl; [done|].
  by rewrite (getBundle_shared s p Hloc Hp), IH.
Qed.

(** Settling a pending build changes nothing but that build's promise. *)
Lemma settle_build_pending (s : t) (p : nat) (r : Settled) :
  builds s !! p = Some Pending →
  r ≠ Pending →
  settle_build p r s = Some (set_builds (<[p := r]> (builds s)) s).
Proof. intros Hp Hr. unfold settle_build. rewrite Hp. by destruct r. Qed.

Lemma builds_after_start (bs : list Settled) (r : Settled) :
  <[length bs := r]> (bs ++ [Pending]) = bs ++ [r]
  ∧ (bs ++ [Pending]) !! length bs = Some Pending
  ∧ (bs ++ [r]) !! length bs = Some r.
Proof.
  split; [|split].
  - rewrite insert_app_r_alt by lia. by rewrite Nat.sub_diag.
  - rewrite lookup_app_r by lia. by rewrite Nat.sub_diag.
  - rewrite lookup_app_r by lia. by rewrite Nat.sub_diag.
Qed.

End bundle_facts.

(** C3. [getBundle()] hands back the cached location when there is one.
    With nothing cached and no build in flight, the first call starts the
    build and every further call made while it is in flight is handed that
    same promise: after any number of calls the bundler has been invoked
    once.  While a build is in flight every call shares it.  Once the build
    has produced a location, every later call yields that location and
    none starts a build, before and after the starting call has stored the
    location. *)
Theorem getBundle_single_flight (s : RenderService.t) :
  (∀ loc n,
     RenderService.bundleLocation s = Some loc →
     Js.truthy_string loc = true →
     getBundle_many n s = (s, replicate n (Cached loc)))
  ∧ (∀ p n,
       Js.truthy (RenderService.bundleLocation s) = None →
       RenderService.bundlePromise s = Some p →
       getBundle_many n s = (s, replicate n (Shared p)))
  ∧ (Js.truthy (RenderService.bundleLocation s) = None →
     RenderService.bundlePromise s = None →
     let p := length (RenderService.builds s) in
     ∀ n, ∃ s1,
       getBundle_many (S n) s = (s1, Started p :: replicate n (Shared p))
       ∧ RenderService.builds s1 = RenderService.builds s ++ [Pending]
       ∧ ∀ loc, ∃ s2,
           RenderService.settle_build p (Fulfilled loc) s1 = Some s2
           ∧ RenderService.builds s2 = RenderService.builds s ++ [Fulfilled loc]
           ∧ RenderService.awaited s2 (Shared p) = Fulfilled loc
           ∧ (∀ m, getBundle_many m s2 = (s2, replicate m (Shared p)))
           ∧ let s3 := RenderService.getBundle_resume (Started p) loc s2 in
             ∀ m, ∃ results,
               getBundle_many m s3 = (s3, results)
               ∧ length results = m
               ∧ Forall (fun g => RenderService.awaited s3 g = Fulfilled loc) results
               ∧ Forall (fun g => ∀ p', g ≠ Started p') results).
Proof.
  split; [|split].
  - intros loc n Hloc Htruthy. apply getBundle_many_cached.
    unfold Js.truthy. by rewrite Hloc, Htruthy.
  - intros p n Hloc Hp. by apply getBundle_many_shared.
  - intros Hloc Hp p n.
    destruct (builds_after_start (RenderService.builds s) Pending) as (_ & Hpending & _).
    change (getBundle_many (S n) s)
      with (let '(s1, g) := RenderService.getBundle s in
            let '(s2, gs) := getBundle_many n s1 in (s2, g :: gs)).
    unfold RenderService.getBundle. rewrite Hloc, Hp.
    match goal with
    | |- context [getBundle_many n ?s0] => set (s1 := s0)
    end.
    rewrite (getBundle_many_shared n s1 p) by done.
    exists s1. split; [done|]. split; [done|].
    intros loc.
    destruct (builds_after_start (RenderService.builds s) (Fulfilled loc))
      as (Hinsert & _ & Hlookup).
    eexists. split; [by apply settle_build_pending|].
    split; [exact Hinsert|].
    assert (Hawaited : default Pending
              (<[p := Fulfilled loc]> (RenderService.builds s ++ [Pending]) !! p)
            = Fulfilled loc)
      by (unfold p; by rewrite Hinsert, Hlookup).
    split; [exact Hawaited|].
    split; [intros m; by apply getBundle_many_shared|].
    intros m.
    match goal with
    | |- context [getBundle_many m ?s0] => set (s3 := s0)
    end.
    destruct (Js.truthy_string loc) eqn:Htruthy.
    + exists (replicate m (Cached loc)).
      split; [apply getBundle_many_cached; simpl; by rewrite Htruthy|].
      split; [apply length_replicate|].
      split; by apply Forall_replicate.
    + exists (replicate m (Shared p)).
      split; [apply getBundle_many_shared; [simpl; by rewrite Htruthy|done]|].
      split; [apply length_replicate|].
      split; apply Forall_replicate; [|done].
      exact Hawaited.
Qed.

Lemma getBundle_single_flight_witness :
  let s := RenderService.new None None in
  ∃ s1,
    getBundle_many 3 s = (s1, [Started 0; Shared 0; Shared 0])
    ∧ length (RenderService.builds s1) = 1%nat.
Proof.
  intros s.
  destruct (getBundle_single_flight s) as (_ & _ & Hfresh).
  destruct (Hfresh eq_refl eq_refl 2%nat) as (s1 & Hcalls & Hbuilds & _).
  exists s1. split; [exact Hcalls|]. by rewrite Hbuilds.
Defined.

(** Two requests while no bundle exists: one call of the bundler, the
    second job shares the build the first one started. *)
Example two_jobs_one_build :
  ∃ s,
    RenderService.run (RenderService.new None None)
      [ RenderService.CreateJob (Sample.request "EventPromo")
          "a3f1c2d4-0001" "a3f1c2d4-0001" 1;
        RenderService.CreateJob (Sample.request "Alert")
          "b7e2d9a0-0002" "b7e2d9a0-0002" 2 ] = Some s
    ∧ RenderService.builds s = [Pending]
    ∧ map t_stage (RenderService.tasks s)
      = [AwaitBundle (Started 0); AwaitBundle (Shared 0)].
Proof.
  eexists. split; [vm_compute; reflexivity|]. split; reflexivity.
Qed.

(** ** The loop of [processQueue] *)

Section processQueue_facts.

Import RenderService.

(** The pending list is as long as the loop can need: with any larger
    bound the loop does the same, so it always leaves through its own
    test or its [break]. *)
Lemma processQueue_loop_fuel (fuel : nat) (now : Z) (s : t) :
  (length (RenderQueue.queue (queue s)) ≤ fuel)%nat →
  processQueue_loop fuel now s
  = processQueue_loop (length (RenderQueue.queue (queue s))) now s.
Proof.
  revert s. induction fuel as [|fuel IH]; intros s Hlen.
  { by replace (length (RenderQueue.queue (queue s))) with 0%nat by lia. }
  destruct (RenderQueue.queue (queue s)) as [|next rest] eqn:Hpending.
  { simpl. unfold RenderQueue.canProcess. rewrite Hpending. simpl.
    by rewrite andb_false_r. }
  simpl in Hlen. simpl.
  destruct (RenderQueue.canProcess (queue s)); [|done].
  unfold RenderQueue.dequeue. rewrite Hpending.
  destruct (Js.truthy_string next); [|done].
  destruct (RenderQueue.jobs (queue s) !! next) as [job|]; [|done].
  match goal with
  | |- context [processJob job now ?s0] => set (s1 := s0)
  end.
  assert (Hrest : RenderQueue.queue (queue (processJob job now s1)) = rest)
    by (by rewrite processJob_queue, update_queue).
  rewrite IH by (rewrite Hrest; lia). by rewrite Hrest.
Qed.

End processQueue_facts.

(** Three requests with one slot: each job is started when the one before
    it has finished, in the order of the requests. *)
Example fifo_three_jobs_one_slot :
  ∃ s,
    RenderService.run (RenderService.new None (Some 1%Q))
      [ RenderService.CreateJob (Sample.request "EventPromo")
          "a3f1c2d4-0001" "a3f1c2d4-0001" 1;
        RenderService.CreateJob (Sample.request "EventPromo")
          "b7e2d9a0-0002" "b7e2d9a0-0002" 2;
        RenderService.CreateJob (Sample.request "EventPromo")
          "c5d8e1f6-0003" "c5d8e1f6-0003" 3;
        RenderService.BuildSettled 0 (Fulfilled "/tmp/bundle");
        RenderService.BundleAwaited 0 4;
        RenderService.Selected 0 Ok 5;
        RenderService.Rendered 0 Ok 6;
        RenderService.StillRendered 0 Ok true 7;
        RenderService.BundleAwaited 1 8;
        RenderService.Selected 1 (Threw "No composition") 9 ] = Some s
    ∧ map t_job (RenderService.tasks s) = [Sample.A; Sample.B; Sample.C]
    ∧ map t_stage (RenderService.tasks s)
      = [Done Ok; Done (Threw "No composition"); AwaitBundle (Cached "/tmp/bundle")]
    ∧ RenderQueue.queue (RenderService.queue s) = [].
Proof.
  eexists. split; [vm_compute; reflexivity|]. repeat split; reflexivity.
Qed.

(** ** The bookkeeping of jobs and calls along a run *)

Section accounting.

Import RenderService.

Lemma as_created_assign (job : RenderJob.t) (u : RenderJob.partial) :
  as_created (RenderJob.assign job u) = as_created job.
Proof. reflexivity. Qed.

Lemma as_created_id (job : RenderJob.t) : RenderJob.id (as_created job) = RenderJob.id job.
Proof. reflexivity. Qed.


Lemma created_jobs_ids (outputDir : string) (events : list Event) :
  RenderJob.id <$> created_jobs outputDir events = created events.
Proof.
  induction events as [|e events IH]; [done|].
  change (created_jobs outputDir (e :: events))
    with (match created_job outputDir e with
          | Some job => job :: created_jobs outputDir events
          | None => created_jobs outputDir events
          end).
  change (created (e :: events))
    with (match created_id e with
          | Some jobId => jobId :: created events
          | None => created events
          end).
  destruct e; try exact IH.
  unfold created_job, created_id.
  destruct (Compositions.get _); [|exact IH].
  by rewrite fmap_cons, IH.
Qed.

Lemma created_jobs_pristine (outputDir : string) (events : list Event) :
  Forall (fun job => as_created job = job) (created_jobs outputDir events).
Proof.
  induction events as [|e events IH]; [constructor|].
  change (created_jobs outputDir (e :: events))
    with (match created_job outputDir e with
          | Some job => job :: created_jobs outputDir events
          | None => created_jobs outputDir events
          end).
  destruct e; try exact IH.
  unfold created_job.
  destruct (Compositions.get _); [|exact IH].
  constructor; [reflexivity|exact IH].
Qed.

Lemma stage_ok_clean (stage : Stage) (stored : RenderJob.t) :
  live {| t_job := stored; t_stage := stage |} →
  stage_ok stage stored → RenderJob.error stored = None.
Proof.
  destruct stage as [g|loc|loc call|loc call|[|message]]; simpl; intros Hl Hs;
    try done.
  - by destruct Hs as (_ & _ & ? & _).
  - by destruct Hs as (_ & _ & ? & _).
  - by destruct Hs as (_ & ? & _).
  - by destruct Hs as (_ & ? & _).
Qed.

Lemma task_ids_t_job (s : t) : task_ids s = RenderJob.id <$> (t_job <$> tasks s).
Proof. unfold task_ids. by rewrite <- list_fmap_compose. Qed.

(** The bookkeeping includes the well-formedness used so far. *)
Lemma acct_wf (jobs : list RenderJob.t) (s : t) :
  jobs_ok jobs → acct jobs s → wf (RenderJob.id <$> jobs) s.
Proof.
  intros [_ Hpristine] [Hkeys (waiting & Hjobs & Hpending & Hwaiting) Htasks _ _].
  split.
  - done.
  - by rewrite Hjobs, fmap_app, task_ids_t_job, Hpending.
  - intros jobId Hin. rewrite Hpending in Hin.
    apply list_elem_of_fmap in Hin as (job & -> & Hin).
    exists job. split; [by apply Hwaiting|].
    rewrite Forall_forall in Hpristine.
    rewrite <- (Hpristine job); [done|].
    rewrite Hjobs. apply elem_of_app. by right.
  - intros i task Htask Hl.
    destruct (Htasks i task Htask) as (stored & Hstored & _ & Hstage).
    exists stored. split; [done|].
    apply (stage_ok_clean (t_stage task)); [|done]. by destruct task.
Qed.

Lemma acct_ext (jobs : list RenderJob.t) (s s' : t) :
  RenderQueue.jobs (queue s') = RenderQueue.jobs (queue s) →
  RenderQueue.queue (queue s') = RenderQueue.queue (queue s) →
  RenderQueue.processing (queue s') = RenderQueue.processing (queue s) →
  tasks s' = tasks s →
  acct jobs s → acct jobs s'.
Proof.
  intros Hj Hq Hp Ht [Hkeys Horder Htasks Hdom Hslots].
  split; unfold keys_ok; rewrite ?Hj, ?Hq, ?Hp, ?Ht; done.
Qed.

Lemma update_jobs (jobId : string) (u : RenderJob.partial) (q : RenderQueue.t)
    (stored : RenderJob.t) :
  RenderQueue.jobs q !! jobId = Some stored →
  RenderQueue.jobs (RenderQueue.update jobId u q)
  = <[jobId := RenderJob.assign stored u]> (RenderQueue.jobs q).
Proof. intros Hstored. unfold RenderQueue.update. by rewrite Hstored. Qed.

Lemma update_processing (jobId : string) (u : RenderJob.partial) (q : RenderQueue.t) :
  RenderQueue.processing (RenderQueue.update jobId u q) = RenderQueue.processing q.
Proof. unfold RenderQueue.update. by destruct (RenderQueue.jobs q !! jobId). Qed.

Lemma update_maxConcurrent (jobId : string) (u : RenderJob.partial) (q : RenderQueue.t) :
  RenderQueue.maxConcurrent (RenderQueue.update jobId u q) = RenderQueue.maxConcurrent q.
Proof. unfold RenderQueue.update. by destruct (RenderQueue.jobs q !! jobId). Qed.

(** The record of call [i] is replaced and the call moves to stage [new];
    if that settles the call, its id leaves the processing set. *)
Lemma acct_replace (jobs : list RenderJob.t) (s s' : t) (i : nat) (job : RenderJob.t)
    (old new : Stage) (stored' : RenderJob.t) :
  jobs_ok jobs →
  acct jobs s →
  tasks s !! i = Some {| t_job := job; t_stage := old |} →
  live {| t_job := job; t_stage := old |} →
  as_created stored' = job →
  stage_ok new stored' →
  tasks s' = <[i := {| t_job := job; t_stage := new |}]> (tasks s) →
  RenderQueue.jobs (queue s')
  = <[RenderJob.id job := stored']> (RenderQueue.jobs (queue s)) →
  RenderQueue.queue (queue s') = RenderQueue.queue (queue s) →
  (live {| t_job := job; t_stage := new |}
   ∧ RenderQueue.processing (queue s') = RenderQueue.processing (queue s))
  ∨ (¬ live {| t_job := job; t_stage := new |}
     ∧ RenderQueue.processing (queue s')
       = RenderQueue.processing (queue s) ∖ {[RenderJob.id job]}) →
  acct jobs s'.
Proof.
  intros Hok Hacct Htask Hold Hcreated Hstage Htasks' Hjobs' Hpending' Hproc'.
  pose proof (acct_wf _ _ Hok Hacct) as Hwf.
  destruct (wf_task_unique _ s i _ (proj1 Hok) Hwf Htask) as [Hnotin Hunique].
  simpl in Hnotin, Hunique.
  destruct Hacct as [Hkeys (waiting & Hjobs & Hpending & Hwaiting) Htasks Hdom Hslots].
  assert (Hi : (i < length (tasks s))%nat) by (by eapply lookup_lt_Some).
  assert (Hother : ∀ j task, j ≠ i → tasks s !! j = Some task →
            RenderJob.id (t_job task) ≠ RenderJob.id job).
  { intros j task Hne Hj Hsame. by apply Hne, (Hunique j task). }
  split.
  - intros jobId stored Hlookup. rewrite Hjobs' in Hlookup.
    destruct (decide (RenderJob.id job = jobId)) as [<-|Hne].
    + rewrite lookup_insert_eq in Hlookup. injection Hlookup as <-.
      by rewrite <- Hcreated.
    + rewrite lookup_insert_ne in Hlookup by done. by apply Hkeys.
  - exists waiting. split; [|split].
    + rewrite Htasks', list_fmap_insert. simpl.
      rewrite list_insert_id; [done|]. by rewrite list_lookup_fmap, Htask.
    + by rewrite Hpending'.
    + intros w Hw. rewrite Hjobs', lookup_insert_ne; [by apply Hwaiting|].
      intros Heq. apply Hnotin. rewrite Hpending, Heq.
      apply list_elem_of_fmap. by exists w.
  - intros j task Hj. rewrite Htasks', list_lookup_insert in Hj.
    case_decide as Hij.
    + injection Hj as <-. simpl. exists stored'.
      by rewrite Hjobs', lookup_insert_eq.
    + assert (Hne : j ≠ i) by (intros ->; by apply Hij).
      destruct (Htasks j task Hj) as (stored & Hstored & Hc & Hs).
      exists stored. rewrite Hjobs', lookup_insert_ne; [done|].
      intros Heq. by apply (Hother j task).
  - rewrite Hjobs', dom_insert_L, <- Hdom.
    destruct (Htasks i _ Htask) as (stored & Hstored & _). simpl in Hstored.
    apply elem_of_dom_2 in Hstored. set_solver.
  - intros jobId. destruct Hproc' as [[Hnew ->]|[Hnew ->]].
    + rewrite Hslots. split; intros (j & task & Hj & Hl & Hid).
      * destruct (decide (j = i)) as [->|Hne].
        -- rewrite Htask in Hj. injection Hj as <-. simpl in Hid.
           exists i, {| t_job := job; t_stage := new |}.
           rewrite Htasks', list_lookup_insert_eq by done. done.
        -- exists j, task. by rewrite Htasks', list_lookup_insert_ne.
      * rewrite Htasks', list_lookup_insert in Hj. case_decide as Hij.
        -- injection Hj as <-. simpl in Hid.
           by exists i, {| t_job := job; t_stage := old |}.
        -- by exists j, task.
    + rewrite elem_of_difference, elem_of_singleton, Hslots.
      split.
      * intros [(j & task & Hj & Hl & Hid) Hne].
        assert (Hji : j ≠ i).
        { intros ->. rewrite Htask in Hj. injection Hj as <-. by apply Hne. }
        exists j, task. by rewrite Htasks', list_lookup_insert_ne.
      * intros (j & task & Hj & Hl & Hid).
        rewrite Htasks', list_lookup_insert in Hj. case_decide as Hij.
        { injection Hj as <-. by destruct Hnew. }
        assert (Hji : j ≠ i) by (intros ->; by apply Hij).
        split; [by exists j, task|].
        intros ->. by apply (Hother j task).
Qed.

(** A pristine record that is started. *)
Lemma stage_ok_started (job : RenderJob.t) (g : GetBundle) (now : Z) :
  as_created job = job →
  stage_ok (AwaitBundle g) (RenderJob.assign job (bundling_update now)).
Proof.
  intros <-. simpl. repeat split; by eauto.
Qed.

(** One turn of the loop: the oldest waiting job is started. *)
Lemma acct_start (jobs : list RenderJob.t) (next : string) (rest : list string)
    (now : Z) (s : t) :
  jobs_ok jobs →
  acct jobs s →
  RenderQueue.queue (queue s) = next :: rest →
  ∃ job,
    RenderQueue.dequeue (queue s) = ((RenderQueue.dequeue (queue s)).1, Some job)
    ∧ RenderQueue.jobs (queue s) !! next = Some job
    ∧ RenderJob.id job = next
    ∧ as_created job = job
    ∧ RenderQueue.queue
        (queue (processJob job now (set_queue (RenderQueue.dequeue (queue s)).1 s)))
      = rest
    ∧ RenderQueue.processing
        (queue (processJob job now (set_queue (RenderQueue.dequeue (queue s)).1 s)))
      = {[next]} ∪ RenderQueue.processing (queue s)
    ∧ acct jobs (processJob job now (set_queue (RenderQueue.dequeue (queue s)).1 s)).
Proof.
  intros Hok Hacct Hq.
  destruct Hok as [[Hnd Htruthy] Hpristine].
  destruct Hacct as [Hkeys (waiting & Hjobs & Hpending & Hwaiting) Htasks Hdom Hslots].
  rewrite Hq in Hpending.
  destruct waiting as [|job waiting]; [done|].
  rewrite fmap_cons in Hpending. injection Hpending as -> ->.
  assert (Hjob : RenderQueue.jobs (queue s) !! RenderJob.id job = Some job).
  { apply Hwaiting. by left. }
  assert (Hin : job ∈ jobs) by (rewrite Hjobs; apply elem_of_app; right; by left).
  assert (Hjobp : as_created job = job).
  { rewrite Forall_forall in Hpristine. by apply Hpristine. }
  assert (Htr : Js.truthy_string (RenderJob.id job) = true).
  { rewrite Forall_forall in Htruthy. apply Htruthy.
    apply list_elem_of_fmap. by exists job. }
  rewrite Hjobs, fmap_app, fmap_cons in Hnd.
  apply NoDup_app in Hnd as (_ & Hdisjoint & Hnd).
  apply NoDup_cons in Hnd as [Hfresh _].
  assert (Hstarted : ∀ j task, tasks s !! j = Some task →
            RenderJob.id (t_job task) ≠ RenderJob.id job).
  { intros j task Hj Heq. apply (Hdisjoint (RenderJob.id (t_job task))).
    - apply list_elem_of_fmap. exists (t_job task). split; [done|].
      apply list_elem_of_fmap. exists task. split; [done|].
      by eapply list_elem_of_lookup_2.
    - rewrite Heq. by left. }
  unfold RenderQueue.dequeue. rewrite Hq, Htr, Hjob. simpl.
  exists job. split; [done|]. split; [done|]. split; [done|]. split; [done|].
  match goal with
  | |- context [processJob job now ?s0] => set (s1 := s0)
  end.
  destruct (processJob_tasks job now s1) as [g Htasks1].
  pose proof (processJob_queue job now s1) as Hqueue1.
  assert (Hjobs1 : RenderQueue.jobs (queue (processJob job now s1))
                   = <[RenderJob.id job := RenderJob.assign job (bundling_update now)]>
                       (RenderQueue.jobs (queue s))).
  { rewrite Hqueue1, (update_jobs _ _ _ job); [reflexivity|exact Hjob]. }
  split; [by rewrite Hqueue1, update_queue|].
  split; [by rewrite Hqueue1, update_processing|].
  split.
  - rewrite Hqueue1. by apply keys_ok_update.
  - exists waiting. split; [|split].
    + rewrite Htasks1, fmap_app, <- app_assoc. done.
    + by rewrite Hqueue1, update_queue.
    + intros w Hw. rewrite Hjobs1, lookup_insert_ne.
      * apply Hwaiting. by right.
      * intros Heq. apply Hfresh. rewrite Heq.
        apply list_elem_of_fmap. by exists w.
  - intros j task Hj. rewrite Htasks1 in Hj.
    apply lookup_app_Some in Hj as [Hj|[_ Hj]].
    + destruct (Htasks j task Hj) as (stored & Hstored & Hc & Hs).
      exists stored. rewrite Hjobs1, lookup_insert_ne; [done|].
      intros Heq. by apply (Hstarted j task).
    + apply list_lookup_singleton_Some in Hj as [_ <-]. simpl.
      exists (RenderJob.assign job (bundling_update now)).
      rewrite Hjobs1, lookup_insert_eq.
      split; [done|]. split; [by rewrite as_created_assign|].
      by apply stage_ok_started.
  - rewrite Hjobs1, dom_insert_L, <- Hdom.
    apply elem_of_dom_2 in Hjob. set_solver.
  - intros jobId. rewrite Hqueue1, update_processing. simpl.
    rewrite elem_of_union, elem_of_singleton, Hslots, Htasks1. split.
    + intros [->|(j & task & Hj & Hl & Hid)].
      * exists (length (tasks s1)), {| t_job := job; t_stage := AwaitBundle g |}.
        split; [|done]. rewrite lookup_app_r by lia.
        by rewrite Nat.sub_diag.
      * exists j, task. split; [|done]. by apply lookup_app_l_Some.
    + intros (j & task & Hj & Hl & Hid).
      apply lookup_app_Some in Hj as [Hj|[_ Hj]].
      * right. by exists j, task.
      * apply list_lookup_singleton_Some in Hj as [_ <-]. simpl in Hid.
        left. by rewrite <- Hid.
Qed.

Lemma acct_set_isProcessing (jobs : list RenderJob.t) (b : bool) (s : t) :
  acct jobs s → acct jobs (set_isProcessing b s).
Proof. by apply acct_ext. Qed.

Lemma acct_processQueue_loop (jobs : list RenderJob.t) (fuel : nat) (now : Z) (s : t) :
  jobs_ok jobs → acct jobs s → acct jobs (processQueue_loop fuel now s).
Proof.
  intros Hok. revert s. induction fuel as [|fuel IH]; intros s Hacct; simpl; [done|].
  destruct (RenderQueue.canProcess (queue s)); [|done].
  destruct (RenderQueue.queue (queue s)) as [|next rest] eqn:Hq.
  { rewrite dequeue_empty by done. by apply (acct_ext jobs s). }
  destruct (acct_start jobs next rest now s Hok Hacct Hq)
    as (job & -> & _ & _ & _ & _ & _ & Hacct').
  by apply IH.
Qed.

Lemma acct_processQueue (jobs : list RenderJob.t) (now : Z) (s : t) :
  jobs_ok jobs → acct jobs s → acct jobs (processQueue now s).
Proof.
  intros Hok Hacct. unfold processQueue. destruct (isProcessing s); [done|].
  apply acct_set_isProcessing, acct_processQueue_loop; [done|].
  by apply acct_set_isProcessing.
Qed.

(** With the pending list as bound, the loop stops only when nothing can
    be started: no free slot, or nothing pending. *)
Lemma processQueue_loop_drains (jobs : list RenderJob.t) (fuel : nat) (now : Z) (s : t) :
  jobs_ok jobs →
  acct jobs s →
  (length (RenderQueue.queue (queue s)) ≤ fuel)%nat →
  RenderQueue.canProcess (queue (processQueue_loop fuel now s)) = false.
Proof.
  intros Hok. revert s. induction fuel as [|fuel IH]; intros s Hacct Hlen; simpl.
  - unfold RenderQueue.canProcess.
    destruct (RenderQueue.queue (queue s)); [|simpl in Hlen; lia].
    simpl. apply andb_false_r.
  - destruct (RenderQueue.canProcess (queue s)) eqn:Hcan; [|done].
    destruct (RenderQueue.queue (queue s)) as [|next rest] eqn:Hq.
    { unfold RenderQueue.canProcess in Hcan. rewrite Hq in Hcan. simpl in Hcan.
      by rewrite andb_false_r in Hcan. }
    destruct (acct_start jobs next rest now s Hok Hacct Hq)
      as (job & Hdq & _ & _ & _ & Hrest & _ & Hacct').
    rewrite Hdq. apply IH; [done|]. simpl in Hlen |- *. rewrite Hrest. lia.
Qed.

Lemma processQueue_drains (jobs : list RenderJob.t) (now : Z) (s : t) :
  jobs_ok jobs →
  acct jobs s →
  isProcessing s = false →
  RenderQueue.canProcess (queue (processQueue now s)) = false
  ∧ isProcessing (processQueue now s) = false.
Proof.
  intros Hok Hacct Hidle. unfold processQueue. rewrite Hidle. split; [|done].
  simpl. apply (processQueue_loop_drains jobs); [done| |done].
  by apply acct_set_isProcessing.
Qed.

(** *** The transitions of a call *)

Lemma acct_task_stored (jobs : list RenderJob.t) (s : t) (i : nat) (task : Task) :
  acct jobs s →
  tasks s !! i = Some task →
  ∃ stored,
    RenderQueue.jobs (queue s) !! RenderJob.id (t_job task) = Some stored
    ∧ as_created stored = t_job task
    ∧ stage_ok (t_stage task) stored.
Proof. intros [_ _ Htasks _ _]. apply Htasks. Qed.

Lemma acct_updated (jobs : list RenderJob.t) (s : t) (i : nat) (job : RenderJob.t)
    (old new : Stage) (u : RenderJob.partial) :
  jobs_ok jobs →
  acct jobs s →
  tasks s !! i = Some {| t_job := job; t_stage := old |} →
  live {| t_job := job; t_stage := old |} →
  live {| t_job := job; t_stage := new |} →
  (∀ stored, stage_ok old stored → stage_ok new (RenderJob.assign stored u)) →
  acct jobs (set_stage i job new (update (RenderJob.id job) u s)).
Proof.
  intros Hok Hacct Htask Hold Hnew Hstage.
  destruct (acct_task_stored _ _ _ _ Hacct Htask) as (stored & Hstored & Hc & Hs).
  simpl in Hstored, Hc, Hs.
  apply (acct_replace jobs s _ i job old new (RenderJob.assign stored u));
    try done.
  - by apply Hstage.
  - simpl. by apply update_jobs.
  - simpl. apply update_queue.
  - left. split; [done|]. simpl. apply update_processing.
Qed.

Lemma acct_staged (jobs : list RenderJob.t) (s : t) (i : nat) (job : RenderJob.t)
    (old new : Stage) :
  jobs_ok jobs →
  acct jobs s →
  tasks s !! i = Some {| t_job := job; t_stage := old |} →
  live {| t_job := job; t_stage := old |} →
  live {| t_job := job; t_stage := new |} →
  (∀ stored, stage_ok old stored → stage_ok new stored) →
  acct jobs (set_stage i job new s).
Proof.
  intros Hok Hacct Htask Hold Hnew Hstage.
  destruct (acct_task_stored _ _ _ _ Hacct Htask) as (stored & Hstored & Hc & Hs).
  simpl in Hstored, Hc, Hs.
  apply (acct_replace jobs s _ i job old new stored); try done.
  - by apply Hstage.
  - simpl. by rewrite insert_id.
  - by left.
Qed.

Lemma acct_progressed (jobs : list RenderJob.t) (s : t) (i : nat) (job : RenderJob.t)
    (old : Stage) (u : RenderJob.partial) :
  jobs_ok jobs →
  acct jobs s →
  tasks s !! i = Some {| t_job := job; t_stage := old |} →
  live {| t_job := job; t_stage := old |} →
  (∀ stored, stage_ok old stored → stage_ok old (RenderJob.assign stored u)) →
  acct jobs (update (RenderJob.id job) u s).
Proof.
  intros Hok Hacct Htask Hold Hstage.
  destruct (acct_task_stored _ _ _ _ Hacct Htask) as (stored & Hstored & Hc & Hs).
  simpl in Hstored, Hc, Hs.
  apply (acct_replace jobs s _ i job old old (RenderJob.assign stored u));
    try done.
  - by apply Hstage.
  - simpl. by rewrite list_insert_id.
  - simpl. by apply update_jobs.
  - simpl. apply update_queue.
  - left. split; [done|]. simpl. apply update_processing.
Qed.

(** The last update of a call followed by the [finally] block. *)
Lemma acct_settled (jobs : list RenderJob.t) (s : t) (i : nat) (job : RenderJob.t)
    (old : Stage) (outcome : Result) (u : RenderJob.partial) (now : Z) :
  jobs_ok jobs →
  acct jobs s →
  isProcessing s = false →
  tasks s !! i = Some {| t_job := job; t_stage := old |} →
  live {| t_job := job; t_stage := old |} →
  (∀ stored, stage_ok old stored → stage_ok (Done outcome) (RenderJob.assign stored u)) →
  acct jobs (finish i job outcome now (update (RenderJob.id job) u s))
  ∧ isProcessing (finish i job outcome now (update (RenderJob.id job) u s)) = false
  ∧ RenderQueue.canProcess
      (queue (finish i job outcome now (update (RenderJob.id job) u s))) = false.
Proof.
  intros Hok Hacct Hidle Htask Hold Hstage.
  destruct (acct_task_stored _ _ _ _ Hacct Htask) as (stored & Hstored & Hc & Hs).
  simpl in Hstored, Hc, Hs.
  unfold finish.
  match goal with
  | |- acct jobs (processQueue now ?s0) ∧ _ => set (pre := s0)
  end.
  assert (Hpre : acct jobs pre).
  { apply (acct_replace jobs s pre i job old (Done outcome) (RenderJob.assign stored u));
      try done.
    - by apply Hstage.
    - simpl. by apply update_jobs.
    - simpl. apply update_queue.
    - right. split; [by intros []|]. simpl. by rewrite update_processing. }
  split; [by apply acct_processQueue|].
  destruct (processQueue_drains jobs now pre Hok Hpre Hidle) as [Hcan Hidle'].
  by split.
Qed.

Lemma stage_ok_failed (job stored : RenderJob.t) (old : Stage) (message : string)
    (now : Z) :
  live {| t_job := job; t_stage := old |} →
  stage_ok old stored →
  stage_ok (Done (Threw message)) (RenderJob.assign stored (failed_update message now)).
Proof.
  destruct old as [g|loc|loc call|loc call|outcome]; simpl; intros Hl Hs; try done.
  - destruct Hs as (_ & _ & _ & ? & ? & _). repeat split; by eauto.
  - destruct Hs as (_ & _ & _ & ? & ? & _). repeat split; by eauto.
  - destruct Hs as (_ & _ & ? & ? & _). repeat split; by eauto.
  - destruct Hs as (_ & _ & ? & ? & _). repeat split; by eauto.
Qed.

Lemma acct_failed (jobs : list RenderJob.t) (s : t) (i : nat) (job : RenderJob.t)
    (old : Stage) (message : string) (now : Z) :
  jobs_ok jobs →
  acct jobs s →
  isProcessing s = false →
  tasks s !! i = Some {| t_job := job; t_stage := old |} →
  live {| t_job := job; t_stage := old |} →
  acct jobs (fail i job message now s)
  ∧ isProcessing (fail i job message now s) = false
  ∧ RenderQueue.canProcess (queue (fail i job message now s)) = false.
Proof.
  intros Hok Hacct Hidle Htask Hold. unfold fail.
  apply (acct_settled jobs s i job old); try done.
  intros stored. by apply (stage_ok_failed job).
Qed.

(** [add] of a new job literal. *)
Lemma acct_add (jobs : list RenderJob.t) (job : RenderJob.t) (s : t) :
  jobs_ok (jobs ++ [job]) →
  acct jobs s →
  acct (jobs ++ [job]) (set_queue (RenderQueue.add job (queue s)) s).
Proof.
  intros [[Hnd _] _] [Hkeys (waiting & Hjobs & Hpending & Hwaiting) Htasks Hdom Hslots].
  rewrite fmap_app in Hnd. apply NoDup_app in Hnd as (_ & Hfresh & _).
  assert (Hother : ∀ other, other ∈ jobs → RenderJob.id other ≠ RenderJob.id job).
  { intros other Hin Heq. apply (Hfresh (RenderJob.id other)).
    - apply list_elem_of_fmap. by exists other.
    - rewrite Heq. by left. }
  split; simpl.
  - intros jobId stored Hlookup. simpl in Hlookup.
    destruct (decide (RenderJob.id job = jobId)) as [<-|Hne].
    + rewrite lookup_insert_eq in Hlookup. by injection Hlookup as <-.
    + rewrite lookup_insert_ne in Hlookup by done. by apply Hkeys.
  - exists (waiting ++ [job]). split; [|split].
    + by rewrite Hjobs, app_assoc.
    + by rewrite Hpending, fmap_app.
    + intros w Hw. apply elem_of_app in Hw as [Hw|Hw].
      * rewrite lookup_insert_ne; [by apply Hwaiting|].
        intros Heq. apply (Hother w); [|done].
        rewrite Hjobs. apply elem_of_app. by right.
      * apply list_elem_of_singleton in Hw as ->. apply lookup_insert_eq.
  - intros i task Htask.
    destruct (Htasks i task Htask) as (stored & Hstored & Hc & Hs).
    exists stored. rewrite lookup_insert_ne; [done|].
    intros Heq. apply (Hother (t_job task)); [|done].
    rewrite Hjobs. apply elem_of_app. left.
    apply list_elem_of_fmap. exists task. split; [done|].
    by eapply list_elem_of_lookup_2.
  - rewrite dom_insert_L, Hdom, fmap_app, list_to_set_app_L. simpl. set_solver.
  - done.
Qed.

(** *** Every event *)

Lemma processQueue_loop_outputDir (fuel : nat) (now : Z) (s : t) :
  outputDir (processQueue_loop fuel now s) = outputDir s.
Proof.
  revert s. induction fuel as [|fuel IH]; intros s; simpl; [done|].
  destruct (RenderQueue.canProcess (queue s)); [|done].
  destruct (RenderQueue.dequeue (queue s)) as [q' [job|]]; [|done].
  rewrite IH. unfold processJob.
  match goal with
  | |- context [getBundle ?s0] => destruct (getBundle s0) as [s2 g] eqn:Hg
  end.
  unfold getBundle in Hg. simpl in Hg.
  destruct (Js.truthy (bundleLocation s)); [by injection Hg as <- <-|].
  destruct (bundlePromise s); by injection Hg as <- <-.
Qed.

Lemma processQueue_outputDir (now : Z) (s : t) :
  outputDir (processQueue now s) = outputDir s.
Proof.
  unfold processQueue. destruct (isProcessing s); [done|].
  simpl. by rewrite processQueue_loop_outputDir.
Qed.

Lemma step_outputDir (s s' : t) (e : Event) :
  step s e = Some s' → outputDir s' = outputDir s.
Proof.
  intros Hstep.
  destruct e as [input uuidFile uuidId now| |p r|i now|i r now
                |i progress encodedFrames|i r now|i r thumbnailExists now
                |listened cb|listened cb];
    simpl in Hstep.
  - injection Hstep as <-. unfold createJob.
    destruct (Compositions.get (RenderJobInput.compositionId input));
      [|done].
    simpl. by rewrite processQueue_outputDir.
  - by injection Hstep as <-.
  - unfold settle_build in Hstep.
    destruct r; [done| |];
      (destruct (builds s !! p) as [[]|]; [|done..]; by injection Hstep as <-).
  - destruct (tasks s !! i) as [[job [g|loc|loc call|loc call|outcome]]|]; try done.
    destruct (awaited s g) as [|loc|message]; [done| |]; injection Hstep as <-.
    + by destruct g.
    + unfold fail, finish. by rewrite processQueue_outputDir.
  - destruct (tasks s !! i) as [[job [g|loc|loc call|loc call|outcome]]|]; try done.
    destruct r; injection Hstep as <-; [done|].
    unfold fail, finish. by rewrite processQueue_outputDir.
  - destruct (tasks s !! i) as [[job [g|loc|loc call|loc call|outcome]]|]; try done.
    by injection Hstep as <-.
  - destruct (tasks s !! i) as [[job [g|loc|loc call|loc call|outcome]]|]; try done.
    destruct r; injection Hstep as <-; [done|].
    unfold fail, finish. by rewrite processQueue_outputDir.
  - destruct (tasks s !! i) as [[job [g|loc|loc call|loc call|outcome]]|]; try done.
    injection Hstep as <-. unfold finish. by rewrite processQueue_outputDir.
  - by injection Hstep as <-.
  - by injection Hstep as <-.
Qed.

Lemma run_outputDir (events : list Event) (s s' : t) :
  run s events = Some s' → outputDir s' = outputDir s.
Proof.
  revert s. induction events as [|e events IH]; intros s Hrun; simpl in Hrun.
  - by injection Hrun as <-.
  - destruct (step s e) as [s1|] eqn:Hstep; [|done].
    rewrite (IH _ Hrun). by eapply step_outputDir.
Qed.

Lemma canProcess_ext (q q' : RenderQueue.t) :
  RenderQueue.queue q' = RenderQueue.queue q →
  RenderQueue.processing q' = RenderQueue.processing q →
  RenderQueue.maxConcurrent q' = RenderQueue.maxConcurrent q →
  RenderQueue.canProcess q' = RenderQueue.canProcess q.
Proof. unfold RenderQueue.canProcess. by intros -> -> ->. Qed.

Lemma canProcess_update (jobId : string) (u : RenderJob.partial) (q : RenderQueue.t) :
  RenderQueue.canProcess (RenderQueue.update jobId u q) = RenderQueue.canProcess q.
Proof.
  apply canProcess_ext;
    [apply update_queue|apply update_processing|apply update_maxConcurrent].
Qed.

Lemma steady_ext (jobs : list RenderJob.t) (s s' : t) :
  RenderQueue.jobs (queue s') = RenderQueue.jobs (queue s) →
  RenderQueue.queue (queue s') = RenderQueue.queue (queue s) →
  RenderQueue.processing (queue s') = RenderQueue.processing (queue s) →
  RenderQueue.maxConcurrent (queue s') = RenderQueue.maxConcurrent (queue s) →
  tasks s' = tasks s →
  isProcessing s' = isProcessing s →
  steady jobs s → steady jobs s'.
Proof.
  intros Hj Hq Hp Hm Ht Hi (Hacct & Hidle & Hcan). split; [|split].
  - by apply (acct_ext jobs s).
  - by rewrite Hi.
  - rewrite <- Hcan. by apply canProcess_ext.
Qed.

Lemma steady_step (jobs : list RenderJob.t) (e : Event) (s s' : t) :
  jobs_ok (jobs ++ option_list (created_job (outputDir s) e)) →
  steady jobs s →
  step s e = Some s' →
  steady (jobs ++ option_list (created_job (outputDir s) e)) s'.
Proof.
  intros Hok Hsteady Hstep.
  destruct e as [input uuidFile uuidId now| |p r|i now|i r now
                |i progress encodedFrames|i r now|i r thumbnailExists now
                |listened cb|listened cb];
    simpl in Hstep, Hok |- *.
  - injection Hstep as <-. unfold createJob.
    destruct (Compositions.get (RenderJobInput.compositionId input))
      as [composition|] eqn:Hc; simpl in *.
    2:{ by rewrite app_nil_r. }
    destruct Hsteady as (Hacct & Hidle & Hcan).
    match goal with
    | |- steady _ (processQueue now ?s0) => set (s1 := s0)
    end.
    assert (Hacct1 : acct (jobs ++ [newJob (outputDir s) input composition
                                      uuidFile uuidId now]) s1)
      by (by apply acct_add).
    split; [by apply acct_processQueue|].
    destruct (processQueue_drains _ now s1 Hok Hacct1 Hidle) as [Hcan' Hidle'].
    by split.
  - injection Hstep as <-. rewrite app_nil_r. by apply (steady_ext jobs s).
  - rewrite app_nil_r. unfold settle_build in Hstep.
    destruct r; [done| |];
      (destruct (builds s !! p) as [[]|]; [|done..];
       injection Hstep as <-; by apply (steady_ext jobs s)).
  - rewrite app_nil_r in *.
    destruct (tasks s !! i) as [[job [g|loc|loc call|loc call|outcome]]|] eqn:Htask;
      try done.
    destruct (awaited s g) as [|loc|message]; [done| |].
    + injection Hstep as <-.
      assert (Hsteady1 : steady jobs (getBundle_resume g loc s))
        by (destruct g; by apply (steady_ext jobs s)).
      assert (Htask1 : tasks (getBundle_resume g loc s) !! i
                       = Some {| t_job := job; t_stage := AwaitBundle g |})
        by (by destruct g).
      destruct Hsteady1 as (Hacct1 & Hidle1 & Hcan1).
      split; [|split].
      * apply (acct_updated jobs _ i job (AwaitBundle g)); try done.
        intros stored (? & ? & ? & ? & ? & ?). by repeat split.
      * done.
      * simpl. by rewrite canProcess_update.
    + injection Hstep as <-. destruct Hsteady as (Hacct & Hidle & Hcan).
      by apply (acct_failed jobs s i job (AwaitBundle g)).
  - rewrite app_nil_r in *.
    destruct (tasks s !! i) as [[job [g|loc|loc call|loc call|outcome]]|] eqn:Htask;
      try done.
    destruct Hsteady as (Hacct & Hidle & Hcan).
    destruct r; injection Hstep as <-.
    + split; [|by split].
      apply (acct_staged jobs s i job (AwaitSelect loc)); try done.
      intros stored (? & ? & ? & ? & ? & ?). repeat split; by eauto.
    + by apply (acct_failed jobs s i job (AwaitSelect loc)).
  - rewrite app_nil_r in *.
    destruct (tasks s !! i) as [[job [g|loc|loc call|loc call|outcome]]|] eqn:Htask;
      try done.
    destruct Hsteady as (Hacct & Hidle & Hcan).
    injection Hstep as <-. split; [|split].
    + apply (acct_progressed jobs s i job (AwaitRender loc call)); try done.
      intros stored (? & ? & ? & ? & ?). simpl.
      repeat split; try done. destruct (0 <? encodedFrames); by eauto.
    + done.
    + simpl. by rewrite canProcess_update.
  - rewrite app_nil_r in *.
    destruct (tasks s !! i) as [[job [g|loc|loc call|loc call|outcome]]|] eqn:Htask;
      try done.
    destruct Hsteady as (Hacct & Hidle & Hcan).
    destruct r; injection Hstep as <-.
    + split; [|by split].
      by apply (acct_staged jobs s i job (AwaitRender loc call)).
    + by apply (acct_failed jobs s i job (AwaitRender loc call)).
  - rewrite app_nil_r in *.
    destruct (tasks s !! i) as [[job [g|loc|loc call|loc call|outcome]]|] eqn:Htask;
      try done.
    destruct Hsteady as (Hacct & Hidle & Hcan).
    injection Hstep as <-.
    apply (acct_settled jobs s i job (AwaitStill loc call)); try done.
    intros stored (? & ? & ? & ? & ?). simpl. repeat split; by eauto.
  - injection Hstep as <-. rewrite app_nil_r. by apply (steady_ext jobs s).
  - injection Hstep as <-. rewrite app_nil_r.
    apply (steady_ext jobs s); try done;
      unfold RenderQueue.unsubscribe; simpl;
      by destruct (RenderQueue.listeners (queue s) !! listened).
Qed.

Lemma jobs_ok_app_l (jobs more : list RenderJob.t) :
  jobs_ok (jobs ++ more) → jobs_ok jobs.
Proof.
  intros [Hids Hpristine]. split.
  - rewrite fmap_app in Hids. by eapply uuids_ok_app_l.
  - by apply Forall_app in Hpristine as [? _].
Qed.

Lemma steady_run (events : list Event) (jobs : list RenderJob.t) (s s' : t) :
  jobs_ok (jobs ++ created_jobs (outputDir s) events) →
  steady jobs s →
  run s events = Some s' →
  steady (jobs ++ created_jobs (outputDir s) events) s'.
Proof.
  remember (outputDir s) as dir eqn:Hdir.
  revert jobs s Hdir.
  induction events as [|e events IH]; intros jobs s Hdir Hok Hsteady Hrun.
  - injection Hrun as <-. unfold created_jobs. simpl. by rewrite app_nil_r.
  - simpl in Hrun. destruct (step s e) as [s1|] eqn:Hstep; [|done].
    assert (Hcreated : created_jobs dir (e :: events)
                       = option_list (created_job dir e) ++ created_jobs dir events).
    { unfold created_jobs. simpl. by destruct (created_job dir e). }
    rewrite Hcreated, app_assoc in Hok |- *.
    apply (IH _ s1); [|done| |done].
    + rewrite Hdir. symmetry. by eapply step_outputDir.
    + rewrite Hdir. apply steady_step; [|done..].
      rewrite <- Hdir. by eapply jobs_ok_app_l.
Qed.

Lemma steady_new (outputDir : option string) (concurrency : option Q) :
  steady [] (new outputDir concurrency).
Proof.
  split; [|split; [done|]].
  2:{ unfold RenderQueue.canProcess. simpl. apply andb_false_r. }
  split; simpl.
  - intros jobId stored Hlookup. simpl in Hlookup. by rewrite lookup_empty in Hlookup.
  - exists []. split; [done|]. split; [done|]. intros job Hin. by apply elem_of_nil in Hin.
  - intros i task Htask. by rewrite lookup_nil in Htask.
  - by rewrite dom_empty_L.
  - intros jobId. split; [set_solver|]. intros (i & task & Htask & _).
    by rewrite lookup_nil in Htask.
Qed.

Lemma created_jobs_ok (outputDir : string) (events : list Event) :
  uuids_ok (created events) → jobs_ok (created_jobs outputDir events).
Proof.
  intros Hids. split.
  - by rewrite created_jobs_ids.
  - apply created_jobs_pristine.
Qed.

(** The invariant of every run of a new service. *)
Lemma steady_reached (dir : option string) (concurrency : option Q)
    (events : list Event) (s : t) :
  uuids_ok (created events) →
  run (new dir concurrency) events = Some s →
  steady (created_jobs (outputDir s) events) s.
Proof.
  intros Hids Hrun.
  rewrite (run_outputDir _ _ _ Hrun).
  apply (steady_run events [] (new dir concurrency)); [|apply steady_new|done].
  by apply created_jobs_ok.
Qed.

End accounting.

(** ** Job records along a run *)

Ltac status_cases :=
  repeat match goal with
         | H : _ ∈ _ :: _ |- _ => apply elem_of_cons in H as [H|H]
         | H : _ ∈ [] |- _ => by apply elem_of_nil in H
         end;
  try congruence.

Section run_facts.

Import RenderService.

(** A stored job is a pending one, exactly as created, or the job of a
    call of [processJob], with the fields of that call's stage. *)
Lemma stored_cases (jobs : list RenderJob.t) (s : t) (jobId : string)
    (stored : RenderJob.t) :
  jobs_ok jobs →
  acct jobs s →
  getJob jobId s = Some stored →
  (jobId ∈ RenderQueue.queue (queue s) ∧ stored ∈ jobs ∧ as_created stored = stored)
  ∨ (∃ i task,
       tasks s !! i = Some task
       ∧ RenderJob.id (t_job task) = jobId
       ∧ t_job task ∈ jobs
       ∧ as_created stored = t_job task
       ∧ stage_ok (t_stage task) stored).
Proof.
  intros [_ Hpristine] [Hkeys (waiting & Hjobs & Hpending & Hwaiting) Htasks Hdom _] Hget.
  unfold getJob, RenderQueue.get in Hget.
  assert (Hin : jobId ∈ dom (RenderQueue.jobs (queue s))) by (by eapply elem_of_dom_2).
  rewrite Hdom, elem_of_list_to_set in Hin.
  apply list_elem_of_fmap in Hin as (job & -> & Hin).
  pose proof Hin as Hin'. rewrite Hjobs in Hin'.
  apply elem_of_app in Hin' as [Hstarted|Hwait].
  - right. apply list_elem_of_fmap in Hstarted as (task & -> & Htask).
    apply list_elem_of_lookup_1 in Htask as [i Htask].
    destruct (Htasks i task Htask) as (stored' & Hstored' & Hc & Hs).
    rewrite Hget in Hstored'. injection Hstored' as <-.
    by exists i, task.
  - left. rewrite (Hwaiting job Hwait) in Hget. injection Hget as <-.
    split; [|split; [done|]].
    + rewrite Hpending. apply list_elem_of_fmap. by exists job.
    + rewrite Forall_forall in Hpristine. by apply Hpristine.
Qed.

Lemma pending_stored (jobs : list RenderJob.t) (s : t) (jobId : string) :
  jobs_ok jobs →
  acct jobs s →
  jobId ∈ RenderQueue.queue (queue s) →
  ∃ job, job ∈ jobs ∧ RenderJob.id job = jobId
         ∧ getJob jobId s = Some job ∧ as_created job = job.
Proof.
  intros [_ Hpristine] [_ (waiting & Hjobs & Hpending & Hwaiting) _ _ _] Hin.
  rewrite Hpending in Hin. apply list_elem_of_fmap in Hin as (job & -> & Hin).
  assert (Hjob : job ∈ jobs) by (rewrite Hjobs, elem_of_app; by right).
  exists job. repeat split; [done|by apply Hwaiting|].
  rewrite Forall_forall in Hpristine. by apply Hpristine.
Qed.

Lemma stage_ok_status (stage : Stage) (stored : RenderJob.t) :
  stage_ok stage stored →
  match stage with
  | Done Ok => RenderJob.status stored = completed
  | Done (Threw _) => RenderJob.status stored = failed
  | _ => RenderJob.status stored ∈ [bundling; rendering; encoding]
  end.
Proof.
  destruct stage as [g|loc|loc call|loc call|[|message]]; simpl.
  - intros (-> & _). set_solver.
  - intros (-> & _). set_solver.
  - intros ([-> | ->] & _); set_solver.
  - intros ([-> | ->] & _); set_solver.
  - by intros (-> & _).
  - by intros (-> & _).
Qed.

Lemma pristine_fields (job : RenderJob.t) :
  as_created job = job →
  RenderJob.status job = queued ∧ RenderJob.progress job = 0
  ∧ RenderJob.error job = None ∧ RenderJob.thumbnailPath job = None
  ∧ RenderJob.startedAt job = None ∧ RenderJob.completedAt job = None.
Proof. intros <-. by repeat split. Qed.

(** *** Frames: what an event leaves alone *)

(** The record of a settled job is not pending and belongs to no
    unsettled call. *)
Lemma settled_apart (jobs : list RenderJob.t) (s : t) (jobId : string)
    (stored : RenderJob.t) :
  jobs_ok jobs →
  acct jobs s →
  getJob jobId s = Some stored →
  RenderJob.status stored ∈ [completed; failed] →
  (jobId ∉ RenderQueue.queue (queue s))
  ∧ (∀ i task, tasks s !! i = Some task → live task →
       RenderJob.id (t_job task) ≠ jobId).
Proof.
  intros Hok Hacct Hget Hstatus.
  destruct (stored_cases jobs s jobId stored Hok Hacct Hget)
    as [(_ & _ & Hpristine)|(i0 & task0 & Htask0 & Hid0 & _ & _ & Hstage0)].
  { apply pristine_fields in Hpristine as (Hq & _).
    rewrite Hq in Hstatus. status_cases. }
  pose proof (acct_wf jobs s Hok Hacct) as Hwf.
  destruct Hok as [Hids _].
  destruct (wf_task_unique _ s i0 task0 Hids Hwf Htask0) as [Hnotin Hunique].
  rewrite Hid0 in Hnotin, Hunique. split; [done|].
  intros i task Htask Hlive Hid.
  pose proof (Hunique i task Htask Hid) as ->.
  rewrite Htask0 in Htask. injection Htask as ->.
  apply stage_ok_status in Hstage0. unfold live in Hlive.
  destruct (t_stage task) as [g|loc|loc call|loc call|outcome];
    try done; status_cases.
Qed.

Lemma finish_update_frame (i : nat) (job : RenderJob.t) (outcome : Result)
    (u : RenderJob.partial) (now : Z) (s : t) (jobId : string) :
  keys_ok (queue s) →
  jobId ≠ RenderJob.id job →
  jobId ∉ RenderQueue.queue (queue s) →
  getJob jobId (finish i job outcome now (update (RenderJob.id job) u s))
  = getJob jobId s.
Proof.
  intros Hkeys Hne Hnotin. unfold finish, getJob.
  match goal with
  | |- context [processQueue now ?s0] => set (s1 := s0)
  end.
  destruct (processQueue_frame now s1 jobId) as [Hget _].
  - simpl. by apply keys_ok_update.
  - simpl. by rewrite update_queue.
  - rewrite Hget. simpl. unfold RenderQueue.complete, RenderQueue.get. simpl.
    by apply update_get_ne.
Qed.

Lemma settled_step (jobs : list RenderJob.t) (e : Event) (s s' : t)
    (jobId : string) (stored : RenderJob.t) :
  jobs_ok (jobs ++ option_list (created_job (outputDir s) e)) →
  acct jobs s →
  step s e = Some s' →
  getJob jobId s = Some stored →
  RenderJob.status stored ∈ [completed; failed] →
  getJob jobId s' = Some stored.
Proof.
  intros Hok' Hacct Hstep Hget Hstatus.
  pose proof (jobs_ok_app_l _ _ Hok') as Hok.
  destruct (settled_apart jobs s jobId stored Hok Hacct Hget Hstatus)
    as [Hnotin Hlive].
  pose proof (acct_keys _ _ Hacct) as Hkeys.
  assert (Hfail : ∀ i job old message now,
            tasks s !! i = Some {| t_job := job; t_stage := old |} →
            live {| t_job := job; t_stage := old |} →
            getJob jobId (fail i job message now s) = Some stored).
  { intros i job old message now Htask Hl. unfold fail.
    rewrite finish_update_frame; try done.
    intros ->. by apply (Hlive i _ Htask). }
  destruct e as [input uuidFile uuidId now| |p r|i now|i r now
                |i progress encodedFrames|i r now|i r thumbnailExists now
                |listened cb|listened cb];
    simpl in Hstep, Hok'.
  - injection Hstep as <-. unfold createJob.
    destruct (Compositions.get (RenderJobInput.compositionId input))
      as [composition|] eqn:Hc; simpl in *; [|done].
    match goal with
    | |- getJob jobId (processQueue now ?s0) = _ => set (s1 := s0)
    end.
    pose proof (acct_add jobs _ s Hok' Hacct) as Hacct1. fold s1 in Hacct1.
    assert (Hne : jobId ≠ uuidId).
    { intros ->. destruct Hok' as [[Hnd _] _].
      rewrite fmap_app in Hnd. apply NoDup_app in Hnd as (_ & Hfresh & _).
      apply (Hfresh uuidId); [|simpl; by left].
      destruct Hacct as [_ _ _ Hdom _].
      apply (elem_of_list_to_set (C := gset string)).
      rewrite <- Hdom. by eapply elem_of_dom_2. }
    unfold getJob.
    destruct (processQueue_frame now s1 jobId) as [Hget' _].
    + by destruct Hacct1.
    + simpl. rewrite not_elem_of_app. split; [done|]. set_solver.
    + rewrite Hget'. simpl. unfold RenderQueue.get. simpl.
      by rewrite lookup_insert_ne.
  - by injection Hstep as <-.
  - unfold settle_build in Hstep.
    destruct r; [done| |];
      (destruct (builds s !! p) as [[]|]; [|done..]; by injection Hstep as <-).
  - destruct (tasks s !! i) as [[job [g|loc|loc call|loc call|outcome]]|] eqn:Htask;
      try done.
    destruct (awaited s g) as [|loc|message]; [done| |]; injection Hstep as <-.
    + unfold getJob. simpl. rewrite update_get_ne.
      * by destruct g.
      * intros ->. by apply (Hlive i _ Htask).
    + by apply (Hfail i job (AwaitBundle g)).
  - destruct (tasks s !! i) as [[job [g|loc|loc call|loc call|outcome]]|] eqn:Htask;
      try done.
    destruct r; injection Hstep as <-; [done|].
    by apply (Hfail i job (AwaitSelect loc)).
  - destruct (tasks s !! i) as [[job [g|loc|loc call|loc call|outcome]]|] eqn:Htask;
      try done.
    injection Hstep as <-. unfold getJob. simpl. rewrite update_get_ne; [done|].
    intros ->. by apply (Hlive i _ Htask).
  - destruct (tasks s !! i) as [[job [g|loc|loc call|loc call|outcome]]|] eqn:Htask;
      try done.
    destruct r; injection Hstep as <-; [done|].
    by apply (Hfail i job (AwaitRender loc call)).
  - destruct (tasks s !! i) as [[job [g|loc|loc call|loc call|outcome]]|] eqn:Htask;
      try done.
    injection Hstep as <-.
    rewrite finish_update_frame; try done.
    intros ->. by apply (Hlive i _ Htask).
  - by injection Hstep as <-.
  - injection Hstep as <-. unfold getJob, RenderQueue.get, RenderQueue.unsubscribe.
    simpl. by destruct (RenderQueue.listeners (queue s) !! listened).
Qed.

Lemma settled_run (events : list Event) (jobs : list RenderJob.t) (s s' : t)
    (jobId : string) (stored : RenderJob.t) :
  jobs_ok (jobs ++ created_jobs (outputDir s) events) →
  steady jobs s →
  run s events = Some s' →
  getJob jobId s = Some stored →
  RenderJob.status stored ∈ [completed; failed] →
  getJob jobId s' = Some stored.
Proof.
  remember (outputDir s) as dir eqn:Hdir.
  revert jobs s Hdir.
  induction events as [|e events IH];
    intros jobs s Hdir Hok Hsteady Hrun Hget Hstatus.
  - by injection Hrun as <-.
  - simpl in Hrun. destruct (step s e) as [s1|] eqn:Hstep; [|done].
    assert (Hcreated : created_jobs dir (e :: events)
                       = option_list (created_job dir e) ++ created_jobs dir events).
    { unfold created_jobs. simpl. by destruct (created_job dir e). }
    rewrite Hcreated, app_assoc in Hok.
    pose proof (jobs_ok_app_l _ _ Hok) as Hok1. rewrite Hdir in Hok1.
    apply (IH (jobs ++ option_list (created_job dir e)) s1); try done.
    + rewrite Hdir. symmetry. by eapply step_outputDir.
    + rewrite Hdir. by apply steady_step.
    + destruct Hsteady as [Hacct _]. by eapply settled_step.
Qed.

Lemma created_app (events more : list Event) :
  created (events ++ more) = created events ++ created more.
Proof. unfold created. apply omap_app. Qed.

Lemma created_jobs_app (dir : string) (events more : list Event) :
  created_jobs dir (events ++ more) = created_jobs dir events ++ created_jobs dir more.
Proof. unfold created_jobs. apply omap_app. Qed.

End run_facts.

(** ** What a client of the service observes along a run *)

Section run_theorems.

Import RenderService.

Lemma run_steady (dir : option string) (concurrency : option Q) (events : list Event)
    (s : t) :
  run (new dir concurrency) events = Some s →
  uuids_ok (created events) →
  jobs_ok (created_jobs (outputDir s) events)
  ∧ steady (created_jobs (outputDir s) events) s.
Proof.
  intros Hrun Hids. split; [by apply created_jobs_ok|by eapply steady_reached].
Qed.

Lemma ids_of_map (q : RenderQueue.t) :
  keys_ok q → RenderJob.id <$> getAll q = (map_to_list (RenderQueue.jobs q)).*1.
Proof.
  intros Hkeys. unfold getAll. rewrite <- list_fmap_compose.
  apply Forall_fmap_ext, Forall_forall. intros [jobId job] Hin. simpl.
  apply elem_of_map_to_list in Hin. by apply Hkeys.
Qed.

(** The record of a job whose call of [processJob] has ended. *)
Lemma ended_stored (dir : option string) (concurrency : option Q) (events : list Event)
    (s : t) (i : nat) (job : RenderJob.t) (outcome : Result) :
  run (new dir concurrency) events = Some s →
  uuids_ok (created events) →
  tasks s !! i = Some {| t_job := job; t_stage := Done outcome |} →
  ∃ stored,
    getJob (RenderJob.id job) s = Some stored
    ∧ RenderJob.status stored ∈ [completed; failed].
Proof.
  intros Hrun Hids Htask.
  destruct (run_steady dir concurrency events s Hrun Hids) as [_ [Hacct _]].
  destruct (acct_task_stored _ s i _ Hacct Htask) as (stored & Hstored & _ & Hstage).
  exists stored. split; [exact Hstored|].
  apply stage_ok_status in Hstage. simpl in Hstage.
  destruct outcome; rewrite Hstage; set_solver.
Qed.

End run_theorems.

(** X1. In every state of a run, the ids in the pending list are exactly
    the ids of the jobs whose status is [queued]. *)
Theorem pending_iff_queued (dir : option string) (concurrency : option Q)
    (events : list RenderService.Event) (s : RenderService.t) (jobId : string) :
  RenderService.run (RenderService.new dir concurrency) events = Some s →
  uuids_ok (created events) →
  jobId ∈ RenderQueue.queue (RenderService.queue s)
  ↔ ∃ stored, RenderService.getJob jobId s = Some stored
              ∧ RenderJob.status stored = queued.
Proof.
  intros Hrun Hids.
  destruct (run_steady dir concurrency events s Hrun Hids) as [Hok [Hacct _]].
  split.
  - intros Hin.
    destruct (pending_stored _ s jobId Hok Hacct Hin) as (job & _ & _ & Hget & Hp).
    exists job. split; [done|]. by apply pristine_fields in Hp as (? & _).
  - intros (stored & Hget & Hstatus).
    destruct (stored_cases _ s jobId stored Hok Hacct Hget)
      as [(Hin & _)|(i & task & _ & _ & _ & _ & Hstage)]; [done|].
    apply stage_ok_status in Hstage.
    destruct (t_stage task) as [g|loc|loc call|loc call|[|message]];
      rewrite Hstatus in Hstage; status_cases.
Qed.

Lemma pending_iff_queued_witness :
  ∃ s, RenderService.run (RenderService.new None (Some 1%Q)) (take 3 one_slot_events)
       = Some s
       ∧ ("b7e2d9a0-0002" ∈ RenderQueue.queue (RenderService.queue s)
          ↔ ∃ stored, RenderService.getJob "b7e2d9a0-0002" s = Some stored
                      ∧ RenderJob.status stored = queued).
Proof.
  destruct (RenderService.run (RenderService.new None (Some 1%Q))
              (take 3 one_slot_events)) as [s|] eqn:Hrun;
    [|vm_compute in Hrun; discriminate].
  exists s. split; [reflexivity|].
  apply (pending_iff_queued None (Some 1%Q) (take 3 one_slot_events) s); [exact Hrun|].
  split; [apply (bool_decide_unpack _); vm_compute; reflexivity|repeat constructor].
Defined.

(** X2. In every state of a run, the ids in the processing set are exactly
    the ids of the jobs whose status is [bundling], [rendering] or
    [encoding]. *)
Theorem processing_iff_active (dir : option string) (concurrency : option Q)
    (events : list RenderService.Event) (s : RenderService.t) (jobId : string) :
  RenderService.run (RenderService.new dir concurrency) events = Some s →
  uuids_ok (created events) →
  jobId ∈ RenderQueue.processing (RenderService.queue s)
  ↔ ∃ stored, RenderService.getJob jobId s = Some stored
              ∧ RenderJob.status stored ∈ [bundling; rendering; encoding].
Proof.
  intros Hrun Hids.
  destruct (run_steady dir concurrency events s Hrun Hids) as [Hok [Hacct _]].
  split.
  - intros Hin. apply (acct_slots _ _ Hacct) in Hin as (i & task & Htask & Hlive & <-).
    destruct (acct_task_stored _ _ _ _ Hacct Htask) as (stored & Hstored & _ & Hstage).
    exists stored. split; [done|].
    apply stage_ok_status in Hstage. unfold live in Hlive.
    by destruct (t_stage task).
  - intros (stored & Hget & Hstatus).
    destruct (stored_cases _ s jobId stored Hok Hacct Hget)
      as [(_ & _ & Hp)|(i & task & Htask & Hid & _ & _ & Hstage)].
    { apply pristine_fields in Hp as (Hq & _). rewrite Hq in Hstatus. status_cases. }
    apply (acct_slots _ _ Hacct). exists i, task. split; [done|]. split; [|done].
    apply stage_ok_status in Hstage. unfold live.
    destruct (t_stage task) as [g|loc|loc call|loc call|[|message]];
      try done; rewrite Hstage in Hstatus; status_cases.
Qed.

Lemma processing_iff_active_witness :
  ∃ s, RenderService.run (RenderService.new None (Some 1%Q)) one_slot_events = Some s
       ∧ ("c5d8e1f6-0003" ∈ RenderQueue.processing (RenderService.queue s)
          ↔ ∃ stored, RenderService.getJob "c5d8e1f6-0003" s = Some stored
                      ∧ RenderJob.status stored ∈ [bundling; rendering; encoding]).
Proof.
  destruct (RenderService.run (RenderService.new None (Some 1%Q)) one_slot_events)
    as [s|] eqn:Hrun; [|vm_compute in Hrun; discriminate].
  exists s. split; [reflexivity|].
  apply (processing_iff_active None (Some 1%Q) one_slot_events s); [exact Hrun|].
  split; [apply (bool_decide_unpack _); vm_compute; reflexivity|repeat constructor].
Defined.

(** X3. [getPending()] returns the jobs that have not been started, in
    the order of their creation and exactly as [createJob] built them:
    the created jobs are the started ones followed by the pending ones,
    and no entry of the result is [undefined]. *)
Theorem getPending_as_created (dir : option string) (concurrency : option Q)
    (events : list RenderService.Event) (s : RenderService.t) :
  RenderService.run (RenderService.new dir concurrency) events = Some s →
  uuids_ok (created events) →
  ∃ started waiting,
    created_jobs (RenderService.outputDir s) events = started ++ waiting
    ∧ length started = length (RenderService.tasks s)
    ∧ getPending (RenderService.queue s) = Some <$> waiting.
Proof.
  intros Hrun Hids.
  destruct (run_steady dir concurrency events s Hrun Hids) as [Hok [Hacct _]].
  destruct Hacct as [_ (waiting & Hjobs & Hpending & Hwaiting) _ _ _].
  exists (t_job <$> RenderService.tasks s), waiting.
  split; [done|]. split; [by rewrite length_fmap|].
  unfold getPending. rewrite Hpending, <- list_fmap_compose.
  apply Forall_fmap_ext, Forall_forall. intros job Hin. simpl. by apply Hwaiting.
Qed.

Lemma getPending_as_created_witness :
  ∃ s started waiting,
    RenderService.run (RenderService.new None (Some 1%Q)) (take 3 one_slot_events)
    = Some s
    ∧ created_jobs (RenderService.outputDir s) (take 3 one_slot_events)
      = started ++ waiting
    ∧ length started = length (RenderService.tasks s)
    ∧ getPending (RenderService.queue s) = Some <$> waiting.
Proof.
  destruct (RenderService.run (RenderService.new None (Some 1%Q))
              (take 3 one_slot_events)) as [s|] eqn:Hrun;
    [|vm_compute in Hrun; discriminate].
  destruct (getPending_as_created None (Some 1%Q) (take 3 one_slot_events) s Hrun)
    as (started & waiting & H).
  { split; [apply (bool_decide_unpack _); vm_compute; reflexivity|repeat constructor]. }
  by exists s, started, waiting.
Defined.

(** X4. After every event the loop of [processQueue] has run dry and its
    re-entrancy flag is released: while a job is pending, the processing
    set holds at least [maxConcurrent] ids. *)
Theorem no_free_slot_while_pending (dir : option string) (concurrency : option Q)
    (events : list RenderService.Event) (s : RenderService.t) :
  RenderService.run (RenderService.new dir concurrency) events = Some s →
  uuids_ok (created events) →
  RenderService.isProcessing s = false
  ∧ (RenderQueue.queue (RenderService.queue s) ≠ [] →
     (RenderQueue.maxConcurrent (RenderService.queue s)
      <= inject_Z (Z.of_nat (size (RenderQueue.processing (RenderService.queue s)))))%Q).
Proof.
  intros Hrun Hids.
  destruct (run_steady dir concurrency events s Hrun Hids) as [_ (_ & Hidle & Hcan)].
  split; [done|]. intros Hpending.
  unfold RenderQueue.canProcess in Hcan.
  apply andb_false_iff in Hcan as [Hfull|Hempty].
  - by apply lt_false in Hfull.
  - apply Z.ltb_ge in Hempty.
    destruct (RenderQueue.queue (RenderService.queue s)); [done|].
    simpl in Hempty. lia.
Qed.

Lemma no_free_slot_while_pending_witness :
  ∃ s, RenderService.run (RenderService.new None (Some 1%Q)) (take 3 one_slot_events)
       = Some s
       ∧ RenderService.isProcessing s = false
       ∧ (RenderQueue.queue (RenderService.queue s) ≠ [] →
          (RenderQueue.maxConcurrent (RenderService.queue s)
           <= inject_Z
                (Z.of_nat (size (RenderQueue.processing (RenderService.queue s)))))%Q).
Proof.
  destruct (RenderService.run (RenderService.new None (Some 1%Q))
              (take 3 one_slot_events)) as [s|] eqn:Hrun;
    [|vm_compute in Hrun; discriminate].
  exists s. split; [reflexivity|].
  apply (no_free_slot_while_pending None (Some 1%Q) (take 3 one_slot_events) s);
    [exact Hrun|].
  split; [apply (bool_decide_unpack _); vm_compute; reflexivity|repeat constructor].
Defined.

(** X5. Once the call of [processJob] for a job has ended (its [finally]
    block has run), the job's record is final: it shows [completed] or
    [failed], and whatever happens afterwards (other jobs created, started,
    failing or completing, progress reports, invalidations, subscriptions)
    leaves the record as it is. *)
Theorem terminal_is_final (dir : option string) (concurrency : option Q)
    (events more : list RenderService.Event) (s s' : RenderService.t)
    (i : nat) (job : RenderJob.t) (outcome : Result) :
  RenderService.run (RenderService.new dir concurrency) events = Some s →
  RenderService.run s more = Some s' →
  uuids_ok (created (events ++ more)) →
  RenderService.tasks s !! i = Some {| t_job := job; t_stage := Done outcome |} →
  ∃ stored,
    RenderService.getJob (RenderJob.id job) s = Some stored
    ∧ RenderJob.status stored ∈ [completed; failed]
    ∧ RenderService.getJob (RenderJob.id job) s' = Some stored.
Proof.
  intros Hrun Hmore Hids Htask.
  rewrite created_app in Hids.
  pose proof (uuids_ok_app_l _ _ Hids) as Hids1.
  destruct (run_steady dir concurrency events s Hrun Hids1) as [_ Hsteady].
  destruct (ended_stored dir concurrency events s i job outcome Hrun Hids1 Htask)
    as (stored & Hget & Hstatus).
  exists stored. split; [exact Hget|]. split; [exact Hstatus|].
  apply (settled_run more (created_jobs (RenderService.outputDir s) events) s s');
    try done.
  rewrite <- created_jobs_app. apply created_jobs_ok. by rewrite created_app.
Qed.

Lemma terminal_is_final_witness :
  ∃ s s' stored,
    RenderService.run (RenderService.new None (Some 1%Q)) (take 9 one_slot_events)
    = Some s
    ∧ RenderService.run s (drop 9 one_slot_events) = Some s'
    ∧ RenderService.getJob "a3f1c2d4-0001" s = Some stored
    ∧ RenderJob.status stored ∈ [completed; failed]
    ∧ RenderService.getJob "a3f1c2d4-0001" s' = Some stored.
Proof.
  destruct (RenderService.run (RenderService.new None (Some 1%Q))
              (take 9 one_slot_events)) as [s|] eqn:Hrun;
    [|vm_compute in Hrun; discriminate].
  destruct (RenderService.run s (drop 9 one_slot_events)) as [s'|] eqn:Hmore.
  2:{ vm_compute in Hrun. injection Hrun as <-. vm_compute in Hmore. discriminate. }
  destruct (terminal_is_final None (Some 1%Q) (take 9 one_slot_events)
              (drop 9 one_slot_events) s s' 0%nat Sample.A Ok Hrun Hmore)
    as (stored & Hget & Hstatus & Hkept).
  { split; apply (bool_decide_unpack _); vm_compute; reflexivity. }
  { vm_compute in Hrun. injection Hrun as <-. vm_compute. reflexivity. }
  exists s, s', stored.
  split; [reflexivity|]. split; [exact Hmore|]. split; [exact Hget|].
  split; [exact Hstatus|exact Hkept].
Defined.

(** X6. The optional fields of a job record follow its status: [startedAt]
    is set exactly when the job is no longer [queued], [completedAt] exactly
    when it is [completed] or [failed], [error] exactly when it is [failed];
    [thumbnailPath] is only ever set on a job that is [completed] or
    [failed], never while it waits or runs; and no job is ever
    [cancelled]. *)
Theorem record_fields_follow_status (dir : option string) (concurrency : option Q)
    (events : list RenderService.Event) (s : RenderService.t)
    (jobId : string) (stored : RenderJob.t) :
  RenderService.run (RenderService.new dir concurrency) events = Some s →
  uuids_ok (created events) →
  RenderService.getJob jobId s = Some stored →
  (is_Some (RenderJob.startedAt stored) ↔ RenderJob.status stored ≠ queued)
  ∧ (is_Some (RenderJob.completedAt stored)
     ↔ RenderJob.status stored ∈ [completed; failed])
  ∧ (is_Some (RenderJob.error stored) ↔ RenderJob.status stored = failed)
  ∧ (is_Some (RenderJob.thumbnailPath stored)
     → RenderJob.status stored ∈ [completed; failed])
  ∧ RenderJob.status stored ≠ cancelled.
Proof.
  intros Hrun Hids Hget.
  destruct (run_steady dir concurrency events s Hrun Hids) as [Hok [Hacct _]].
  destruct (stored_cases _ s jobId stored Hok Hacct Hget)
    as [(_ & _ & Hp)|(i & task & _ & _ & _ & _ & Hstage)].
  - apply pristine_fields in Hp as (-> & _ & -> & -> & -> & ->).
    repeat split; try done; try (by intros []); intros Hin; status_cases.
  - destruct (t_stage task) as [g|loc|loc call|loc call|[|message]];
      simpl in Hstage.
    + destruct Hstage as (-> & _ & -> & -> & Hstarted & ->).
      repeat split; try done; try (by intros []); intros Hin; status_cases.
    + destruct Hstage as (-> & _ & -> & -> & Hstarted & ->).
      repeat split; try done; try (by intros []); intros Hin; status_cases.
    + destruct Hstage as ([-> | ->] & -> & -> & Hstarted & ->);
        repeat split; try done; try (by intros []); intros Hin; status_cases.
    + destruct Hstage as ([-> | ->] & -> & -> & Hstarted & ->);
        repeat split; try done; try (by intros []); intros Hin; status_cases.
    + destruct Hstage as (-> & _ & -> & Hstarted & Hcompleted).
      repeat split; try done; try (by intros []); try (intros _; by left).
    + destruct Hstage as (-> & -> & -> & Hstarted & Hcompleted).
      repeat split; try done; try (by intros []);
        try (intros _; right; by left).
Qed.

Lemma record_fields_follow_status_witness :
  ∃ s stored,
    RenderService.run (RenderService.new None (Some 1%Q)) one_slot_events = Some s
    ∧ RenderService.getJob "b7e2d9a0-0002" s = Some stored
    ∧ (is_Some (RenderJob.startedAt stored) ↔ RenderJob.status stored ≠ queued)
    ∧ (is_Some (RenderJob.completedAt stored)
       ↔ RenderJob.status stored ∈ [completed; failed])
    ∧ (is_Some (RenderJob.error stored) ↔ RenderJob.status stored = failed)
    ∧ (is_Some (RenderJob.thumbnailPath stored)
       → RenderJob.status stored ∈ [completed; failed])
    ∧ RenderJob.status stored ≠ cancelled.
Proof.
  destruct (RenderService.run (RenderService.new None (Some 1%Q)) one_slot_events)
    as [s|] eqn:Hrun; [|vm_compute in Hrun; discriminate].
  destruct (RenderService.getJob "b7e2d9a0-0002" s) as [stored|] eqn:Hget.
  2:{ vm_compute in Hrun. injection Hrun as <-. vm_compute in Hget. discriminate. }
  exists s, stored. split; [reflexivity|]. split; [exact Hget|].
  apply (record_fields_follow_status None (Some 1%Q) one_slot_events s
           "b7e2d9a0-0002" stored Hrun); [|exact Hget].
  split; apply (bool_decide_unpack _); vm_compute; reflexivity.
Defined.

(** X7. No job is lost and its request is never rewritten: for every job
    [createJob] has built, [getJob] of its id returns a record whose
    composition id, input props, format, duration, fps, quality, output
    filename, id, output path and creation time are those of the job as
    built, whatever has happened to the job since. *)
Theorem created_job_kept (dir : option string) (concurrency : option Q)
    (events : list RenderService.Event) (s : RenderService.t) (job : RenderJob.t) :
  RenderService.run (RenderService.new dir concurrency) events = Some s →
  uuids_ok (created events) →
  job ∈ created_jobs (RenderService.outputDir s) events →
  ∃ stored,
    RenderService.getJob (RenderJob.id job) s = Some stored
    ∧ as_created stored = job.
Proof.
  intros Hrun Hids Hin.
  destruct (run_steady dir concurrency events s Hrun Hids) as [Hok [Hacct _]].
  destruct Hacct as [_ (waiting & Hjobs & _ & Hwaiting) Htasks _ _].
  rewrite Hjobs in Hin. apply elem_of_app in Hin as [Hstarted|Hwait].
  - apply list_elem_of_fmap in Hstarted as (task & -> & Htask).
    apply list_elem_of_lookup_1 in Htask as [i Htask].
    destruct (Htasks i task Htask) as (stored & Hstored & Hc & _).
    by exists stored.
  - exists job. split; [by apply Hwaiting|].
    destruct Hok as [_ Hpristine]. rewrite Forall_forall in Hpristine.
    apply Hpristine. rewrite Hjobs, elem_of_app. by right.
Qed.

Lemma created_job_kept_witness :
  ∃ s stored,
    RenderService.run (RenderService.new None (Some 1%Q)) one_slot_events = Some s
    ∧ RenderService.getJob "a3f1c2d4-0001" s = Some stored
    ∧ as_created stored = Sample.A.
Proof.
  destruct (RenderService.run (RenderService.new None (Some 1%Q)) one_slot_events)
    as [s|] eqn:Hrun; [|vm_compute in Hrun; discriminate].
  destruct (created_job_kept None (Some 1%Q) one_slot_events s Sample.A Hrun)
    as (stored & Hget & Hc).
  { split; apply (bool_decide_unpack _); vm_compute; reflexivity. }
  { vm_compute in Hrun. injection Hrun as <-. vm_compute. by left. }
  exists s, stored. split; [reflexivity|]. split; [exact Hget|exact Hc].
Defined.

(** X8. [getJobs()] lists one record per accepted request: the ids of the
    records are the ids [createJob] has handed out, each once; records are
    never removed, whether their jobs are finished or not. *)
Theorem getJobs_created (dir : option string) (concurrency : option Q)
    (events : list RenderService.Event) (s : RenderService.t) :
  RenderService.run (RenderService.new dir concurrency) events = Some s →
  uuids_ok (created events) →
  RenderJob.id <$> getJobs s ≡ₚ created events.
Proof.
  intros Hrun Hids.
  destruct (run_steady dir concurrency events s Hrun Hids) as [Hok [Hacct _]].
  destruct Hacct as [Hkeys _ _ Hdom _].
  unfold getJobs. rewrite (ids_of_map _ Hkeys).
  apply NoDup_Permutation.
  - apply NoDup_fst_map_to_list.
  - by destruct Hids.
  - intros jobId. rewrite <- (created_jobs_ids (RenderService.outputDir s)).
    rewrite <- (elem_of_list_to_set (C := gset string)
                  jobId (RenderJob.id <$> created_jobs (RenderService.outputDir s) events)).
    rewrite <- Hdom, elem_of_dom, list_elem_of_fmap. split.
    + intros ([k job] & -> & Hin). apply elem_of_map_to_list in Hin. by exists job.
    + intros [job Hjob]. exists (jobId, job). split; [done|].
      by apply elem_of_map_to_list.
Qed.

Lemma getJobs_created_witness :
  ∃ s, RenderService.run (RenderService.new None (Some 1%Q)) one_slot_events = Some s
       ∧ RenderJob.id <$> getJobs s ≡ₚ created one_slot_events.
Proof.
  destruct (RenderService.run (RenderService.new None (Some 1%Q)) one_slot_events)
    as [s|] eqn:Hrun; [|vm_compute in Hrun; discriminate].
  exists s. split; [reflexivity|].
  apply (getJobs_created None (Some 1%Q) one_slot_events s Hrun).
  split; apply (bool_decide_unpack _); vm_compute; reflexivity.
Defined.

(** ** The thumbnail path *)

Section thumbnail_path.

Lemma append_assoc (a b c : string) : ((a ++ b) ++ c = a ++ (b ++ c))%string.
Proof.
  induction a as [|ch a IH]; [done|].
  change (String ch ((a ++ b) ++ c) = String ch (a ++ (b ++ c)))%string.
  by rewrite IH.
Qed.

Lemma length_append (a b : string) :
  String.length (a ++ b)%string = (String.length a + String.length b)%nat.
Proof.
  induction a as [|ch a IH]; [done|].
  change (S (String.length (a ++ b)%string) = S (String.length a + String.length b)).
  by rewrite IH.
Qed.

Lemma replace_mp4_suffix_stem (stem r : string) :
  Js.replace_mp4_suffix (stem ++ ".mp4") r = (stem ++ r)%string.
Proof.
  induction stem as [|ch stem IH]; [done|].
  change (String ch stem ++ ".mp4")%string with (String ch (stem ++ ".mp4")).
  change (String ch stem ++ r)%string with (String ch (stem ++ r)).
  cbn [Js.replace_mp4_suffix].
  destruct (String.eqb_spec (String ch (stem ++ ".mp4")) ".mp4") as [Heq|_].
  - apply (f_equal String.length) in Heq.
    change (S (String.length (stem ++ ".mp4")%string) = 4%nat) in Heq.
    rewrite length_append in Heq. simpl in Heq. lia.
  - by rewrite IH.
Qed.

Lemma replace_mp4_suffix_none (s r : string) :
  (∀ stem, s ≠ (stem ++ ".mp4")%string) → Js.replace_mp4_suffix s r = s.
Proof.
  induction s as [|ch s IH]; intros Hsuffix; [done|].
  cbn [Js.replace_mp4_suffix].
  destruct (String.eqb_spec (String ch s) ".mp4") as [Heq|_].
  - by destruct (Hsuffix EmptyString).
  - rewrite IH; [done|]. intros stem ->. by apply (Hsuffix (String ch stem)).
Qed.

Lemma ends_mp4_false (s : string) :
  ends_mp4 s = false → ∀ stem, s ≠ (stem ++ ".mp4")%string.
Proof.
  intros Hends stem. revert s Hends.
  induction stem as [|ch stem IH]; intros s Hends ->.
  - done.
  - change (String ch stem ++ ".mp4")%string with (String ch (stem ++ ".mp4")) in Hends.
    cbn [ends_mp4] in Hends. apply orb_false_iff in Hends as [_ Hends].
    by apply (IH _ Hends).
Qed.

End thumbnail_path.

(** X9. When the output path ends in [.mp4], the thumbnail is written
    next to the video under the same name with [.mp4] replaced by
    [_thumb.jpg], a path different from the video's. *)
Theorem thumbnail_path_of_mp4 (job : RenderJob.t) (stem : string) :
  RenderJob.outputPath job = (stem ++ ".mp4")%string →
  r_thumbnailPath (renderParams job) = (stem ++ "_thumb.jpg")%string
  ∧ r_thumbnailPath (renderParams job) ≠ r_outputLocation (renderParams job).
Proof.
  intros Hpath. unfold renderParams. simpl. rewrite Hpath.
  rewrite replace_mp4_suffix_stem. split; [done|].
  intros Heq. by apply String.app_inj in Heq.
Qed.

Lemma thumbnail_path_of_mp4_witness :
  r_thumbnailPath (renderParams Sample.A) = "./output/EventPromo_a3f1c2d4_thumb.jpg"
  ∧ r_thumbnailPath (renderParams Sample.A) ≠ r_outputLocation (renderParams Sample.A).
Proof.
  apply (thumbnail_path_of_mp4 Sample.A "./output/EventPromo_a3f1c2d4").
  vm_compute. reflexivity.
Defined.

(** X10. When the output path does not end in [.mp4] (a request with
    [outputFilename: 'clip.mov'], say), the [replace] changes nothing: the
    thumbnail is rendered to the very path of the video. *)
Theorem thumbnail_path_without_mp4 (job : RenderJob.t) :
  (∀ stem, RenderJob.outputPath job ≠ (stem ++ ".mp4")%string) →
  r_thumbnailPath (renderParams job) = r_outputLocation (renderParams job).
Proof.
  intros Hsuffix. unfold renderParams. simpl. by apply replace_mp4_suffix_none.
Qed.

Lemma thumbnail_path_without_mp4_witness :
  r_thumbnailPath (renderParams mov_job) = "./output/clip.mov"
  ∧ r_outputLocation (renderParams mov_job) = "./output/clip.mov".
Proof.
  assert (Hsame : r_thumbnailPath (renderParams mov_job)
                  = r_outputLocation (renderParams mov_job)).
  { apply (thumbnail_path_without_mp4 mov_job).
    apply ends_mp4_false. vm_compute. reflexivity. }
  rewrite Hsame. split; vm_compute; reflexivity.
Defined.

(** ** The engine parameters of a created job *)

(** X11. For a job built by [createJob] from whole-number values whose
    frame count stays within the safe integers, [processJob] hands the
    engine the request's fps or 30, the request's duration or else the
    [defaultDuration] of what the lookup found or else 10, times that
    fps, the dimensions of the request's format or of landscape, and the
    crf of the request's quality or of standard.  For a registered
    composition the default duration is never 0, so the fallback 10 is
    not used; it is used for a name inherited from [Object.prototype],
    which has no [defaultDuration].  The thumbnail frame is a quarter of
    the frame count, inside the video when the frame count is positive. *)
Theorem engine_parameters_of_request (outputDir : string) (input : RenderJobInput.t)
    (composition : Compositions.Found) (uuidFile uuidId : string) (now : Z) :
  Compositions.get (RenderJobInput.compositionId input) = Some composition →
  Z.abs (Js.or_number (RenderJobInput.duration input)
           (default 10 (Compositions.defaultDuration_of composition))
         * Js.or_number (RenderJobInput.fps input) 30) ≤ 2 ^ 53 →
  let call :=
    renderParams (RenderService.newJob outputDir input composition uuidFile uuidId now) in
  r_fps call = Js.or_number (RenderJobInput.fps input) 30
  ∧ r_durationInFrames call
    = Js.or_number (RenderJobInput.duration input)
        (default 10 (Compositions.defaultDuration_of composition))
      * Js.or_number (RenderJobInput.fps input) 30
  ∧ (∀ meta, composition = Compositions.Registered meta →
       Compositions.defaultDuration meta ≠ 0
       ∧ r_durationInFrames call
         = Js.or_number (RenderJobInput.duration input)
             (Compositions.defaultDuration meta)
           * Js.or_number (RenderJobInput.fps input) 30)
  ∧ r_width call
    = Theme.width (Theme.DIMENSIONS (Js.or_enum (RenderJobInput.format input)
                                       Theme.landscape))
  ∧ r_height call
    = Theme.height (Theme.DIMENSIONS (Js.or_enum (RenderJobInput.format input)
                                        Theme.landscape))
  ∧ r_crf call
    = QUALITY_PRESETS_crf (Js.or_enum (RenderJobInput.quality input) standard)
  ∧ (0 < r_durationInFrames call →
     0 ≤ r_frame call < r_durationInFrames call).
Proof.
  intros Hc _ call.
  assert (Hdefault : ∀ meta, composition = Compositions.Registered meta →
                             Compositions.defaultDuration meta ≠ 0).
  { intros meta ->. unfold Compositions.get in Hc.
    destruct (Compositions.COMPOSITIONS !! RenderJobInput.compositionId input)
      as [found|] eqn:Hfound.
    - injection Hc as ->. by eapply COMPOSITIONS_defaultDuration.
    - by destruct (bool_decide _). }
  assert (Hfps : Js.or_number (Some (Js.or_number (RenderJobInput.fps input) 30)) 30
                 = Js.or_number (RenderJobInput.fps input) 30).
  { unfold Js.or_number. destruct (RenderJobInput.fps input) as [fps|]; [|done].
    destruct (fps =? 0) eqn:Hz; [done|]. by rewrite Hz. }
  assert (Hduration :
            Js.or_number
              (Js.or_undefined (RenderJobInput.duration input)
                 (Compositions.defaultDuration_of composition)) 10
            = Js.or_number (RenderJobInput.duration input)
                (default 10 (Compositions.defaultDuration_of composition))).
  { unfold Js.or_number, Js.or_undefined.
    destruct composition as [meta|]; simpl.
    - pose proof (Hdefault meta eq_refl) as Hd. apply Z.eqb_neq in Hd.
      destruct (RenderJobInput.duration input) as [duration|]; [|by rewrite Hd].
      destruct (duration =? 0) eqn:Hz; [by rewrite Hd|by rewrite Hz].
    - destruct (RenderJobInput.duration input) as [duration|]; [|done].
      destruct (duration =? 0) eqn:Hz; [done|by rewrite Hz]. }
  subst call. unfold renderParams. cbn [r_fps r_durationInFrames r_width r_height
    r_crf r_frame RenderService.newJob RenderJob.fps RenderJob.duration
    RenderJob.format RenderJob.quality Js.or_enum].
  rewrite Hfps, Hduration.
  split; [done|]. split; [done|]. split.
  { intros meta ->. split; [by apply Hdefault|done]. }
  split; [done|]. split; [done|]. split; [done|]. intros Hpos. split.
  - apply Z.div_pos; lia.
  - apply Z.div_lt; lia.
Qed.

Lemma engine_parameters_of_request_witness :
  let call := renderParams Sample.A in
  r_fps call = 30
  ∧ r_durationInFrames call = 10 * 30
  ∧ r_width call = 1920
  ∧ r_height call = 1080
  ∧ r_crf call = 20
  ∧ (0 < r_durationInFrames call → 0 ≤ r_frame call < r_durationInFrames call).
Proof.
  destruct (engine_parameters_of_request "./output" (Sample.request "EventPromo")
              (Compositions.Registered Sample.EventPromo_meta)
              "a3f1c2d4-0001" "a3f1c2d4-0001" 1)
    as (Hfps & Hframes & _ & Hwidth & Hheight & Hcrf & Hframe).
  - vm_compute. reflexivity.
  - vm_compute. discriminate.
  - intros call. split; [exact Hfps|]. split; [exact Hframes|].
    split; [exact Hwidth|]. split; [exact Hheight|]. split; [exact Hcrf|exact Hframe].
Defined.

(** ** Validation *)

(** X12. [validateInputProps] accepts exactly the composition ids that
    [createJob] accepts, whatever the props: it returns [false] exactly
    when [createJob] throws for a request with that composition id. *)
Theorem validateInputProps_iff_createJob (s : RenderService.t)
    (input : RenderJobInput.t) (uuidFile uuidId : string) (now : Z) :
  (validateInputProps (RenderJobInput.compositionId input)
     (RenderJobInput.inputProps input) = true
   ↔ (RenderService.createJob input uuidFile uuidId now s).2 = inr uuidId)
  ∧ (validateInputProps (RenderJobInput.compositionId input)
       (RenderJobInput.inputProps input) = false
     ↔ (RenderService.createJob input uuidFile uuidId now s).2
       = inl ("Unknown composition: " ++ RenderJobInput.compositionId input)%string).
Proof.
  unfold validateInputProps, RenderService.createJob.
  destruct (Compositions.get (RenderJobInput.compositionId input));
    simpl; split; split; done.
Qed.

(** ** How often the bundler is called *)

Section build_count.

Import RenderService.

Lemma builds_bound_ext (n : nat) (s s' : t) :
  length (builds s') = length (builds s) →
  bundlePromise s' = bundlePromise s →
  builds_bound n s → builds_bound n s'.
Proof. unfold builds_bound. by intros -> ->. Qed.

Lemma builds_bound_getBundle (n : nat) (s : t) :
  builds_bound n s → builds_bound n (getBundle s).1.
Proof.
  unfold builds_bound, getBundle.
  destruct (Js.truthy (bundleLocation s)); [done|].
  destruct (bundlePromise s) eqn:Hp; simpl; rewrite ?Hp; [done|].
  rewrite length_app. simpl. lia.
Qed.

Lemma builds_bound_processJob (n : nat) (job : RenderJob.t) (now : Z) (s : t) :
  builds_bound n s → builds_bound n (processJob job now s).
Proof.
  intros Hb. unfold processJob.
  pose proof (builds_bound_getBundle n
                (update (RenderJob.id job) (bundling_update now) s)) as Hg.
  destruct (getBundle _) as [s2 g]. simpl in Hg.
  apply (builds_bound_ext n s2); [done..|]. by apply Hg.
Qed.

Lemma builds_bound_loop (n fuel : nat) (now : Z) (s : t) :
  builds_bound n s → builds_bound n (processQueue_loop fuel now s).
Proof.
  revert s. induction fuel as [|fuel IH]; intros s Hb; simpl; [done|].
  destruct (RenderQueue.canProcess (queue s)); [|done].
  destruct (RenderQueue.dequeue (queue s)) as [q' [job|]]; [|done].
  by apply IH, builds_bound_processJob.
Qed.

Lemma builds_bound_processQueue (n : nat) (now : Z) (s : t) :
  builds_bound n s → builds_bound n (processQueue now s).
Proof.
  intros Hb. unfold processQueue. destruct (isProcessing s); [done|].
  apply (builds_bound_ext n (processQueue_loop (length (RenderQueue.queue (queue s)))
                               now (set_isProcessing true s))); [done..|].
  by apply builds_bound_loop.
Qed.

Lemma builds_bound_fail (n i : nat) (job : RenderJob.t) (message : string) (now : Z)
    (s : t) :
  builds_bound n s → builds_bound n (fail i job message now s).
Proof. intros Hb. unfold fail, finish. by apply builds_bound_processQueue. Qed.

Lemma builds_bound_step (n : nat) (e : Event) (s s' : t) :
  builds_bound n s →
  step s e = Some s' →
  builds_bound (n + invalidations [e]) s'.
Proof.
  intros Hb Hstep.
  destruct e as [input uuidFile uuidId now| |p r|i now|i r now
                |i progress encodedFrames|i r now|i r thumbnailExists now
                |listened cb|listened cb];
    simpl in Hstep |- *; rewrite ?Nat.add_0_r.
  - injection Hstep as <-. unfold createJob.
    destruct (Compositions.get (RenderJobInput.compositionId input));
      [|done].
    by apply builds_bound_processQueue.
  - injection Hstep as <-. unfold builds_bound in *. simpl.
    destruct (bundlePromise s); lia.
  - unfold settle_build in Hstep.
    destruct r; [done| |];
      (destruct (builds s !! p) as [[]|]; [|done..]; injection Hstep as <-;
       apply (builds_bound_ext n s); [simpl; by rewrite length_insert|done|done]).
  - destruct (tasks s !! i) as [[job [g|loc|loc call|loc call|outcome]]|]; try done.
    destruct (awaited s g) as [|loc|message]; [done| |]; injection Hstep as <-.
    + apply (builds_bound_ext n s); [by destruct g..|done].
    + by apply builds_bound_fail.
  - destruct (tasks s !! i) as [[job [g|loc|loc call|loc call|outcome]]|]; try done.
    destruct r; injection Hstep as <-; [done|by apply builds_bound_fail].
  - destruct (tasks s !! i) as [[job [g|loc|loc call|loc call|outcome]]|]; try done.
    by injection Hstep as <-.
  - destruct (tasks s !! i) as [[job [g|loc|loc call|loc call|outcome]]|]; try done.
    destruct r; injection Hstep as <-; [done|by apply builds_bound_fail].
  - destruct (tasks s !! i) as [[job [g|loc|loc call|loc call|outcome]]|]; try done.
    injection Hstep as <-. unfold finish. by apply builds_bound_processQueue.
  - by injection Hstep as <-.
  - by injection Hstep as <-.
Qed.

Lemma invalidations_cons (e : Event) (events : list Event) :
  invalidations (e :: events) = (invalidations [e] + invalidations events)%nat.
Proof. by destruct e. Qed.

Lemma builds_bound_run (events : list Event) (n : nat) (s s' : t) :
  builds_bound n s →
  run s events = Some s' →
  builds_bound (n + invalidations events) s'.
Proof.
  revert n s. induction events as [|e events IH]; intros n s Hb Hrun.
  - injection Hrun as <-. simpl. by rewrite Nat.add_0_r.
  - simpl in Hrun. destruct (step s e) as [s1|] eqn:Hstep; [|done].
    rewrite invalidations_cons, Nat.add_assoc.
    apply (IH _ s1); [|done]. by eapply builds_bound_step.
Qed.

End build_count.

(** X13. Along any run of the service the bundler is called at most once
    plus once per call of [invalidateBundle()]: without invalidation all
    jobs, however many and whether the build succeeds or fails, share a
    single call of [bundle()]. *)
Theorem builds_at_most_invalidations (dir : option string) (concurrency : option Q)
    (events : list RenderService.Event) (s : RenderService.t) :
  RenderService.run (RenderService.new dir concurrency) events = Some s →
  (length (RenderService.builds s) ≤ S (invalidations events))%nat.
Proof.
  intros Hrun.
  pose proof (builds_bound_run events 0 (RenderService.new dir concurrency) s) as Hb.
  unfold builds_bound in Hb. simpl in Hb.
  specialize (Hb ltac:(lia) Hrun). lia.
Qed.

Lemma builds_at_most_invalidations_witness :
  ∃ s, RenderService.run (RenderService.new None (Some 1%Q)) one_slot_events = Some s
       ∧ (length (RenderService.builds s) ≤ 1)%nat.
Proof.
  destruct (RenderService.run (RenderService.new None (Some 1%Q)) one_slot_events)
    as [s|] eqn:Hrun; [|vm_compute in Hrun; discriminate].
  exists s. split; [reflexivity|].
  apply (builds_at_most_invalidations None (Some 1%Q) one_slot_events s Hrun).
Defined.

(** X14. An [invalidateBundle()] that arrives while a build is in flight
    is undone when that build finishes: the call of [getBundle()] that
    started the build resumes and stores the build's location, so the
    next [getBundle()] serves the bundle that was to be discarded, and
    starts no new build. *)
Theorem invalidate_during_build_undone (s : RenderService.t) (i p : nat)
    (job : RenderJob.t) (loc : string) (now : Z) :
  RenderService.tasks s !! i
  = Some {| t_job := job; t_stage := AwaitBundle (Started p) |} →
  RenderService.builds s !! p = Some Pending →
  Js.truthy_string loc = true →
  ∃ s',
    RenderService.run s
      [ RenderService.InvalidateBundle;
        RenderService.BuildSettled p (Fulfilled loc);
        RenderService.BundleAwaited i now ] = Some s'
    ∧ RenderService.bundlePromise s' = None
    ∧ RenderService.bundleLocation s' = Some loc
    ∧ RenderService.getBundle s' = (s', Cached loc).
Proof.
  intros Htask Hbuild Hloc. simpl.
  unfold RenderService.settle_build. simpl. rewrite Hbuild. simpl. rewrite Htask.
  simpl. rewrite list_lookup_insert_eq by (by eapply lookup_lt_Some). simpl.
  eexists. split; [reflexivity|]. split; [done|]. split; [done|].
  unfold RenderService.getBundle. simpl. by rewrite Hloc.
Qed.

Lemma invalidate_during_build_undone_witness :
  ∃ s s',
    RenderService.run (RenderService.new None None) (take 1 one_slot_events) = Some s
    ∧ RenderService.run s
        [ RenderService.InvalidateBundle;
          RenderService.BuildSettled 0 (Fulfilled "/tmp/bundle");
          RenderService.BundleAwaited 0 2 ] = Some s'
    ∧ RenderService.bundlePromise s' = None
    ∧ RenderService.bundleLocation s' = Some "/tmp/bundle"
    ∧ RenderService.getBundle s' = (s', Cached "/tmp/bundle").
Proof.
  destruct (RenderService.run (RenderService.new None None) (take 1 one_slot_events))
    as [s|] eqn:Hrun; [|vm_compute in Hrun; discriminate].
  destruct (invalidate_during_build_undone s 0 0 Sample.A "/tmp/bundle" 2)
    as (s' & H).
  { vm_compute in Hrun. injection Hrun as <-. vm_compute. reflexivity. }
  { vm_compute in Hrun. injection Hrun as <-. vm_compute. reflexivity. }
  { reflexivity. }
  exists s, s'. split; [reflexivity|exact H].
Defined.

(** ** Notifications *)

Section notifications.

Import RenderService.

Lemma quiet_refl (target : string) (log : list (ProgressCallback * RenderProgress)) :
  quiet target log log.
Proof.
  exists []. split; [by rewrite app_nil_r|]. intros cb snapshot Hin.
  by apply elem_of_nil in Hin.
Qed.

Lemma quiet_trans (target : string)
    (log1 log2 log3 : list (ProgressCallback * RenderProgress)) :
  quiet target log1 log2 → quiet target log2 log3 → quiet target log1 log3.
Proof.
  intros (extra1 & -> & H1) (extra2 & -> & H2). exists (extra1 ++ extra2).
  split; [by rewrite app_assoc|]. intros cb snapshot Hin.
  apply elem_of_app in Hin as [Hin|Hin]; [by eapply H1|by eapply H2].
Qed.

Lemma quiet_update (target updated : string) (u : RenderJob.partial)
    (q : RenderQueue.t) :
  keys_ok q →
  target ≠ updated →
  quiet target (RenderQueue.delivered q)
    (RenderQueue.delivered (RenderQueue.update updated u q)).
Proof.
  intros Hkeys Hne.
  destruct (RenderQueue.jobs q !! updated) as [job|] eqn:Hjob.
  - rewrite (update_delivered updated u q job Hjob). eexists. split; [done|].
    intros cb snapshot Hin. apply list_elem_of_fmap in Hin as (cb' & Hpair & _).
    injection Hpair as _ ->. simpl. rewrite (Hkeys _ _ Hjob). by intros <-.
  - unfold RenderQueue.update. rewrite Hjob. apply quiet_refl.
Qed.

Lemma quiet_loop (target : string) (fuel : nat) (now : Z) (s : t) :
  keys_ok (queue s) →
  target ∉ RenderQueue.queue (queue s) →
  quiet target (RenderQueue.delivered (queue s))
    (RenderQueue.delivered (queue (processQueue_loop fuel now s))).
Proof.
  revert s. induction fuel as [|fuel IH]; intros s Hkeys Hnotin; simpl.
  { apply quiet_refl. }
  destruct (RenderQueue.canProcess (queue s)); [|apply quiet_refl].
  unfold RenderQueue.dequeue.
  destruct (RenderQueue.queue (queue s)) as [|next rest] eqn:Hpending.
  { apply quiet_refl. }
  apply not_elem_of_cons in Hnotin as [Hne Hnotin].
  destruct (Js.truthy_string next); [|apply quiet_refl].
  destruct (RenderQueue.jobs (queue s) !! next) as [job|] eqn:Hjob;
    [|apply quiet_refl].
  pose proof (Hkeys _ _ Hjob) as Hid.
  match goal with
  | |- context [processJob job now ?s0] => set (s1 := s0)
  end.
  eapply quiet_trans; [|apply IH].
  - rewrite processJob_queue, Hid.
    by apply (quiet_update target next _ (queue s1)).
  - rewrite processJob_queue. by apply keys_ok_update.
  - by rewrite processJob_queue, update_queue.
Qed.

Lemma quiet_processQueue (target : string) (now : Z) (s : t) :
  keys_ok (queue s) →
  target ∉ RenderQueue.queue (queue s) →
  quiet target (RenderQueue.delivered (queue s))
    (RenderQueue.delivered (queue (processQueue now s))).
Proof.
  intros Hkeys Hnotin. unfold processQueue.
  destruct (isProcessing s); [apply quiet_refl|].
  by apply (quiet_loop target _ now (set_isProcessing true s)).
Qed.

Lemma quiet_finish_update (target : string) (i : nat) (job : RenderJob.t)
    (outcome : Result) (u : RenderJob.partial) (now : Z) (s : t) :
  keys_ok (queue s) →
  target ≠ RenderJob.id job →
  target ∉ RenderQueue.queue (queue s) →
  quiet target (RenderQueue.delivered (queue s))
    (RenderQueue.delivered
       (queue (finish i job outcome now (update (RenderJob.id job) u s)))).
Proof.
  intros Hkeys Hne Hnotin. unfold finish.
  match goal with
  | |- context [processQueue now ?s0] => set (s1 := s0)
  end.
  eapply quiet_trans; [|apply quiet_processQueue].
  - simpl. by apply quiet_update.
  - simpl. by apply keys_ok_update.
  - simpl. by rewrite update_queue.
Qed.

Lemma quiet_step (jobs : list RenderJob.t) (e : Event) (s s' : t)
    (target : string) (stored : RenderJob.t) :
  jobs_ok (jobs ++ option_list (created_job (outputDir s) e)) →
  acct jobs s →
  step s e = Some s' →
  getJob target s = Some stored →
  RenderJob.status stored ∈ [completed; failed] →
  quiet target (RenderQueue.delivered (queue s)) (RenderQueue.delivered (queue s')).
Proof.
  intros Hok' Hacct Hstep Hget Hstatus.
  pose proof (jobs_ok_app_l _ _ Hok') as Hok.
  destruct (settled_apart jobs s target stored Hok Hacct Hget Hstatus)
    as [Hnotin Hlive].
  pose proof (acct_keys _ _ Hacct) as Hkeys.
  assert (Hfail : ∀ i job old message now,
            tasks s !! i = Some {| t_job := job; t_stage := old |} →
            live {| t_job := job; t_stage := old |} →
            quiet target (RenderQueue.delivered (queue s))
              (RenderQueue.delivered (queue (fail i job message now s)))).
  { intros i job old message now Htask Hl. unfold fail.
    apply quiet_finish_update; try done.
    intros ->. by apply (Hlive i _ Htask). }
  destruct e as [input uuidFile uuidId now| |p r|i now|i r now
                |i progress encodedFrames|i r now|i r thumbnailExists now
                |listened cb|listened cb];
    simpl in Hstep, Hok'.
  - injection Hstep as <-. unfold createJob.
    destruct (Compositions.get (RenderJobInput.compositionId input))
      as [composition|] eqn:Hc; simpl in *; [|apply quiet_refl].
    match goal with
    | |- context [processQueue now ?s0] => set (s1 := s0)
    end.
    pose proof (acct_add jobs _ s Hok' Hacct) as Hacct1. fold s1 in Hacct1.
    assert (Hne : target ≠ uuidId).
    { intros ->. destruct Hok' as [[Hnd _] _].
      rewrite fmap_app in Hnd. apply NoDup_app in Hnd as (_ & Hfresh & _).
      apply (Hfresh uuidId); [|simpl; by left].
      destruct Hacct as [_ _ _ Hdom _].
      apply (elem_of_list_to_set (C := gset string)).
      rewrite <- Hdom. by eapply elem_of_dom_2. }
    apply (quiet_processQueue target now s1).
    + by destruct Hacct1.
    + simpl. rewrite not_elem_of_app. split; [done|]. set_solver.
  - injection Hstep as <-. apply quiet_refl.
  - unfold settle_build in Hstep.
    destruct r; [done| |];
      (destruct (builds s !! p) as [[]|]; [|done..]; injection Hstep as <-;
       apply quiet_refl).
  - destruct (tasks s !! i) as [[job [g|loc|loc call|loc call|outcome]]|] eqn:Htask;
      try done.
    destruct (awaited s g) as [|loc|message]; [done| |]; injection Hstep as <-.
    + simpl. replace (queue (getBundle_resume g loc s)) with (queue s)
        by (by destruct g).
      apply quiet_update; [done|]. intros ->. by apply (Hlive i _ Htask).
    + by apply (Hfail i job (AwaitBundle g)).
  - destruct (tasks s !! i) as [[job [g|loc|loc call|loc call|outcome]]|] eqn:Htask;
      try done.
    destruct r; injection Hstep as <-; [apply quiet_refl|].
    by apply (Hfail i job (AwaitSelect loc)).
  - destruct (tasks s !! i) as [[job [g|loc|loc call|loc call|outcome]]|] eqn:Htask;
      try done.
    injection Hstep as <-. simpl. apply quiet_update; [done|].
    intros ->. by apply (Hlive i _ Htask).
  - destruct (tasks s !! i) as [[job [g|loc|loc call|loc call|outcome]]|] eqn:Htask;
      try done.
    destruct r; injection Hstep as <-; [apply quiet_refl|].
    by apply (Hfail i job (AwaitRender loc call)).
  - destruct (tasks s !! i) as [[job [g|loc|loc call|loc call|outcome]]|] eqn:Htask;
      try done.
    injection Hstep as <-.
    apply quiet_finish_update; try done.
    intros ->. by apply (Hlive i _ Htask).
  - injection Hstep as <-. apply quiet_refl.
  - injection Hstep as <-. unfold RenderQueue.unsubscribe. simpl.
    destruct (RenderQueue.listeners (queue s) !! listened); apply quiet_refl.
Qed.

Lemma quiet_run (events : list Event) (jobs : list RenderJob.t) (s s' : t)
    (target : string) (stored : RenderJob.t) :
  jobs_ok (jobs ++ created_jobs (outputDir s) events) →
  steady jobs s →
  run s events = Some s' →
  getJob target s = Some stored →
  RenderJob.status stored ∈ [completed; failed] →
  quiet target (RenderQueue.delivered (queue s)) (RenderQueue.delivered (queue s')).
Proof.
  remember (outputDir s) as dir eqn:Hdir.
  revert jobs s Hdir.
  induction events as [|e events IH];
    intros jobs s Hdir Hok Hsteady Hrun Hget Hstatus.
  - injection Hrun as <-. apply quiet_refl.
  - simpl in Hrun. destruct (step s e) as [s1|] eqn:Hstep; [|done].
    assert (Hcreated : created_jobs dir (e :: events)
                       = option_list (created_job dir e) ++ created_jobs dir events).
    { unfold created_jobs. simpl. by destruct (created_job dir e). }
    rewrite Hcreated, app_assoc in Hok.
    pose proof (jobs_ok_app_l _ _ Hok) as Hok1. rewrite Hdir in Hok1.
    pose proof Hsteady as [Hacct _].
    eapply quiet_trans; [by eapply quiet_step|].
    apply (IH (jobs ++ option_list (created_job dir e)) s1); try done.
    + rewrite Hdir. symmetry. by eapply step_outputDir.
    + rewrite Hdir. by apply steady_step.
    + by eapply settled_step.
Qed.

Lemma told_ok_update (updated : string) (u : RenderJob.partial) (q : RenderQueue.t) :
  ServiceUpdate u → told_ok q → told_ok (RenderQueue.update updated u q).
Proof.
  intros Hu Htold. unfold RenderQueue.update.
  destruct (RenderQueue.jobs q !! updated) as [job|] eqn:Hjob; [|done].
  intros cb snapshot Hin. simpl in Hin.
  apply elem_of_app in Hin as [Hin|Hin]; [by eapply Htold|].
  apply list_elem_of_fmap in Hin as (cb' & Hpair & _).
  injection Hpair as _ ->. simpl.
  destruct Hu as [now| |progress encodedFrames|thumbnail now|message now]; simpl;
    try destruct (0 <? encodedFrames); set_solver.
Qed.

Lemma told_ok_reaches (s0 s : t) :
  told_ok (queue s0) → reaches guarded s0 s → told_ok (queue s).
Proof.
  apply (inv_reaches told_ok); auto using told_ok_update.
  - intros q _. unfold RenderQueue.dequeue.
    destruct (RenderQueue.queue q) as [|next rest]; [done|].
    by destruct (Js.truthy_string next).
  - intros listened cb q. unfold RenderQueue.unsubscribe.
    by destruct (RenderQueue.listeners q !! listened).
Qed.

End notifications.

(** X15. Once the call of [processJob] for a job has ended (its [finally]
    block has run), no listener is ever called for that job again:
    whatever happens afterwards, the log of delivered snapshots only grows
    by snapshots of other jobs.  (A listener subscribed after that point
    is never called.) *)
Theorem no_notification_after_terminal (dir : option string) (concurrency : option Q)
    (events more : list RenderService.Event) (s s' : RenderService.t)
    (i : nat) (job : RenderJob.t) (outcome : Result) :
  RenderService.run (RenderService.new dir concurrency) events = Some s →
  RenderService.run s more = Some s' →
  uuids_ok (created (events ++ more)) →
  RenderService.tasks s !! i = Some {| t_job := job; t_stage := Done outcome |} →
  ∃ extra,
    RenderQueue.delivered (RenderService.queue s')
    = RenderQueue.delivered (RenderService.queue s) ++ extra
    ∧ ∀ cb snapshot, (cb, snapshot) ∈ extra → jobId snapshot ≠ RenderJob.id job.
Proof.
  intros Hrun Hmore Hids Htask.
  rewrite created_app in Hids.
  pose proof (uuids_ok_app_l _ _ Hids) as Hids1.
  destruct (run_steady dir concurrency events s Hrun Hids1) as [_ Hsteady].
  destruct (ended_stored dir concurrency events s i job outcome Hrun Hids1 Htask)
    as (stored & Hget & Hstatus).
  apply (quiet_run more (created_jobs (RenderService.outputDir s) events) s s'
           (RenderJob.id job) stored); try done.
  rewrite <- created_jobs_app. apply created_jobs_ok. by rewrite created_app.
Qed.

(** X16. A listener is only ever handed the statuses [bundling],
    [rendering], [encoding], [completed] and [failed]: no notification says
    [queued] (a listener hears nothing while the job waits) and none says
    [cancelled]. *)
Theorem notified_statuses (dir : option string) (concurrency : option Q)
    (events : list RenderService.Event) (s : RenderService.t)
    (cb : ProgressCallback) (snapshot : RenderProgress) :
  RenderService.run (RenderService.new dir concurrency) events = Some s →
  (cb, snapshot) ∈ RenderQueue.delivered (RenderService.queue s) →
  p_status snapshot ∈ [bundling; rendering; encoding; completed; failed].
Proof.
  intros Hrun Hin.
  apply (told_ok_reaches (RenderService.new dir concurrency) s) with (cb := cb);
    [|by apply (run_reaches events)|done].
  intros cb' snapshot' Hnil. by apply elem_of_nil in Hnil.
Qed.

Lemma no_notification_after_terminal_witness :
  ∃ s s' extra,
    RenderService.run (RenderService.new None (Some 1%Q)) (take 11 listened_events)
    = Some s
    ∧ RenderService.run s (drop 11 listened_events) = Some s'
    ∧ RenderService.tasks s !! 0%nat = Some {| t_job := Sample.A; t_stage := Done Ok |}
    ∧ RenderQueue.delivered (RenderService.queue s')
      = RenderQueue.delivered (RenderService.queue s) ++ extra
    ∧ ∀ cb snapshot, (cb, snapshot) ∈ extra → jobId snapshot ≠ "a3f1c2d4-0001".
Proof.
  destruct (RenderService.run (RenderService.new None (Some 1%Q))
              (take 11 listened_events)) as [s|] eqn:Hrun;
    [|vm_compute in Hrun; discriminate].
  destruct (RenderService.run s (drop 11 listened_events)) as [s'|] eqn:Hmore.
  2:{ vm_compute in Hrun. injection Hrun as <-. vm_compute in Hmore. discriminate. }
  assert (Htask : RenderService.tasks s !! 0%nat
                  = Some {| t_job := Sample.A; t_stage := Done Ok |}).
  { vm_compute in Hrun. injection Hrun as <-. vm_compute. reflexivity. }
  destruct (no_notification_after_terminal None (Some 1%Q) (take 11 listened_events)
              (drop 11 listened_events) s s' 0%nat Sample.A Ok Hrun Hmore)
    as (extra & Hlog & Hquiet).
  { split; apply (bool_decide_unpack _); vm_compute; reflexivity. }
  { exact Htask. }
  exists s, s', extra.
  split; [reflexivity|]. split; [exact Hmore|]. split; [exact Htask|].
  split; [exact Hlog|exact Hquiet].
Defined.

Lemma notified_statuses_witness :
  ∃ s, RenderService.run (RenderService.new None (Some 1%Q)) listened_events = Some s
       ∧ (8%nat, {| jobId := "b7e2d9a0-0002"; p_status := failed; p_progress := 0 |})
         ∈ RenderQueue.delivered (RenderService.queue s)
       ∧ failed ∈ [bundling; rendering; encoding; completed; failed].
Proof.
  destruct (RenderService.run (RenderService.new None (Some 1%Q)) listened_events)
    as [s|] eqn:Hrun; [|vm_compute in Hrun; discriminate].
  assert (Hin : (8%nat, {| jobId := "b7e2d9a0-0002"; p_status := failed;
                           p_progress := 0 |})
                ∈ RenderQueue.delivered (RenderService.queue s)).
  { vm_compute in Hrun. injection Hrun as <-. vm_compute.
    repeat first [apply list_elem_of_here|apply list_elem_of_further]. }
  exists s. split; [reflexivity|]. split; [exact Hin|].
  apply (notified_statuses None (Some 1%Q) listened_events s 8%nat
           {| jobId := "b7e2d9a0-0002"; p_status := failed; p_progress := 0 |}
           Hrun Hin).
Defined.

(** ** Creating a job on a running service *)

Section createJob_on_a_run.

Import RenderService.



End createJob_on_a_run.






(** ** Progress *)

(** X18. For a fraction between 0 and 1 the progress callback stores a
    whole percentage between 0 and 100; it stores 100 for every fraction
    from 0.995 on, and never for a fraction up to 0.99. *)
Theorem progress_percent_range (progress : Q) (encodedFrames : Z) :
  (0 <= progress)%Q →
  (progress <= 1)%Q →
  ∃ percent,
    RenderJob.u_progress (RenderService.progress_update progress encodedFrames)
    = Some percent
    ∧ 0 ≤ percent ≤ 100
    ∧ ((199 # 200 <= progress)%Q → percent = 100)
    ∧ (percent = 100 → (99 # 100 < progress)%Q).
Proof.
  intros Hlow Hhigh. eexists. split; [reflexivity|].
  unfold Js.Math_round.
  set (x := (progress * 100 + (1 # 2))%Q).
  assert (Hx0 : (0 <= x)%Q) by (unfold x; lra).
  assert (Hx1 : (x <= 201 # 2)%Q) by (unfold x; lra).
  assert (H0 : 0 ≤ Qfloor x) by (apply (Qfloor_resp_le 0 x Hx0)).
  assert (H1 : Qfloor x ≤ 100) by (apply (Qfloor_resp_le x (201 # 2) Hx1)).
  split; [lia|]. split.
  - intros Hp. assert (Hx : (inject_Z 100 <= x)%Q).
    { unfold x. change (inject_Z 100) with (100 # 1)%Q. lra. }
    apply Qfloor_resp_le in Hx. rewrite Qfloor_Z in Hx. lia.
  - intros H100. pose proof (Qfloor_le x) as Hle. rewrite H100 in Hle.
    unfold x in Hle. change (inject_Z 100) with (100 # 1)%Q in Hle. lra.
Qed.

Lemma progress_percent_range_witness :
  ∃ percent,
    RenderJob.u_progress (RenderService.progress_update (1 # 2) 0) = Some percent
    ∧ 0 ≤ percent ≤ 100
    ∧ ((199 # 200 <= 1 # 2)%Q → percent = 100)
    ∧ (percent = 100 → (99 # 100 < 1 # 2)%Q).
Proof.
  apply (progress_percent_range (1 # 2) 0); vm_compute; discriminate.
Defined.

(** ** A negative concurrency *)

Section starvation.

Import RenderService.

Lemma starved_canProcess (s : t) :
  starved s → RenderQueue.canProcess (queue s) = false.
Proof.
  intros (Hmax & _ & Hprocessing & _). unfold RenderQueue.canProcess.
  rewrite Hprocessing, size_empty.
  apply andb_false_iff. left. apply lt_false.
  change (inject_Z (Z.of_nat 0)) with 0%Q. by apply Qlt_le_weak.
Qed.

Lemma processQueue_starved (now : Z) (s : t) :
  starved s →
  starved (processQueue now s)
  ∧ RenderQueue.queue (queue (processQueue now s)) = RenderQueue.queue (queue s).
Proof.
  intros Hs. unfold processQueue. destruct (isProcessing s); [done|].
  pose proof (starved_canProcess s Hs) as Hcan.
  destruct (length (RenderQueue.queue (queue s))); simpl; [done|].
  by rewrite Hcan.
Qed.

Lemma starved_step (e : Event) (s s' : t) :
  starved s →
  step s e = Some s' →
  starved s'
  ∧ RenderQueue.queue (queue s')
    = RenderQueue.queue (queue s) ++ option_list (created_id e).
Proof.
  intros Hs Hstep. pose proof Hs as (Hmax & Htasks & Hprocessing & Hqueued).
  destruct e as [input uuidFile uuidId now| |p r|i now|i r now
                |i progress encodedFrames|i r now|i r thumbnailExists now
                |listened cb|listened cb];
    simpl in Hstep |- *; rewrite ?Htasks, ?lookup_nil in Hstep; try done;
    rewrite ?app_nil_r.
  - injection Hstep as <-. unfold createJob.
    destruct (Compositions.get (RenderJobInput.compositionId input))
      as [composition|] eqn:Hc; simpl; [|by rewrite app_nil_r].
    match goal with
    | |- starved (processQueue now ?s0) ∧ _ => set (s1 := s0)
    end.
    assert (Hs1 : starved s1).
    { repeat split; try done. intros jobId stored Hget.
      unfold getJob, RenderQueue.get in Hget. simpl in Hget.
      destruct (decide (uuidId = jobId)) as [<-|Hne].
      - rewrite lookup_insert_eq in Hget. by injection Hget as <-.
      - rewrite lookup_insert_ne in Hget by done. by eapply Hqueued. }
    destruct (processQueue_starved now s1 Hs1) as [Hs' Hpending].
    split; [done|]. by rewrite Hpending.
  - injection Hstep as <-. by split.
  - unfold settle_build in Hstep.
    destruct r; [done| |];
      (destruct (builds s !! p) as [[]|]; [|done..]; injection Hstep as <-;
       by split).
  - injection Hstep as <-. by split.
  - injection Hstep as <-. unfold RenderQueue.unsubscribe. simpl.
    destruct (RenderQueue.listeners (queue s) !! listened); by split.
Qed.

Lemma starved_run (events : list Event) (s s' : t) :
  starved s →
  run s events = Some s' →
  starved s'
  ∧ RenderQueue.queue (queue s') = RenderQueue.queue (queue s) ++ created events.
Proof.
  revert s. induction events as [|e events IH]; intros s Hs Hrun.
  - injection Hrun as <-. unfold created. simpl. by rewrite app_nil_r.
  - simpl in Hrun. destruct (step s e) as [s1|] eqn:Hstep; [|done].
    destruct (starved_step e s s1 Hs Hstep) as [Hs1 Hpending1].
    destruct (IH s1 Hs1 Hrun) as [Hs' Hpending]. split; [done|].
    rewrite Hpending, Hpending1, <- app_assoc. f_equal.
    unfold created. simpl. by destruct (created_id e).
Qed.

End starvation.

(** X19. The constructor accepts a negative [concurrency], and it disables
    the queue for good: [canProcess()] is never true, so along every run no
    job is ever started; every accepted request stays pending, in creation
    order, with status [queued]. *)
Theorem negative_concurrency_starves (dir : option string) (concurrency : option Q)
    (events : list RenderService.Event) (s : RenderService.t) :
  (default 4%Q concurrency < 0)%Q →
  RenderService.run (RenderService.new dir concurrency) events = Some s →
  RenderService.tasks s = []
  ∧ RenderQueue.processing (RenderService.queue s) = ∅
  ∧ RenderQueue.queue (RenderService.queue s) = created events
  ∧ ∀ jobId stored,
      RenderService.getJob jobId s = Some stored → RenderJob.status stored = queued.
Proof.
  intros Hneg Hrun.
  assert (Hnew : starved (RenderService.new dir concurrency)).
  { split; [|split; [done|split; [done|]]].
    - change (RenderQueue.maxConcurrent
                (RenderService.queue (RenderService.new dir concurrency)))
        with (Js.or_fraction (Some (default 4%Q concurrency)) 2).
      by rewrite or_fraction_negative.
    - intros jobId stored Hget. unfold RenderService.getJob, RenderQueue.get in Hget.
      simpl in Hget. by rewrite lookup_empty in Hget. }
  destruct (starved_run events _ s Hnew Hrun)
    as [(_ & Htasks & Hprocessing & Hqueued) Hpending].
  by repeat split.
Qed.

Lemma negative_concurrency_starves_witness :
  ∃ s,
    RenderService.run (RenderService.new None (Some (-1 # 1)%Q)) (take 3 one_slot_events)
    = Some s
    ∧ RenderService.tasks s = []
    ∧ RenderQueue.processing (RenderService.queue s) = ∅
    ∧ RenderQueue.queue (RenderService.queue s) = created (take 3 one_slot_events)
    ∧ ∀ jobId stored,
        RenderService.getJob jobId s = Some stored → RenderJob.status stored = queued.
Proof.
  destruct (RenderService.run (RenderService.new None (Some (-1 # 1)%Q))
              (take 3 one_slot_events)) as [s|] eqn:Hrun;
    [|vm_compute in Hrun; discriminate].
  exists s. split; [reflexivity|].
  apply (negative_concurrency_starves None (Some (-1 # 1)%Q) (take 3 one_slot_events) s);
    [reflexivity|exact Hrun].
Defined.

(** ** No deadlock *)

Section no_deadlock.

Import RenderService.

Lemma ref_ok_mono (n m : nat) (task : Task) :
  (n ≤ m)%nat → ref_ok n task → ref_ok m task.
Proof.
  unfold ref_ok. destruct (t_stage task) as [[loc|p|p]|loc|loc call|loc call|outcome];
    try done; lia.
Qed.

Lemma refs_ok_ext (s s' : t) :
  bundlePromise s' = bundlePromise s →
  length (builds s') = length (builds s) →
  tasks s' = tasks s →
  refs_ok s → refs_ok s'.
Proof. unfold refs_ok. by intros -> -> ->. Qed.

Lemma refs_ok_processJob (job : RenderJob.t) (now : Z) (s : t) :
  refs_ok s → refs_ok (processJob job now s).
Proof.
  intros [Hpromise Htasks]. unfold processJob, getBundle. simpl.
  destruct (Js.truthy (bundleLocation s)) as [loc|]; simpl.
  { split; [exact Hpromise|]. apply Forall_app. split; [done|].
    by apply Forall_singleton. }
  destruct (bundlePromise s) as [p|] eqn:Hp; simpl.
  { split; [simpl; by rewrite Hp|]. apply Forall_app. split; [done|].
    apply Forall_singleton. by apply Hpromise. }
  split; simpl.
  - intros p Heq. injection Heq as <-. rewrite length_app. simpl. lia.
  - rewrite length_app. simpl. apply Forall_app. split.
    + eapply Forall_impl; [done|]. intros task. apply ref_ok_mono. lia.
    + apply Forall_singleton. unfold ref_ok. simpl. lia.
Qed.

Lemma refs_ok_loop (fuel : nat) (now : Z) (s : t) :
  refs_ok s → refs_ok (processQueue_loop fuel now s).
Proof.
  revert s. induction fuel as [|fuel IH]; intros s Hok; simpl; [done|].
  destruct (RenderQueue.canProcess (queue s)); [|done].
  destruct (RenderQueue.dequeue (queue s)) as [q' [job|]]; [|done].
  by apply IH, refs_ok_processJob.
Qed.

Lemma refs_ok_processQueue (now : Z) (s : t) :
  refs_ok s → refs_ok (processQueue now s).
Proof.
  intros Hok. unfold processQueue. destruct (isProcessing s); [done|].
  apply (refs_ok_ext (processQueue_loop (length (RenderQueue.queue (queue s))) now
                        (set_isProcessing true s))); [done..|].
  by apply refs_ok_loop.
Qed.

Lemma refs_ok_set_stage (i : nat) (job : RenderJob.t) (stage : Stage) (s : t) :
  ref_ok (length (builds s)) {| t_job := job; t_stage := stage |} →
  refs_ok s → refs_ok (set_stage i job stage s).
Proof. intros Hnew [Hpromise Htasks]. split; [done|]. by apply Forall_insert. Qed.

Lemma refs_ok_finish (i : nat) (job : RenderJob.t) (outcome : Result) (now : Z)
    (s : t) :
  refs_ok s → refs_ok (finish i job outcome now s).
Proof.
  intros Hok. unfold finish. apply refs_ok_processQueue.
  by apply (refs_ok_set_stage i job (Done outcome) s).
Qed.

Lemma refs_ok_step (s s' : t) (e : Event) :
  refs_ok s → step s e = Some s' → refs_ok s'.
Proof.
  intros Hok Hstep.
  destruct e as [input uuidFile uuidId now| |p r|i now|i r now
                |i progress encodedFrames|i r now|i r thumbnailExists now
                |listened cb|listened cb];
    simpl in Hstep.
  - injection Hstep as <-. unfold createJob.
    destruct (Compositions.get _); [|done].
    by apply refs_ok_processQueue.
  - injection Hstep as <-. destruct Hok as [_ Htasks]. by split.
  - unfold settle_build in Hstep.
    destruct r; [done| |];
      (destruct (builds s !! p) as [[]|]; [|done..]; injection Hstep as <-;
       apply (refs_ok_ext s); [done|simpl; by rewrite length_insert|done|done]).
  - destruct (tasks s !! i) as [[job [g|loc|loc call|loc call|outcome]]|] eqn:Htask;
      try done.
    destruct (awaited s g) as [|loc|message]; [done| |]; injection Hstep as <-.
    + apply refs_ok_set_stage; [done|].
      apply (refs_ok_ext s); [by destruct g..|done].
    + by apply refs_ok_finish.
  - destruct (tasks s !! i) as [[job [g|loc|loc call|loc call|outcome]]|] eqn:Htask;
      try done.
    destruct r; injection Hstep as <-.
    + by apply refs_ok_set_stage.
    + by apply refs_ok_finish.
  - destruct (tasks s !! i) as [[job [g|loc|loc call|loc call|outcome]]|] eqn:Htask;
      try done.
    by injection Hstep as <-.
  - destruct (tasks s !! i) as [[job [g|loc|loc call|loc call|outcome]]|] eqn:Htask;
      try done.
    destruct r; injection Hstep as <-.
    + by apply refs_ok_set_stage.
    + by apply refs_ok_finish.
  - destruct (tasks s !! i) as [[job [g|loc|loc call|loc call|outcome]]|] eqn:Htask;
      try done.
    injection Hstep as <-. by apply refs_ok_finish.
  - by injection Hstep as <-.
  - by injection Hstep as <-.
Qed.

Lemma refs_ok_run (events : list Event) (s s' : t) :
  refs_ok s → run s events = Some s' → refs_ok s'.
Proof.
  revert s. induction events as [|e events IH]; intros s Hok Hrun; simpl in Hrun.
  - by injection Hrun as <-.
  - destruct (step s e) as [s1|] eqn:Hstep; [|done].
    eapply IH; [|done]. by eapply refs_ok_step.
Qed.

Lemma succeeds_created_job (dir : string) (e : Event) :
  succeeds e → created_job dir e = None.
Proof. by destruct e. Qed.

Lemma running_step (jobs : list RenderJob.t) (e : Event) (s s' : t) :
  jobs_ok jobs →
  succeeds e →
  running jobs s →
  step s e = Some s' →
  running jobs s'.
Proof.
  intros Hok He (Hsteady & Hrefs & Hmax) Hstep. split; [|split].
  - pose proof (steady_step jobs e s s') as Hs.
    rewrite (succeeds_created_job _ e He) in Hs. simpl in Hs.
    rewrite app_nil_r in Hs. by apply Hs.
  - by eapply refs_ok_step.
  - rewrite (maxConcurrent_reaches s s'); [done|].
    apply (run_reaches [e]). simpl. by rewrite Hstep.
Qed.

Lemma running_run (jobs : list RenderJob.t) (events : list Event) (s s' : t) :
  jobs_ok jobs →
  Forall succeeds events →
  running jobs s →
  run s events = Some s' →
  running jobs s'.
Proof.
  intros Hok. revert s. induction events as [|e events IH];
    intros s Hsucc Hrunning Hrun; simpl in Hrun.
  - by injection Hrun as <-.
  - destruct (step s e) as [s1|] eqn:Hstep; [|done].
    apply Forall_cons in Hsucc as [He Hsucc].
    apply (IH s1); [done| |done]. by eapply running_step.
Qed.

Lemma run_app (events more : list Event) (s s1 s2 : t) :
  run s events = Some s1 → run s1 more = Some s2 → run s (events ++ more) = Some s2.
Proof.
  revert s. induction events as [|e events IH]; intros s Hrun Hmore; simpl in *.
  - by injection Hrun as ->.
  - destruct (step s e); [by apply IH|done].
Qed.

(** *** What an event does to the list of calls *)

Lemma processQueue_loop_tasks (fuel : nat) (now : Z) (s : t) :
  ∃ started, tasks (processQueue_loop fuel now s) = tasks s ++ started.
Proof.
  revert s. induction fuel as [|fuel IH]; intros s; simpl.
  { exists []. by rewrite app_nil_r. }
  destruct (RenderQueue.canProcess (queue s)).
  2:{ exists []. by rewrite app_nil_r. }
  destruct (RenderQueue.dequeue (queue s)) as [q' [job|]].
  2:{ exists []. by rewrite app_nil_r. }
  destruct (IH (processJob job now (set_queue q' s))) as [started ->].
  destruct (processJob_tasks job now (set_queue q' s)) as [g ->].
  eexists. by rewrite <- app_assoc.
Qed.

Lemma processQueue_tasks (now : Z) (s : t) :
  ∃ started, tasks (processQueue now s) = tasks s ++ started.
Proof.
  unfold processQueue. destruct (isProcessing s).
  { exists []. by rewrite app_nil_r. }
  apply (processQueue_loop_tasks _ now (set_isProcessing true s)).
Qed.

Lemma finish_tasks (i : nat) (job : RenderJob.t) (outcome : Result) (now : Z) (s : t) :
  ∃ started,
    tasks (finish i job outcome now s)
    = <[i := {| t_job := job; t_stage := Done outcome |}]> (tasks s) ++ started.
Proof. unfold finish. apply processQueue_tasks. Qed.

(** The settling of call [i] leaves the other calls alone. *)
Lemma finish_lookup (i : nat) (job : RenderJob.t) (outcome : Result) (now : Z) (s : t)
    (old : Task) :
  tasks s !! i = Some old →
  tasks (finish i job outcome now s) !! i
  = Some {| t_job := job; t_stage := Done outcome |}
  ∧ ∀ j task, j ≠ i → tasks s !! j = Some task →
      tasks (finish i job outcome now s) !! j = Some task.
Proof.
  intros Hold. destruct (finish_tasks i job outcome now s) as [started ->].
  pose proof (lookup_lt_Some _ _ _ Hold) as Hlt. split.
  - rewrite lookup_app_l by (by rewrite length_insert).
    by apply list_lookup_insert_eq.
  - intros j task Hne Hj.
    rewrite lookup_app_l
      by (rewrite length_insert; by eapply lookup_lt_Some).
    by rewrite list_lookup_insert_ne.
Qed.

End no_deadlock.

Section no_deadlock_advance.

Import RenderService.

(** A suspended call can take its next resumption: after the pending
    build it waits for is fulfilled, if need be. *)
Lemma advance_one (jobs : list RenderJob.t) (s : t) (i : nat) (job : RenderJob.t)
    (stage : Stage) :
  running jobs s →
  tasks s !! i = Some {| t_job := job; t_stage := stage |} →
  live {| t_job := job; t_stage := stage |} →
  ∃ es s' stage',
    run s es = Some s'
    ∧ Forall succeeds es
    ∧ tasks s' !! i = Some {| t_job := job; t_stage := stage' |}
    ∧ (rank stage' < rank stage)%nat
    ∧ ∀ j task, j ≠ i → tasks s !! j = Some task → tasks s' !! j = Some task.
Proof.
  intros (_ & [_ Hrefs] & _) Htask Hlive.
  pose proof (lookup_lt_Some _ _ _ Htask) as Hlt.
  destruct stage as [g|loc|loc call|loc call|outcome]; [| | | |done].
  - destruct (awaited s g) as [|loc|message] eqn:Hawaited.
    + assert (Hbuild : ∃ p, (g = Shared p ∨ g = Started p)
                            ∧ builds s !! p = Some Pending).
      { pose proof (Forall_lookup_1 _ _ _ _ Hrefs Htask) as Hp.
        unfold ref_ok in Hp. simpl in Hp.
        destruct g as [loc|p|p]; [done| |];
          (exists p; split; [by eauto|];
           apply lookup_lt_is_Some_2 in Hp as [r Hr];
           simpl in Hawaited; rewrite Hr in Hawaited; simpl in Hawaited;
           by rewrite Hr, Hawaited). }
      destruct Hbuild as (p & Hg & Hbuild).
      pose proof (lookup_lt_Some _ _ _ Hbuild) as Hp.
      exists [BuildSettled p (Fulfilled "/bundle"); BundleAwaited i 0].
      eexists. exists (AwaitSelect "/bundle").
      split; [|split; [by repeat constructor|]].
      * simpl. unfold settle_build. rewrite Hbuild. simpl. rewrite Htask.
        assert (Hnow : awaited (set_builds (<[p:=Fulfilled "/bundle"]> (builds s)) s) g
                       = Fulfilled "/bundle").
        { destruct Hg as [-> | ->]; simpl; by rewrite list_lookup_insert_eq. }
        rewrite Hnow. reflexivity.
      * simpl. replace (tasks (getBundle_resume g "/bundle"
                                 (set_builds (<[p:=Fulfilled "/bundle"]> (builds s)) s)))
          with (tasks s) by (by destruct g).
        split; [by apply list_lookup_insert_eq|]. split; [lia|].
        intros j task Hne Hj. by rewrite list_lookup_insert_ne.
    + exists [BundleAwaited i 0]. eexists. exists (AwaitSelect loc).
      split; [|split; [by repeat constructor|]].
      * simpl. rewrite Htask, Hawaited. reflexivity.
      * simpl. replace (tasks (getBundle_resume g loc s)) with (tasks s)
          by (by destruct g).
        split; [by apply list_lookup_insert_eq|]. split; [lia|].
        intros j task Hne Hj. by rewrite list_lookup_insert_ne.
    + exists [BundleAwaited i 0]. eexists. exists (Done (Threw message)).
      split; [|split; [by repeat constructor|]].
      * simpl. rewrite Htask, Hawaited. reflexivity.
      * unfold fail.
        destruct (finish_lookup i job (Threw message) 0
                    (update (RenderJob.id job) (failed_update message 0) s) _ Htask)
          as [Hi Hframe].
        split; [done|]. split; [simpl; lia|]. intros j task Hne Hj. by apply Hframe.
  - exists [Selected i Ok 0]. eexists. exists (AwaitRender loc (renderParams job)).
    split; [|split; [by repeat constructor|]].
    + simpl. rewrite Htask. reflexivity.
    + simpl. split; [by apply list_lookup_insert_eq|]. split; [lia|].
      intros j task Hne Hj. by rewrite list_lookup_insert_ne.
  - exists [Rendered i Ok 0]. eexists. exists (AwaitStill loc call).
    split; [|split; [by repeat constructor|]].
    + simpl. rewrite Htask. reflexivity.
    + simpl. split; [by apply list_lookup_insert_eq|]. split; [lia|].
      intros j task Hne Hj. by rewrite list_lookup_insert_ne.
  - exists [StillRendered i Ok true 0]. eexists. exists (Done Ok).
    split; [|split; [by repeat constructor|]].
    + simpl. rewrite Htask. reflexivity.
    + destruct (finish_lookup i job Ok 0
                  (update (RenderJob.id job)
                     (completed_update (Some (r_thumbnailPath call)) 0) s) _ Htask)
        as [Hi Hframe].
      split; [done|]. split; [simpl; lia|]. intros j task Hne Hj. by apply Hframe.
Qed.

(** A call can be driven to its end. *)
Lemma settle_task (jobs : list RenderJob.t) (n : nat) (s : t) (i : nat)
    (job : RenderJob.t) (stage : Stage) :
  jobs_ok jobs →
  (rank stage ≤ n)%nat →
  running jobs s →
  tasks s !! i = Some {| t_job := job; t_stage := stage |} →
  ∃ es s' outcome,
    run s es = Some s'
    ∧ Forall succeeds es
    ∧ running jobs s'
    ∧ tasks s' !! i = Some {| t_job := job; t_stage := Done outcome |}
    ∧ ∀ j task, j ≠ i → tasks s !! j = Some task → tasks s' !! j = Some task.
Proof.
  intros Hok. revert s stage.
  induction n as [|n IH]; intros s stage Hrank Hrunning Htask.
  - destruct stage as [g|loc|loc call|loc call|outcome]; simpl in Hrank; try lia.
    exists [], s, outcome.
    split; [done|]. split; [constructor|]. split; [done|]. by split.
  - assert (Hcases : (∃ outcome, stage = Done outcome)
                      ∨ live {| t_job := job; t_stage := stage |}).
    { destruct stage as [g|loc|loc call|loc call|outcome];
        [by right..|left; by exists outcome]. }
    destruct Hcases as [[outcome ->]|Hlive].
    { exists [], s, outcome.
      split; [done|]. split; [constructor|]. split; [done|]. by split. }
    destruct (advance_one jobs s i job stage Hrunning Htask Hlive)
      as (es & s1 & stage1 & Hrun1 & Hsucc1 & Htask1 & Hrank1 & Hframe1).
    pose proof (running_run jobs es s s1 Hok Hsucc1 Hrunning Hrun1) as Hrunning1.
    destruct (IH s1 stage1) as (es2 & s2 & outcome & Hrun2 & Hsucc2 & Hrunning2
                                & Htask2 & Hframe2); [lia|done|done|].
    exists (es ++ es2), s2, outcome.
    split; [by eapply run_app|]. split; [by apply Forall_app|].
    split; [done|]. split; [done|].
    intros j task Hne Hj. by apply Hframe2, Hframe1.
Qed.

Lemma acct_tasks_length (jobs : list RenderJob.t) (s : t) :
  acct jobs s → (length (tasks s) ≤ length jobs)%nat.
Proof.
  intros [_ (waiting & -> & _) _ _ _]. rewrite length_app, length_fmap. lia.
Qed.

(** With every call settled and a slot available, nothing is pending. *)
Lemma settled_no_pending (jobs : list RenderJob.t) (s : t) :
  running jobs s →
  Forall (fun task => ¬ live task) (tasks s) →
  RenderQueue.queue (queue s) = [].
Proof.
  intros ((Hacct & _ & Hcan) & _ & Hmax) Hdone.
  assert (Hempty : RenderQueue.processing (queue s) = ∅).
  { apply set_eq. intros jobId. split; [|set_solver].
    intros Hin. apply (acct_slots _ _ Hacct) in Hin as (i & task & Htask & Hlive & _).
    by destruct (Forall_lookup_1 _ _ _ _ Hdone Htask). }
  unfold RenderQueue.canProcess in Hcan. rewrite Hempty, size_empty in Hcan.
  apply andb_false_iff in Hcan as [Hfull|Hnone].
  - apply lt_false in Hfull. change (inject_Z (Z.of_nat 0)) with 0%Q in Hfull.
    by apply Qle_not_lt in Hfull.
  - apply Z.ltb_ge in Hnone.
    destruct (RenderQueue.queue (queue s)); [done|]. simpl in Hnone. lia.
Qed.

(** The calls can be driven to their ends one after the other, those
    started on the way included. *)
Lemma drain (jobs : list RenderJob.t) (n k : nat) (s : t) :
  jobs_ok jobs →
  running jobs s →
  (length jobs - k ≤ n)%nat →
  (k ≤ length (tasks s))%nat →
  (∀ j task, (j < k)%nat → tasks s !! j = Some task → ¬ live task) →
  ∃ more s',
    run s more = Some s'
    ∧ Forall succeeds more
    ∧ running jobs s'
    ∧ Forall (fun task => ¬ live task) (tasks s').
Proof.
  intros Hok. revert k s.
  induction n as [|n IH]; intros k s Hrunning Hn Hk Hdone.
  - pose proof Hrunning as ((Hacct & _) & _).
    pose proof (acct_tasks_length jobs s Hacct) as Hlen.
    exists [], s. split; [done|]. split; [constructor|]. split; [done|].
    apply Forall_lookup. intros j task Hj. apply (Hdone j); [|done].
    apply lookup_lt_Some in Hj. lia.
  - destruct (decide (k = length (tasks s))) as [->|Hne].
    { exists [], s. split; [done|]. split; [constructor|]. split; [done|].
      apply Forall_lookup. intros j task Hj. apply (Hdone j); [|done].
      by apply lookup_lt_Some in Hj. }
    destruct (lookup_lt_is_Some_2 (tasks s) k) as [[job stage] Htask]; [lia|].
    destruct (settle_task jobs (rank stage) s k job stage Hok (le_n _) Hrunning Htask)
      as (es & s1 & outcome & Hrun1 & Hsucc1 & Hrunning1 & Htask1 & Hframe1).
    destruct (IH (S k) s1) as (more & s' & Hrun' & Hsucc' & Hrunning' & Hdone');
      [done|lia|by apply lookup_lt_Some in Htask1| |].
    + intros j task Hj Hlookup.
      destruct (decide (j = k)) as [->|Hjk].
      * rewrite Htask1 in Hlookup. injection Hlookup as <-. by intros [].
      * destruct (lookup_lt_is_Some_2 (tasks s) j) as [old Hold]; [lia|].
        rewrite (Hframe1 j old Hjk Hold) in Hlookup. injection Hlookup as <-.
        apply (Hdone j); [lia|done].
    + exists (es ++ more), s'. split; [by eapply run_app|].
      split; [by apply Forall_app|]. by split.
Qed.

End no_deadlock_advance.

(** X20. With a non-negative [concurrency] the service cannot get stuck:
    from every state of a run, if the bundler and the engine answer (the
    pending build is fulfilled, the suspended calls resume and their engine
    calls resolve), every accepted job reaches [completed] or [failed],
    the jobs still pending included, without any further request. *)
Theorem every_job_can_finish (dir : option string) (concurrency : option Q)
    (events : list RenderService.Event) (s : RenderService.t) :
  (0 <= default 4%Q concurrency)%Q →
  RenderService.run (RenderService.new dir concurrency) events = Some s →
  uuids_ok (created events) →
  ∃ more s',
    RenderService.run s more = Some s'
    ∧ Forall succeeds more
    ∧ RenderQueue.queue (RenderService.queue s') = []
    ∧ RenderQueue.processing (RenderService.queue s') = ∅
    ∧ ∀ job, job ∈ created_jobs (RenderService.outputDir s) events →
        ∃ stored,
          RenderService.getJob (RenderJob.id job) s' = Some stored
          ∧ as_created stored = job
          ∧ RenderJob.status stored ∈ [completed; failed].
Proof.
  intros Hc Hrun Hids.
  destruct (run_steady dir concurrency events s Hrun Hids) as [Hok Hsteady].
  set (jobs := created_jobs (RenderService.outputDir s) events) in *.
  assert (Hrunning : running jobs s).
  { split; [done|]. split.
    - apply (refs_ok_run events (RenderService.new dir concurrency)); [|done].
      split; [done|]. simpl. constructor.
    - rewrite (maxConcurrent_reaches (RenderService.new dir concurrency) s)
        by (by apply (run_reaches events)).
      change (RenderQueue.maxConcurrent
                (RenderService.queue (RenderService.new dir concurrency)))
        with (Js.or_fraction (Some (default 4%Q concurrency)) 2).
      by apply or_fraction_positive. }
  destruct (drain jobs (length jobs) 0 s Hok Hrunning) as
    (more & s' & Hmore & Hsucc & Hrunning' & Hdone); [lia|lia| |].
  { intros j task Hj. lia. }
  pose proof (settled_no_pending jobs s' Hrunning' Hdone) as Hpending.
  pose proof Hrunning' as ((Hacct' & _) & _).
  exists more, s'. split; [done|]. split; [done|]. split; [done|]. split.
  - apply set_eq. intros jobId. split; [|set_solver].
    intros Hin. apply (acct_slots _ _ Hacct') in Hin as (i & task & Htask & Hlive & _).
    by destruct (Forall_lookup_1 _ _ _ _ Hdone Htask).
  - intros job Hin.
    destruct Hacct' as [_ (waiting & Hjobs & Hq & _) Htasks _ _].
    rewrite Hpending in Hq. symmetry in Hq. apply fmap_nil_inv in Hq as ->.
    rewrite app_nil_r in Hjobs. rewrite Hjobs in Hin.
    apply list_elem_of_fmap in Hin as (task & -> & Htask).
    apply list_elem_of_lookup_1 in Htask as [i Htask].
    destruct (Htasks i task Htask) as (stored & Hstored & Hc' & Hstage).
    exists stored. split; [done|]. split; [done|].
    pose proof (Forall_lookup_1 _ _ _ _ Hdone Htask) as Hnot.
    apply stage_ok_status in Hstage. unfold live in Hnot.
    destruct (t_stage task) as [g|loc|loc call|loc call|[|message]];
      try (by destruct Hnot); rewrite Hstage.
    + apply list_elem_of_here.
    + apply list_elem_of_further, list_elem_of_here.
Qed.

Lemma every_job_can_finish_witness :
  ∃ s more s',
    RenderService.run (RenderService.new None (Some 1%Q)) (take 3 one_slot_events)
    = Some s
    ∧ RenderService.run s more = Some s'
    ∧ Forall succeeds more
    ∧ RenderQueue.queue (RenderService.queue s') = []
    ∧ RenderQueue.processing (RenderService.queue s') = ∅
    ∧ ∀ job,
        job ∈ created_jobs (RenderService.outputDir s) (take 3 one_slot_events) →
        ∃ stored,
          RenderService.getJob (RenderJob.id job) s' = Some stored
          ∧ as_created stored = job
          ∧ RenderJob.status stored ∈ [completed; failed].
Proof.
  destruct (RenderService.run (RenderService.new None (Some 1%Q))
              (take 3 one_slot_events)) as [s|] eqn:Hrun;
    [|vm_compute in Hrun; discriminate].
  destruct (every_job_can_finish None (Some 1%Q) (take 3 one_slot_events) s)
    as (more & s' & H); [vm_compute; discriminate|exact Hrun| |].
  { split; apply (bool_decide_unpack _); vm_compute; reflexivity. }
  exists s, more, s'. split; [reflexivity|exact H].
Defined.

(** ** Where bundle locations come from *)

Section bundle_provenance.

Import RenderService.

Lemma loc_ok_mono (bs bs' : list Settled) (task : Task) :
  (∀ p loc, bs !! p = Some (Fulfilled loc) → bs' !! p = Some (Fulfilled loc)) →
  loc_ok bs task → loc_ok bs' task.
Proof.
  intros Hext. unfold loc_ok.
  destruct (t_stage task) as [[loc|p|p]|loc|loc call|loc call|outcome]; try done;
    intros [p Hp]; exists p; by apply Hext.
Qed.

Lemma locs_ok_ext (s s' : t) :
  bundleLocation s' = bundleLocation s →
  builds s' = builds s →
  tasks s' = tasks s →
  locs_ok s → locs_ok s'.
Proof. unfold locs_ok. by intros -> -> ->. Qed.

Lemma truthy_Some (a : option string) (loc : string) :
  Js.truthy a = Some loc → a = Some loc.
Proof.
  unfold Js.truthy. destruct a as [v|]; [|done].
  destruct (Js.truthy_string v); [|done]. by intros [= ->].
Qed.

Lemma locs_ok_processJob (job : RenderJob.t) (now : Z) (s : t) :
  locs_ok s → locs_ok (processJob job now s).
Proof.
  intros [Hloc Htasks]. unfold processJob, getBundle. simpl.
  destruct (Js.truthy (bundleLocation s)) as [loc|] eqn:Htruthy; simpl.
  { split; [exact Hloc|]. apply Forall_app. split; [done|].
    apply Forall_singleton. apply Hloc. by apply truthy_Some. }
  destruct (bundlePromise s) as [p|] eqn:Hp; simpl.
  { split; [exact Hloc|]. apply Forall_app. split; [done|].
    by apply Forall_singleton. }
  assert (Hext : ∀ p loc, builds s !! p = Some (Fulfilled loc) →
                          (builds s ++ [Pending]) !! p = Some (Fulfilled loc)).
  { intros p loc Hb. by apply lookup_app_l_Some. }
  split; simpl.
  - intros loc Hl. destruct (Hloc loc Hl) as [p Hb]. exists p. by apply Hext.
  - apply Forall_app. split; [|by apply Forall_singleton].
    eapply Forall_impl; [done|]. intros task. by apply loc_ok_mono.
Qed.

Lemma locs_ok_loop (fuel : nat) (now : Z) (s : t) :
  locs_ok s → locs_ok (processQueue_loop fuel now s).
Proof.
  revert s. induction fuel as [|fuel IH]; intros s Hok; simpl; [done|].
  destruct (RenderQueue.canProcess (queue s)); [|done].
  destruct (RenderQueue.dequeue (queue s)) as [q' [job|]]; [|done].
  by apply IH, locs_ok_processJob.
Qed.

Lemma locs_ok_processQueue (now : Z) (s : t) :
  locs_ok s → locs_ok (processQueue now s).
Proof.
  intros Hok. unfold processQueue. destruct (isProcessing s); [done|].
  apply (locs_ok_ext (processQueue_loop (length (RenderQueue.queue (queue s))) now
                        (set_isProcessing true s))); [done..|].
  by apply locs_ok_loop.
Qed.

Lemma locs_ok_set_stage (i : nat) (job : RenderJob.t) (stage : Stage) (s : t) :
  loc_ok (builds s) {| t_job := job; t_stage := stage |} →
  locs_ok s → locs_ok (set_stage i job stage s).
Proof. intros Hnew [Hloc Htasks]. split; [done|]. by apply Forall_insert. Qed.

Lemma locs_ok_finish (i : nat) (job : RenderJob.t) (outcome : Result) (now : Z)
    (s : t) :
  locs_ok s → locs_ok (finish i job outcome now s).
Proof.
  intros Hok. unfold finish. apply locs_ok_processQueue.
  by apply (locs_ok_set_stage i job (Done outcome) s).
Qed.

Lemma locs_ok_step (s s' : t) (e : Event) :
  locs_ok s → step s e = Some s' → locs_ok s'.
Proof.
  intros Hok Hstep.
  destruct e as [input uuidFile uuidId now| |p r|i now|i r now
                |i progress encodedFrames|i r now|i r thumbnailExists now
                |listened cb|listened cb];
    simpl in Hstep.
  - injection Hstep as <-. unfold createJob.
    destruct (Compositions.get _); [|done].
    by apply locs_ok_processQueue.
  - injection Hstep as <-. destruct Hok as [_ Htasks]. by split.
  - unfold settle_build in Hstep.
    assert (Hext : ∀ r, builds s !! p = Some Pending →
              ∀ p' loc, builds s !! p' = Some (Fulfilled loc) →
                        <[p := r]> (builds s) !! p' = Some (Fulfilled loc)).
    { intros r0 Hp p' loc Hb. rewrite list_lookup_insert_ne; [done|].
      intros <-. by rewrite Hp in Hb. }
    destruct Hok as [Hloc Htasks].
    destruct r; [done| |];
      (destruct (builds s !! p) as [[]|] eqn:Hp; [|done..]; injection Hstep as <-;
       split; simpl;
       [intros loc Hl; destruct (Hloc loc Hl) as [p' Hb]; exists p'; by apply Hext
       |eapply Forall_impl; [done|]; intros task; apply loc_ok_mono; by apply Hext]).
  - destruct (tasks s !! i) as [[job [g|loc|loc call|loc call|outcome]]|] eqn:Htask;
      try done.
    destruct (awaited s g) as [|loc|message] eqn:Hawaited; [done| |];
      injection Hstep as <-.
    + assert (Hbuilt : ∃ p, builds s !! p = Some (Fulfilled loc)).
      { destruct Hok as [_ Htasks].
        pose proof (Forall_lookup_1 _ _ _ _ Htasks Htask) as Hg.
        unfold loc_ok in Hg. simpl in Hg.
        destruct g as [loc'|p|p]; simpl in Hawaited.
        - by injection Hawaited as ->.
        - exists p. destruct (builds s !! p) as [r|]; [|done].
          simpl in Hawaited. by rewrite Hawaited.
        - exists p. destruct (builds s !! p) as [r|]; [|done].
          simpl in Hawaited. by rewrite Hawaited. }
      apply locs_ok_set_stage; [by destruct g|].
      destruct Hok as [Hloc Htasks]. destruct g; split; try done.
      simpl. intros loc' Hl. by injection Hl as <-.
    + by apply locs_ok_finish.
  - destruct (tasks s !! i) as [[job [g|loc|loc call|loc call|outcome]]|] eqn:Htask;
      try done.
    pose proof (Forall_lookup_1 _ _ _ _ (proj2 Hok) Htask) as Hcall.
    destruct r; injection Hstep as <-.
    + by apply locs_ok_set_stage.
    + by apply locs_ok_finish.
  - destruct (tasks s !! i) as [[job [g|loc|loc call|loc call|outcome]]|] eqn:Htask;
      try done.
    by injection Hstep as <-.
  - destruct (tasks s !! i) as [[job [g|loc|loc call|loc call|outcome]]|] eqn:Htask;
      try done.
    pose proof (Forall_lookup_1 _ _ _ _ (proj2 Hok) Htask) as Hcall.
    destruct r; injection Hstep as <-.
    + by apply locs_ok_set_stage.
    + by apply locs_ok_finish.
  - destruct (tasks s !! i) as [[job [g|loc|loc call|loc call|outcome]]|] eqn:Htask;
      try done.
    injection Hstep as <-. by apply locs_ok_finish.
  - by injection Hstep as <-.
  - by injection Hstep as <-.
Qed.

Lemma locs_ok_run (events : list Event) (s s' : t) :
  locs_ok s → run s events = Some s' → locs_ok s'.
Proof.
  revert s. induction events as [|e events IH]; intros s Hok Hrun; simpl in Hrun.
  - by injection Hrun as <-.
  - destruct (step s e) as [s1|] eqn:Hstep; [|done].
    eapply IH; [|done]. by eapply locs_ok_step.
Qed.

End bundle_provenance.

(** X21. The bundle location the service caches, and the [serveUrl] of
    every engine call it makes, is always the result of a build that the
    bundler fulfilled: no job is rendered from a location that no call of
    [bundle()] produced. *)
Theorem serve_url_from_build (dir : option string) (concurrency : option Q)
    (events : list RenderService.Event) (s : RenderService.t) :
  RenderService.run (RenderService.new dir concurrency) events = Some s →
  (∀ loc, RenderService.bundleLocation s = Some loc →
          ∃ p, RenderService.builds s !! p = Some (Fulfilled loc))
  ∧ ∀ i job loc,
      (RenderService.tasks s !! i = Some {| t_job := job; t_stage := AwaitSelect loc |}
       ∨ (∃ call, RenderService.tasks s !! i
                  = Some {| t_job := job; t_stage := AwaitRender loc call |})
       ∨ (∃ call, RenderService.tasks s !! i
                  = Some {| t_job := job; t_stage := AwaitStill loc call |})) →
      ∃ p, RenderService.builds s !! p = Some (Fulfilled loc).
Proof.
  intros Hrun.
  destruct (locs_ok_run events (RenderService.new dir concurrency) s) as [Hloc Htasks];
    [|done|].
  { split; [done|]. simpl. constructor. }
  split; [done|]. intros i job loc [Htask|[[call Htask]|[call Htask]]];
    apply (Forall_lookup_1 _ _ _ _ Htasks Htask).
Qed.

Lemma serve_url_from_build_witness :
  ∃ s p,
    RenderService.run (RenderService.new None (Some 1%Q)) (take 6 one_slot_events)
    = Some s
    ∧ RenderService.tasks s !! 0%nat
      = Some {| t_job := Sample.A;
                t_stage := AwaitRender "/tmp/bundle" (renderParams Sample.A) |}
    ∧ RenderService.builds s !! p = Some (Fulfilled "/tmp/bundle").
Proof.
  destruct (RenderService.run (RenderService.new None (Some 1%Q))
              (take 6 one_slot_events)) as [s|] eqn:Hrun;
    [|vm_compute in Hrun; discriminate].
  assert (Htask : RenderService.tasks s !! 0%nat
                  = Some {| t_job := Sample.A;
                            t_stage := AwaitRender "/tmp/bundle"
                                         (renderParams Sample.A) |}).
  { vm_compute in Hrun. injection Hrun as <-. vm_compute. reflexivity. }
  destruct (serve_url_from_build None (Some 1%Q) (take 6 one_slot_events) s Hrun)
    as [_ Hcalls].
  destruct (Hcalls 0%nat Sample.A "/tmp/bundle") as [p Hp].
  { right. left. by eexists. }
  exists s, p. split; [reflexivity|]. split; [exact Htask|exact Hp].
Defined.

(** ** A failed build *)

Section failed_build.

Import RenderService.








End failed_build.



